(** * EliteDB: the ingestion pipeline of [parse_and_store.ts]

    A shallow embedding of [processFile]: the line-driven reassembly of the
    elements of a JSON array, the ring / landable / atmosphere filter, and
    the batched writes to the [systems] table, together with the parts of
    the JavaScript runtime the function relies on (property access,
    truthiness, numeric coercion, [JSON.parse], [JSON.stringify],
    [Number.prototype.toFixed]).

    Conventions of the model:
    - a JavaScript string is the list of its UTF-16 code units;
    - a number is a binary64 value: a finite one is kept as the decimal
      [m * 10^e] that Number::toString prints for it, the shortest that
      identifies it, and a literal is rounded to the nearest double when
      it is read; negative zero and the infinities are values of their
      own;
    - the match rate of the progress report is a binary64 value, computed
      with the kernel's primitive floats;
    - the SQLite store is a list of durable rows and an optional open
      transaction; a row holds the seven values bound to the parameters
      of the prepared statement, as [Statement.run] of bun:sqlite binds
      its arguments. *)

From Stdlib Require Import String Ascii.
From Stdlib Require Import ZArith NArith List Bool Lia FinFun.
From Stdlib Require Import Floats Uint63.
Import ListNotations.

Set Implicit Arguments.

(* ================================================================== *)
(** * Part I: definitions *)
(* ================================================================== *)

(** ** Text *)

Module Text.

Local Open Scope N_scope.

(** A string of the program: UTF-16 code units. *)
Definition jstring := list N.

(** A literal of this file as a program string. *)
Definition lit (s : string) : jstring :=
  map N_of_ascii (list_ascii_of_string s).

(** JSON text written with apostrophes standing for double quotes. *)
Definition json_text (s : string) : jstring :=
  map (fun c => if c =? 39 then 34 else c) (lit s).

Fixpoint str_eqb (a b : jstring) : bool :=
  match a, b with
  | [], [] => true
  | x :: a', y :: b' => (x =? y) && str_eqb a' b'
  | _, _ => false
  end.

(** WhiteSpace and LineTerminator of ECMAScript, as [String.prototype.trim]
    and the string-to-number conversion strip them. *)
Definition is_space (c : N) : bool :=
  ((9 <=? c) && (c <=? 13)) || (c =? 32) || (c =? 160) || (c =? 5760)
  || ((8192 <=? c) && (c <=? 8202)) || (c =? 8232) || (c =? 8233)
  || (c =? 8239) || (c =? 8287) || (c =? 12288) || (c =? 65279).

Fixpoint trimStart (s : jstring) : jstring :=
  match s with
  | c :: r => if is_space c then trimStart r else s
  | [] => []
  end.

Definition trimEnd (s : jstring) : jstring := rev (trimStart (rev s)).

(** [line.trim()] *)
Definition trim (s : jstring) : jstring := trimEnd (trimStart s).

(** [s.replace(/,$/, "")]: without the [m] flag [$] is the end of the
    string, so at most the last code unit goes. *)
Definition strip_comma (s : jstring) : jstring :=
  match rev s with
  | c :: r => if c =? 44 then rev r else s
  | [] => s
  end.

Definition is_digit (c : N) : bool := (48 <=? c) && (c <=? 57).

(** Decimal digits of a natural number, most significant first. *)
Fixpoint digits_aux (fuel : nat) (n : N) (acc : list N) : list N :=
  match fuel with
  | O => n :: acc
  | S f => if n <? 10 then n :: acc
           else digits_aux f (n / 10) (n mod 10 :: acc)
  end.

Definition digits_of (n : N) : list N :=
  digits_aux (N.to_nat (N.log2 n)) n [].

(** Value of a list of decimal digits. *)
Definition digits_val (ds : list N) : N :=
  fold_left (fun a d => 10 * a + d) ds 0.

Definition digit_char (d : N) : N := 48 + d.
Definition char_digit (c : N) : N := c - 48.

Definition nat_text (n : N) : jstring := map digit_char (digits_of n).

Definition int_text (z : Z) : jstring :=
  match z with
  | Zneg p => 45 :: nat_text (Npos p)
  | _ => nat_text (Z.to_N z)
  end.

End Text.
Export Text.

(** ** JavaScript values and the operations [processFile] applies to them *)

Module Js.

Local Open Scope Z_scope.

Inductive exn := TypeError | SyntaxError | SqliteError.

(** Completion of an expression: a value, or a thrown exception. *)
Inductive result (A : Type) : Type :=
| Ok (a : A)
| Throw (e : exn).
Arguments Ok {A} a.
Arguments Throw {A} e.

Definition rbind {A B} (r : result A) (k : A -> result B) : result B :=
  match r with
  | Ok a => k a
  | Throw e => Throw e
  end.

(** A decimal: [mant * 10^expo], in normal form when [mant] is not a
    multiple of ten, or both fields are zero. *)
Record number := Num { mant : Z; expo : Z }.

Definition zero : number := Num 0 0.

Fixpoint strip_zeros (fuel : nat) (m e : Z) : number :=
  match fuel with
  | O => Num m e
  | S f => if m mod 10 =? 0 then strip_zeros f (m / 10) (e + 1) else Num m e
  end.

Definition normalize (m e : Z) : number :=
  if m =? 0 then zero
  else strip_zeros (Z.to_nat (Z.log2 (Z.abs m))) m e.

Definition of_nat_number (n : nat) : number := normalize (Z.of_nat n) 0.

(** *** Binary64

    A double is [mantissa * 2^exponent] with [mantissa] below [2^53] and
    [exponent] from [-1074] to [971]; a normal one has its mantissa at
    [2^52] or above. *)
Inductive double :=
| DZero
| DInf (negative : bool)
| DFin (negative : bool) (mantissa exponent : Z).

Definition double_eqb (a b : double) : bool :=
  match a, b with
  | DZero, DZero => true
  | DInf s, DInf t => Bool.eqb s t
  | DFin s f q, DFin t g r => Bool.eqb s t && (f =? g) && (q =? r)
  | _, _ => false
  end.

(** The [b] with [2^b <= n / d < 2^(b+1)], for positive [n] and [d]. *)
Definition log2_ratio (n d : Z) : Z :=
  let b := Z.log2 n - Z.log2 d in
  if n * 2 ^ Z.max (- b) 0 <? d * 2 ^ Z.max b 0 then b - 1 else b.

Definition decimal_length (m : Z) : Z :=
  Z.of_nat (length (digits_of (Z.to_N (Z.abs m)))).

(** The double nearest to a decimal, ties to the even mantissa: what
    reading a numeric literal yields.  A decimal of more than 310 digits
    before the point is beyond the largest double, one that starts more
    than 330 places after the point is below half the smallest. *)
Definition nearest (x : number) : double :=
  let m := Z.abs (mant x) in
  let e := expo x in
  let negative := mant x <? 0 in
  if m =? 0 then DZero
  else
    let k := decimal_length m + e in
    if 310 <? k then DInf negative
    else if k <? -330 then DZero
    else
      let n := m * 10 ^ Z.max e 0 in
      let d := 10 ^ Z.max (- e) 0 in
      let q := Z.max (log2_ratio n d - 52) (-1074) in
      let n' := n * 2 ^ Z.max (- q) 0 in
      let d' := d * 2 ^ Z.max q 0 in
      let f0 := n' / d' in
      let r := n' mod d' in
      let f :=
        if (d' <? 2 * r) || ((d' =? 2 * r) && Z.odd f0) then f0 + 1 else f0 in
      if f =? 0 then DZero
      else
        let '(f, q) := if f =? 2 ^ 53 then (2 ^ 52, q + 1) else (f, q) in
        if 971 <? q then DInf negative else DFin negative f q.

(** [10^p <= n / d] *)
Definition pow10_le (p n d : Z) : bool :=
  d * 10 ^ Z.max p 0 <=? n * 10 ^ Z.max (- p) 0.

Fixpoint settle (fuel : nat) (n d p : Z) : Z :=
  match fuel with
  | O => p
  | S k =>
      if negb (pow10_le p n d) then settle k n d (p - 1)
      else if pow10_le (p + 1) n d then settle k n d (p + 1)
      else p
  end.

(** The [p] with [10^p <= n / d < 10^(p+1)]. *)
Definition log10_ratio (n d : Z) : Z :=
  settle 4 n d (log2_ratio n d * 30103 / 100000).

(** The decimal [s * 10^t], if it is read as [target]. *)
Definition candidate (target : double) (negative : bool) (s t : Z)
  : option number :=
  let c := normalize (if negative then - s else s) t in
  if double_eqb (nearest c) target then Some c else None.

(** Number::toString chooses the decimal of fewest digits that is read
    as the double and, among those, the one closest to it: with [k]
    digits these are the multiples of [10^(p+1-k)] on either side of
    [n / d]. *)
Fixpoint fewest_digits (fuel : nat) (k : Z) (target : double)
         (negative : bool) (n d p : Z) : option number :=
  match fuel with
  | O => None
  | S more =>
      let t := p + 1 - k in
      let n' := n * 10 ^ Z.max (- t) 0 in
      let d' := d * 10 ^ Z.max t 0 in
      let s := n' / d' in
      let r := n' mod d' in
      let below_first := (2 * r <? d') || ((2 * r =? d') && Z.even s) in
      let '(c1, c2) := if below_first then (s, s + 1) else (s + 1, s) in
      match candidate target negative c1 t with
      | Some c => Some c
      | None =>
          match candidate target negative c2 t with
          | Some c => Some c
          | None => fewest_digits more (k + 1) target negative n d p
          end
      end
  end.

Definition shortest (x : double) : option number :=
  match x with
  | DFin negative f q =>
      let n := f * 2 ^ Z.max q 0 in
      let d := 2 ^ Z.max (- q) 0 in
      fewest_digits 17 1 x negative n d (log10_ratio n d)
  | _ => None
  end.

(** A decimal as a number of the language. *)
Inductive rounded := Finite (n : number) | Infinite (negative : bool).

(** Seventeen digits identify any double, so [shortest] finds its
    decimal; the literal itself stands in for a failed search. *)
Definition round64 (x : number) : rounded :=
  match nearest x with
  | DZero => Finite zero
  | DInf negative => Infinite negative
  | DFin negative f q =>
      match shortest (DFin negative f q) with
      | Some c => Finite c
      | None => Finite x
      end
  end.

(** A number as arithmetic yields it: the coercions below can produce
    [NaN], reading a literal the infinities. *)
Inductive xnum := NaN | Inf (negative : bool) | Fin (n : number).

Definition xnum_of (r : rounded) : xnum :=
  match r with
  | Finite n => Fin n
  | Infinite negative => Inf negative
  end.

Definition number_ltb (a b : number) : bool :=
  let e := Z.min (expo a) (expo b) in
  mant a * 10 ^ (expo a - e) <? mant b * 10 ^ (expo b - e).

(** [x < y] on numbers; a comparison with [NaN] is false. *)
Definition xnum_ltb (x y : xnum) : bool :=
  match x, y with
  | NaN, _ | _, NaN => false
  | Inf true, Inf true => false
  | Inf true, _ => true
  | _, Inf true => false
  | Inf false, _ => false
  | _, Inf false => true
  | Fin a, Fin b => number_ltb a b
  end.

#[local] Unset Elimination Schemes.
Inductive value :=
| VUndefined
| VNull
| VBool (b : bool)
| VNum (n : number)
| VNegZero
| VInf (negative : bool)
| VStr (s : jstring)
| VArr (items : list value)
| VObj (props : list (jstring * value)).
#[local] Set Elimination Schemes.

(** ToBoolean *)
Definition truthy (v : value) : bool :=
  match v with
  | VUndefined | VNull => false
  | VBool b => b
  | VNum n => negb (mant n =? 0)
  | VNegZero => false
  | VInf _ => true
  | VStr s => match s with [] => false | _ => true end
  | VArr _ | VObj _ => true
  end.

Fixpoint lookup (k : jstring) (props : list (jstring * value)) : option value :=
  match props with
  | [] => None
  | (k', v) :: r => if str_eqb k k' then Some v else lookup k r
  end.

(** [v.name] for the names the program reads ([bodies], [population],
    [coords], [name], [x], [y], [z], [rings], [isLandable],
    [atmosphereType], [length]): none of them is a property of
    [Object.prototype], [Array.prototype], [String.prototype],
    [Number.prototype] or [Boolean.prototype] other than [length], so a
    miss on the own properties is [undefined]. *)
Definition get_prop (v : value) (name : jstring) : result value :=
  match v with
  | VUndefined | VNull => Throw TypeError
  | VBool _ | VNum _ | VNegZero | VInf _ => Ok VUndefined
  | VStr s =>
      if str_eqb name (lit "length") then Ok (VNum (of_nat_number (length s)))
      else Ok VUndefined
  | VArr l =>
      if str_eqb name (lit "length") then Ok (VNum (of_nat_number (length l)))
      else Ok VUndefined
  | VObj props =>
      match lookup name props with
      | Some x => Ok x
      | None => Ok VUndefined
      end
  end.

(** [v[i]] for a loop counter [i]. *)
Definition get_index (v : value) (i : nat) : result value :=
  match v with
  | VUndefined | VNull => Throw TypeError
  | VBool _ | VNum _ | VNegZero | VInf _ => Ok VUndefined
  | VStr s =>
      match nth_error s i with
      | Some c => Ok (VStr [c])
      | None => Ok VUndefined
      end
  | VArr l =>
      match nth_error l i with
      | Some x => Ok x
      | None => Ok VUndefined
      end
  | VObj props =>
      match lookup (nat_text (N.of_nat i)) props with
      | Some x => Ok x
      | None => Ok VUndefined
      end
  end.

(** [v === true] and [v !== null], [v === 0] *)
Definition is_true (v : value) : bool :=
  match v with VBool true => true | _ => false end.

Definition is_null (v : value) : bool :=
  match v with VNull => true | _ => false end.

Definition is_zero (v : value) : bool :=
  match v with
  | VNum n => mant n =? 0
  | VNegZero => true
  | _ => false
  end.

(** Number::toString, radix ten. *)
Definition number_text (x : number) : jstring :=
  let m := mant x in
  if m =? 0 then [48%N]
  else
    let s := nat_text (Z.to_N (Z.abs m)) in
    let k := Z.of_nat (length s) in
    let n := expo x + k in
    let body :=
      if (k <=? n) && (n <=? 21) then s ++ repeat 48%N (Z.to_nat (n - k))
      else if (0 <? n) && (n <=? 21) then
        firstn (Z.to_nat n) s ++ 46%N :: skipn (Z.to_nat n) s
      else if (-6 <? n) && (n <=? 0) then
        48%N :: 46%N :: repeat 48%N (Z.to_nat (- n)) ++ s
      else
        let ex := n - 1 in
        let sign := if ex <? 0 then 45%N else 43%N in
        let tail := 101%N :: sign :: nat_text (Z.to_N (Z.abs ex)) in
        match s with
        | [d] => d :: tail
        | d :: ds => d :: 46%N :: ds ++ tail
        | [] => tail
        end in
    if m <? 0 then 45%N :: body else body.


(** ToString, as [Array.prototype.join] and the numeric coercion of an
    object need it.  A parsed object has no callable property: with an own
    [toString] both conversion methods fail and a [TypeError] is thrown,
    without one [Object.prototype.toString] answers. *)
Fixpoint to_text (v : value) : result jstring :=
  match v with
  | VUndefined => Ok (lit "undefined")
  | VNull => Ok (lit "null")
  | VBool true => Ok (lit "true")
  | VBool false => Ok (lit "false")
  | VNum n => Ok (number_text n)
  | VNegZero => Ok (lit "0")
  | VInf false => Ok (lit "Infinity")
  | VInf true => Ok (lit "-Infinity")
  | VStr s => Ok s
  | VArr l =>
      (fix join (l : list value) : result jstring :=
         match l with
         | [] => Ok []
         | x :: r =>
             rbind (match x with
                    | VUndefined | VNull => Ok []
                    | _ => to_text x
                    end)
               (fun a =>
                  match r with
                  | [] => Ok a
                  | _ => rbind (join r) (fun b => Ok (a ++ 44%N :: b))
                  end)
         end) l
  | VObj props =>
      match lookup (lit "toString") props with
      | Some _ => Throw TypeError
      | None => Ok (lit "[object Object]")
      end
  end.

Fixpoint span_digits (s : jstring) : list N * jstring :=
  match s with
  | c :: r =>
      if is_digit c then
        let '(ds, rest) := span_digits r in (char_digit c :: ds, rest)
      else ([], s)
  | [] => ([], [])
  end.

Definition hex_digit (c : N) : option N :=
  (if is_digit c then Some (c - 48)
   else if (97 <=? c) && (c <=? 102) then Some (c - 87)
   else if (65 <=? c) && (c <=? 70) then Some (c - 55)
   else None)%N.

Fixpoint radix_val (radix : N) (s : jstring) (acc : N) : option N :=
  match s with
  | [] => Some acc
  | c :: r =>
      match hex_digit c with
      | Some d => if (d <? radix)%N then radix_val radix r (radix * acc + d)%N
                  else None
      | None => None
      end
  end.

Definition split_sign (s : jstring) : bool * jstring :=
  match s with
  | c :: r => if (c =? 45)%N then (true, r)
              else if (c =? 43)%N then (false, r) else (false, s)
  | [] => (false, [])
  end.

Definition signed (negative : bool) (n : N) : Z :=
  if negative then - Z.of_N n else Z.of_N n.

(** StrDecimalLiteral, with its sign *)
Definition decimal_literal (t : jstring) : xnum :=
  let '(neg, u) := split_sign t in
  if str_eqb u (lit "Infinity") then Inf neg
  else
    let '(d1, r1) := span_digits u in
    let '(d2, r2) :=
      match r1 with
      | c :: r => if (c =? 46)%N then span_digits r else ([], r1)
      | [] => ([], r1)
      end in
    match d1 ++ d2 with
    | [] => NaN
    | ds =>
        let m := signed neg (digits_val ds) in
        let frac := Z.of_nat (length d2) in
        match r2 with
        | [] => xnum_of (round64 (normalize m (- frac)))
        | c :: r =>
            if (c =? 101)%N || (c =? 69)%N then
              let '(eneg, r3) := split_sign r in
              match span_digits r3 with
              | ((_ :: _) as de, []) =>
                  xnum_of
                    (round64 (normalize m (signed eneg (digits_val de) - frac)))
              | _ => NaN
              end
            else NaN
        end
    end.

Definition radix_literal (radix : N) (digits : jstring) : xnum :=
  match digits with
  | [] => NaN
  | _ => match radix_val radix digits 0 with
         | Some n => xnum_of (round64 (normalize (Z.of_N n) 0))
         | None => NaN
         end
  end.

(** StringToNumber *)
Definition string_to_number (s : jstring) : xnum :=
  match trim s with
  | [] => Fin zero
  | c :: x :: r =>
      if (c =? 48)%N && ((x =? 120)%N || (x =? 88)%N) then radix_literal 16 r
      else if (c =? 48)%N && ((x =? 111)%N || (x =? 79)%N) then radix_literal 8 r
      else if (c =? 48)%N && ((x =? 98)%N || (x =? 66)%N) then radix_literal 2 r
      else decimal_literal (c :: x :: r)
  | t => decimal_literal t
  end.

(** ToNumber *)
Definition to_number (v : value) : result xnum :=
  match v with
  | VUndefined => Ok NaN
  | VNull => Ok (Fin zero)
  | VBool b => Ok (Fin (if b then Num 1 0 else zero))
  | VNum n => Ok (Fin n)
  | VNegZero => Ok (Fin zero)
  | VInf negative => Ok (Inf negative)
  | VStr s => Ok (string_to_number s)
  | VArr _ | VObj _ => rbind (to_text v) (fun t => Ok (string_to_number t))
  end.

(** [i < v] for a loop counter [i], and [v > 0] *)
Definition counter_lt (i : nat) (v : value) : result bool :=
  rbind (to_number v) (fun n => Ok (xnum_ltb (Fin (of_nat_number i)) n)).

Definition positive (v : value) : result bool :=
  rbind (to_number v) (fun n => Ok (xnum_ltb (Fin zero) n)).

End Js.
Export Js.

(** ** [JSON.parse] and [JSON.stringify] *)

Module JSON.

Local Open Scope N_scope.

Definition is_ws (c : N) : bool :=
  (c =? 32) || (c =? 9) || (c =? 10) || (c =? 13).

Fixpoint skip_ws (s : jstring) : jstring :=
  match s with
  | c :: r => if is_ws c then skip_ws r else s
  | [] => []
  end.

(** The next code unit must be [c]. *)
Definition expect (c : N) (s : jstring) : option jstring :=
  match s with
  | x :: r => if x =? c then Some r else None
  | [] => None
  end.

Definition unescape (e : N) : option N :=
  if e =? 34 then Some 34        (* quote *)
  else if e =? 92 then Some 92   (* backslash *)
  else if e =? 47 then Some 47   (* slash *)
  else if e =? 98 then Some 8    (* b *)
  else if e =? 102 then Some 12  (* f *)
  else if e =? 110 then Some 10  (* n *)
  else if e =? 114 then Some 13  (* r *)
  else if e =? 116 then Some 9   (* t *)
  else None.

Definition hex4 (a b c d : N) : option N :=
  match hex_digit a, hex_digit b, hex_digit c, hex_digit d with
  | Some x, Some y, Some z, Some w => Some (((x * 16 + y) * 16 + z) * 16 + w)
  | _, _, _, _ => None
  end.

Definition consume (c : N) (r : option (jstring * jstring))
  : option (jstring * jstring) :=
  match r with
  | Some (str, rest) => Some (c :: str, rest)
  | None => None
  end.

(** The characters of a string literal, after its opening quote. *)
Fixpoint parse_chars (s : jstring) : option (jstring * jstring) :=
  match s with
  | [] => None
  | c :: r =>
      if c =? 34 then Some ([], r)
      else if c =? 92 then
        match r with
        | [] => None
        | e :: r1 =>
            if e =? 117 then
              match r1 with
              | h1 :: h2 :: h3 :: h4 :: r2 =>
                  match hex4 h1 h2 h3 h4 with
                  | Some u => consume u (parse_chars r2)
                  | None => None
                  end
              | _ => None
              end
            else
              match unescape e with
              | Some u => consume u (parse_chars r1)
              | None => None
              end
        end
      else if c <? 32 then None
      else consume c (parse_chars r)
  end.

(** A number literal: [-? int frac? exp?]. *)
Definition read_sign (s : jstring) : bool * jstring :=
  match s with
  | c :: r => if c =? 45 then (true, r) else (false, s)
  | [] => (false, s)
  end.

Definition read_fraction (s : jstring) : option (list N * jstring) :=
  match s with
  | c :: r =>
      if c =? 46 then
        match span_digits r with
        | ([], _) => None
        | (df, rest) => Some (df, rest)
        end
      else Some ([], s)
  | [] => Some ([], s)
  end.

Definition read_exponent (s : jstring) : option (Z * jstring) :=
  match s with
  | c :: r =>
      if (c =? 101) || (c =? 69) then
        let '(negative, r1) := split_sign r in
        match span_digits r1 with
        | ([], _) => None
        | (de, rest) => Some (signed negative (digits_val de), rest)
        end
      else Some (0%Z, s)
  | [] => Some (0%Z, s)
  end.

(** The decimal a literal denotes, and the text after it. *)
Definition read_number (s : jstring) : option (number * jstring) :=
  let '(negative, s1) := read_sign s in
  let '(di, s2) := span_digits s1 in
  match di with
  | [] => None
  | d :: ds =>
      if (d =? 0) && negb (match ds with [] => true | _ => false end) then None
      else
        match read_fraction s2 with
        | None => None
        | Some (df, s3) =>
            match read_exponent s3 with
            | None => None
            | Some (ex, s4) =>
                Some (normalize (signed negative (digits_val (di ++ df)))
                        (ex - Z.of_nat (length df))%Z,
                      s4)
            end
        end
  end.

Definition number_value (negative : bool) (r : rounded) : value :=
  match r with
  | Finite n => if negative && (mant n =? 0)%Z then VNegZero else VNum n
  | Infinite _ => VInf negative
  end.

(** The literal is read as a double: a literal beyond the largest double
    is an infinity, and one with a minus sign that is zero, or too small
    for the doubles, is negative zero. *)
Definition parse_number (s : jstring) : option (value * jstring) :=
  match read_number s with
  | Some (n, rest) => Some (number_value (fst (read_sign s)) (round64 n), rest)
  | None => None
  end.

(** Own property keys are kept in the order the language enumerates them:
    array indices ascending, then the other names in creation order. *)
Definition array_index (k : jstring) : option N :=
  if forallb is_digit k then
    let n := digits_val (map char_digit k) in
    if str_eqb (nat_text n) k && (n <? 4294967295) then Some n else None
  else None.

Definition key_before (a b : jstring) : bool :=
  match array_index a, array_index b with
  | Some i, Some j => i <? j
  | Some _, None => true
  | None, _ => false
  end.

Fixpoint insert_prop (props : list (jstring * value)) (k : jstring) (v : value)
  : list (jstring * value) :=
  match props with
  | [] => [(k, v)]
  | (k', v') :: r =>
      if key_before k k' then (k, v) :: props
      else (k', v') :: insert_prop r k v
  end.

Fixpoint replace_prop (props : list (jstring * value)) (k : jstring) (v : value)
  : list (jstring * value) :=
  match props with
  | [] => []
  | (k', v') :: r =>
      if str_eqb k k' then (k', v) :: r
      else (k', v') :: replace_prop r k v
  end.

(** CreateDataProperty: a repeated key keeps its place and takes the new
    value. *)
Definition set_prop (props : list (jstring * value)) (k : jstring) (v : value)
  : list (jstring * value) :=
  match lookup k props with
  | Some _ => replace_prop props k v
  | None => insert_prop props k v
  end.

Inductive presult (A : Type) : Type :=
| POk (a : A) (rest : jstring)
| PErr
| PFuel.
Arguments POk {A} a rest.
Arguments PErr {A}.
Arguments PFuel {A}.

Definition keyword (w : string) (v : value) (s : jstring) : presult value :=
  let k := lit w in
  if str_eqb (firstn (length k) s) k then POk v (skipn (length k) s) else PErr.

Fixpoint parse_value (fuel : nat) (s : jstring) : presult value :=
  match fuel with
  | O => PFuel
  | S f =>
      match skip_ws s with
      | [] => PErr
      | c :: r =>
          if c =? 123 then
            match expect 125 (skip_ws r) with
            | Some r' => POk (VObj []) r'
            | None => parse_members f r []
            end
          else if c =? 91 then
            match expect 93 (skip_ws r) with
            | Some r' => POk (VArr []) r'
            | None => parse_elements f r []
            end
          else if c =? 34 then
            match parse_chars r with
            | Some (str, r') => POk (VStr str) r'
            | None => PErr
            end
          else if c =? 116 then keyword "true" (VBool true) (c :: r)
          else if c =? 102 then keyword "false" (VBool false) (c :: r)
          else if c =? 110 then keyword "null" VNull (c :: r)
          else
            match parse_number (c :: r) with
            | Some (v, r') => POk v r'
            | None => PErr
            end
      end
  end

with parse_elements (fuel : nat) (s : jstring) (acc : list value)
  : presult value :=
  match fuel with
  | O => PFuel
  | S f =>
      match parse_value f s with
      | POk v r =>
          match skip_ws r with
          | c :: r' =>
              if c =? 44 then parse_elements f r' (v :: acc)
              else if c =? 93 then POk (VArr (rev (v :: acc))) r'
              else PErr
          | [] => PErr
          end
      | PErr => PErr
      | PFuel => PFuel
      end
  end

with parse_members (fuel : nat) (s : jstring) (acc : list (jstring * value))
  : presult value :=
  match fuel with
  | O => PFuel
  | S f =>
      match expect 34 (skip_ws s) with
      | None => PErr
      | Some r =>
          match parse_chars r with
          | None => PErr
          | Some (k, r1) =>
              match expect 58 (skip_ws r1) with
              | None => PErr
              | Some r2 =>
                  match parse_value f r2 with
                  | POk v r3 =>
                      match skip_ws r3 with
                      | c :: r4 =>
                          if c =? 44 then parse_members f r4 (set_prop acc k v)
                          else if c =? 125 then POk (VObj (set_prop acc k v)) r4
                          else PErr
                      | [] => PErr
                      end
                  | PErr => PErr
                  | PFuel => PFuel
                  end
              end
          end
      end
  end.

Definition parse_fuel (s : jstring) : nat := 2 * length s + 2.

(** [JSON.parse(text)]: [None] is the [SyntaxError]. *)
Definition parse (s : jstring) : option value :=
  match parse_value (parse_fuel s) s with
  | POk v rest => match skip_ws rest with [] => Some v | _ => None end
  | _ => None
  end.

Definition hex_char (d : N) : N := if d <? 10 then 48 + d else 87 + d.

Definition unicode_escape (c : N) : jstring :=
  [92; 117; hex_char (c / 4096 mod 16); hex_char (c / 256 mod 16);
   hex_char (c / 16 mod 16); hex_char (c mod 16)].

Definition is_high (c : N) : bool := (55296 <=? c) && (c <=? 56319).
Definition is_low (c : N) : bool := (56320 <=? c) && (c <=? 57343).

Definition escape_unit (c : N) : jstring :=
  if c =? 8 then [92; 98]
  else if c =? 9 then [92; 116]
  else if c =? 10 then [92; 110]
  else if c =? 12 then [92; 102]
  else if c =? 13 then [92; 114]
  else if c =? 34 then [92; 34]
  else if c =? 92 then [92; 92]
  else if c <? 32 then unicode_escape c
  else [c].

(** QuoteJSONString, without the quotes: a surrogate pair passes, a lone
    surrogate is written as an escape. *)
Fixpoint escape (s : jstring) : jstring :=
  match s with
  | [] => []
  | c :: r =>
      if is_high c then
        match r with
        | lo :: r' =>
            if is_low lo then c :: lo :: escape r'
            else unicode_escape c ++ escape r
        | [] => unicode_escape c
        end
      else if is_low c then unicode_escape c ++ escape r
      else escape_unit c ++ escape r
  end.

Definition quote (s : jstring) : jstring := 34 :: escape s ++ [34].

(** SerializeJSONProperty without gap or replacer.  [undefined] is [null]
    as an array element and omitted as a property value; an infinity is
    [null], and negative zero is [0]. *)
Fixpoint serialize (v : value) : jstring :=
  match v with
  | VUndefined | VNull | VInf _ => lit "null"
  | VBool true => lit "true"
  | VBool false => lit "false"
  | VNum n => number_text n
  | VNegZero => lit "0"
  | VStr s => quote s
  | VArr l =>
      91 :: (fix items (l : list value) (first : bool) : jstring :=
               match l with
               | [] => [93]
               | x :: r =>
                   (if first then [] else [44]) ++ serialize x ++ items r false
               end) l true
  | VObj props =>
      123 :: (fix members (ps : list (jstring * value)) (first : bool)
                : jstring :=
                match ps with
                | [] => [125]
                | (k, x) :: r =>
                    match x with
                    | VUndefined => members r first
                    | _ => (if first then [] else [44]) ++ quote k
                           ++ 58 :: serialize x ++ members r false
                    end
                end) props true
  end.

(** [JSON.stringify(v)] *)
Definition stringify (v : value) : value :=
  match v with
  | VUndefined => VUndefined
  | _ => VStr (serialize v)
  end.

End JSON.

(** ** The store, the console and the state of [processFile] *)

Local Open Scope Z_scope.

(** The seven values bound by [insertStmt.run], in column order. *)
Record Row := {
  system_name : value;
  x : value;
  y : value;
  z : value;
  matched_body_name : value;
  matched_body : value;
  system_data : value
}.

(** The [systems] table as the connection sees it: the rows made durable
    by a commit (or written outside a transaction), and the rows of the
    open transaction, if there is one. *)
Record store := {
  durable : list Row;
  txn : option (list Row)
}.

(** What one [console.log] of a progress line shows. *)
Record message := {
  final : bool;
  shown_processed : Z;
  shown_checked : Z;
  shown_rate : float
}.

(** [processed / totalChecked * 100] on binary64. *)
Definition match_rate (processed totalChecked : Z) : float :=
  (of_uint63 (Uint63.of_Z processed) / of_uint63 (Uint63.of_Z totalChecked)
   * 100)%float.

Definition fixed3_digits (n : N) : jstring :=
  let ds := digits_of n in
  let padded := repeat 0%N (4 - length ds) ++ ds in
  let k := (length padded - 3)%nat in
  map digit_char (firstn k padded) ++ 46%N :: map digit_char (skipn k padded).

(** [x.toFixed(3)].  At [1e21] and above the method falls back to
    Number::toString on a double, which is not modelled: [None]. *)
Definition toFixed3 (x : float) : option jstring :=
  match Prim2SF x with
  | S754_nan => Some (lit "NaN")
  | S754_infinity false => Some (lit "Infinity")
  | S754_infinity true => Some (lit "-Infinity")
  | S754_zero _ => Some (lit "0.000")
  | S754_finite negative m e =>
      let num := Zpos m * 2 ^ Z.max e 0 in
      let den := 2 ^ Z.max (- e) 0 in
      if 10 ^ 21 * den <=? num then None
      else
        let n := (2000 * num + den) / (2 * den) in
        Some ((if negative then [45%N] else []) ++ fixed3_digits (Z.to_N n))
  end.

Definition render (m : message) : option jstring :=
  match toFixed3 (shown_rate m) with
  | None => None
  | Some r =>
      Some ((if final m then lit "Final - Total processed: "
             else lit "Committed batch - Processed: ")
            ++ int_text (shown_processed m)
            ++ (if final m then lit ", Total checked: " else lit ", Checked: ")
            ++ int_text (shown_checked m)
            ++ lit ", Match rate: " ++ r ++ lit "%")
  end.

(** The variables of [processFile], the database and the console. *)
Record state := {
  buffer : jstring;
  insideArray : bool;
  processed : Z;
  batchCount : Z;
  totalChecked : Z;
  db : store;
  console : list message
}.

Definition with_buffer (b : jstring) (st : state) : state :=
  {| buffer := b; insideArray := insideArray st; processed := processed st;
     batchCount := batchCount st; totalChecked := totalChecked st;
     db := db st; console := console st |}.

Definition with_insideArray (b : bool) (st : state) : state :=
  {| buffer := buffer st; insideArray := b; processed := processed st;
     batchCount := batchCount st; totalChecked := totalChecked st;
     db := db st; console := console st |}.

Definition with_processed (n : Z) (st : state) : state :=
  {| buffer := buffer st; insideArray := insideArray st; processed := n;
     batchCount := batchCount st; totalChecked := totalChecked st;
     db := db st; console := console st |}.

Definition with_batchCount (n : Z) (st : state) : state :=
  {| buffer := buffer st; insideArray := insideArray st;
     processed := processed st; batchCount := n;
     totalChecked := totalChecked st; db := db st; console := console st |}.

Definition with_totalChecked (n : Z) (st : state) : state :=
  {| buffer := buffer st; insideArray := insideArray st;
     processed := processed st; batchCount := batchCount st;
     totalChecked := n; db := db st; console := console st |}.

Definition with_db (d : store) (st : state) : state :=
  {| buffer := buffer st; insideArray := insideArray st;
     processed := processed st; batchCount := batchCount st;
     totalChecked := totalChecked st; db := d; console := console st |}.

Definition with_console (c : list message) (st : state) : state :=
  {| buffer := buffer st; insideArray := insideArray st;
     processed := processed st; batchCount := batchCount st;
     totalChecked := totalChecked st; db := db st; console := c |}.

(** ** Statements: state and exceptions *)

(** How a statement ends: normally, by a thrown exception, or, for the
    model only, with the iteration bound of a loop used up. *)
Inductive outcome (A : Type) : Type :=
| Done (a : A)
| Raised (e : exn)
| NoFuel.
Arguments Done {A} a.
Arguments Raised {A} e.
Arguments NoFuel {A}.

Definition M (A : Type) : Type := state -> outcome A * state.

Definition ret {A} (a : A) : M A := fun st => (Done a, st).

Definition bind {A B} (m : M A) (k : A -> M B) : M B :=
  fun st =>
    match m st with
    | (Done a, st') => k a st'
    | (Raised e, st') => (Raised e, st')
    | (NoFuel, st') => (NoFuel, st')
    end.

Definition throw {A} (e : exn) : M A := fun st => (Raised e, st).

(** An expression without side effects, evaluated in a statement. *)
Definition eval {A} (r : result A) : M A :=
  fun st => match r with Ok a => (Done a, st) | Throw e => (Raised e, st) end.

Definition update (f : state -> state) : M unit := fun st => (Done tt, f st).

Definition read {A} (f : state -> A) : M A := fun st => (Done (f st), st).

Declare Scope stmt_scope.
Delimit Scope stmt_scope with stmt.
Notation "x <- m ;; k" := (bind m (fun x => k))
  (at level 61, m at next level, right associativity) : stmt_scope.
Notation "m ;; k" := (bind m (fun _ => k))
  (at level 61, right associativity) : stmt_scope.
Local Open Scope stmt_scope.

(** [db.run("BEGIN TRANSACTION")]: an error inside a transaction. *)
Definition db_begin : M unit :=
  fun st =>
    match txn (db st) with
    | Some _ => (Raised SqliteError, st)
    | None => (Done tt, with_db {| durable := durable (db st); txn := Some [] |} st)
    end.

(** [db.run("COMMIT")]: an error outside a transaction. *)
Definition db_commit : M unit :=
  fun st =>
    match txn (db st) with
    | Some rows =>
        (Done tt,
         with_db {| durable := durable (db st) ++ rows; txn := None |} st)
    | None => (Raised SqliteError, st)
    end.

(** A value the driver binds to a parameter: a string, a number, a
    boolean, [null] or [undefined]. *)
Definition bindable (v : value) : bool :=
  match v with
  | VArr _ | VObj _ => false
  | _ => true
  end.

(** No parameter bound: every column NULL. *)
Definition unbound_row : Row :=
  {| system_name := VNull; x := VNull; y := VNull; z := VNull;
     matched_body_name := VNull; matched_body := VNull;
     system_data := VNull |}.

(** The parameters [Statement.run] of bun:sqlite binds for the seven
    arguments of lines 87-93.  A first argument that is an array or an
    object is handed to the driver as the bindings themselves, and the
    other six arguments are dropped: an empty array binds nothing, an
    array of another length than the seven parameters is an error, and an
    object binds by name, which no parameter of this statement has.  Any
    other first argument makes the seven arguments the bindings.  A
    binding that is an array or an object is a [TypeError]. *)
Definition bound (args : Row) : result Row :=
  match system_name args with
  | VArr [] => Ok unbound_row
  | VArr [a; b; c; d; e; f; g] =>
      if forallb bindable [a; b; c; d; e; f; g] then
        Ok {| system_name := a; x := b; y := c; z := d;
              matched_body_name := e; matched_body := f; system_data := g |}
      else Throw TypeError
  | VArr _ => Throw SqliteError
  | VObj _ => Ok unbound_row
  | _ =>
      if forallb bindable
           [x args; y args; z args; matched_body_name args;
            matched_body args; system_data args]
      then Ok args
      else Throw TypeError
  end.

(** The step of the prepared INSERT with its parameters bound to [r]:
    into the open transaction, or straight into the table when there is
    none. *)
Definition store_row (r : Row) : M unit :=
  update (fun st =>
    match txn (db st) with
    | Some rows =>
        with_db {| durable := durable (db st); txn := Some (rows ++ [r]) |} st
    | None =>
        with_db {| durable := durable (db st) ++ [r]; txn := None |} st
    end).

(** [insertStmt.run(...)]: the arguments are bound, which can throw, and
    the statement is stepped. *)
Definition insertStmt_run (args : Row) : M unit :=
  r <- eval (bound args) ;;
  store_row r.

Definition console_log (is_final : bool) : M unit :=
  update (fun st =>
    with_console
      (console st ++
       [{| final := is_final;
           shown_processed := processed st;
           shown_checked := totalChecked st;
           shown_rate := match_rate (processed st) (totalChecked st) |}])
      st).

(** ** [processFile] *)

Local Notation "r >>= k" := (rbind r k) (at level 50, left associativity).

(** Lines 81-83: [body.rings && body.rings.length > 0 &&
    body.isLandable === true && body.atmosphereType &&
    body.atmosphereType !== null], left to right with short circuit. *)
Definition qualifies (body : value) : result bool :=
  get_prop body (lit "rings") >>= fun rings =>
  if negb (truthy rings) then Ok false
  else
    get_prop body (lit "rings") >>= fun rings' =>
    get_prop rings' (lit "length") >>= fun len =>
    positive len >>= fun some_ring =>
    if negb some_ring then Ok false
    else
      get_prop body (lit "isLandable") >>= fun landable =>
      if negb (is_true landable) then Ok false
      else
        get_prop body (lit "atmosphereType") >>= fun atmosphere =>
        if negb (truthy atmosphere) then Ok false
        else
          get_prop body (lit "atmosphereType") >>= fun atmosphere' =>
          Ok (negb (is_null atmosphere')).

(** Lines 86-94: the arguments of [insertStmt.run], in order. *)
Definition row_of (obj body : value) : result Row :=
  get_prop obj (lit "name") >>= fun name =>
  get_prop obj (lit "coords") >>= fun cx =>
  get_prop cx (lit "x") >>= fun vx =>
  get_prop obj (lit "coords") >>= fun cy =>
  get_prop cy (lit "y") >>= fun vy =>
  get_prop obj (lit "coords") >>= fun cz =>
  get_prop cz (lit "z") >>= fun vz =>
  get_prop body (lit "name") >>= fun body_name =>
  Ok {| system_name := name; x := vx; y := vy; z := vz;
        matched_body_name := body_name;
        matched_body := JSON.stringify body;
        system_data := JSON.stringify obj |}.

(** Lines 96-110: the bookkeeping after an insert. *)
Definition after_insert : M unit :=
  update (fun st => with_processed (processed st + 1) st) ;;
  update (fun st => with_batchCount (batchCount st + 1) st) ;;
  count <- read batchCount ;;
  (if 500 <=? count then
     db_commit ;; db_begin ;; update (with_batchCount 0)
   else ret tt) ;;
  done <- read processed ;;
  if done mod 500 =? 0 then console_log false else ret tt.

(** Lines 77-112: [for (let i = 0; i < obj.bodies.length && !foundMatch;
    i++)], one unfolding of the loop per unit of [fuel]. *)
Fixpoint scan (fuel : nat) (obj : value) (i : nat) (foundMatch : bool)
  : M unit :=
  match fuel with
  | O => fun st => (NoFuel, st)
  | S f =>
      bodies <- eval (get_prop obj (lit "bodies")) ;;
      len <- eval (get_prop bodies (lit "length")) ;;
      more <- eval (counter_lt i len) ;;
      if more && negb foundMatch then
        bodies' <- eval (get_prop obj (lit "bodies")) ;;
        body <- eval (get_index bodies' i) ;;
        hit <- eval (qualifies body) ;;
        if hit then
          args <- eval (row_of obj body) ;;
          insertStmt_run args ;;
          after_insert ;;
          scan f obj (S i) true
        else scan f obj (S i) foundMatch
      else ret tt
  end.

(** Enough unfoldings for any value of [obj.bodies]. *)
Definition scan_fuel (obj : value) : nat :=
  match get_prop obj (lit "bodies") with
  | Ok (VArr l) => length l + 2
  | Ok (VStr s) => length s + 2
  | Ok (VObj props) => length props + 2
  | _ => 2
  end.

(** Lines 68-112: the body of the [try]. *)
Definition try_block : M unit :=
  text <- read buffer ;;
  match JSON.parse text with
  | None => throw SyntaxError
  | Some obj =>
      update (with_buffer []) ;;
      update (fun st => with_totalChecked (totalChecked st + 1) st) ;;
      bodies <- eval (get_prop obj (lit "bodies")) ;;
      if negb (truthy bodies) then ret tt
      else
        population <- eval (get_prop obj (lit "population")) ;;
        if negb (is_zero population) then ret tt
        else
          coords <- eval (get_prop obj (lit "coords")) ;;
          if negb (truthy coords) then ret tt
          else scan (scan_fuel obj) obj 0 false
  end.

(** Lines 113-116: the [catch]. *)
Definition catch_block : M unit :=
  text <- read buffer ;;
  match text with
  | [] => ret tt
  | _ => update (with_buffer (text ++ lit " "))
  end.

Inductive flow := Continue | Break.

(** Lines 59-116: the body of the [for await] loop for one line. *)
Definition loop_body (line : jstring) : M flow :=
  fun st =>
    let trimmed := trim line in
    if str_eqb trimmed (lit "[") then (Done Continue, with_insideArray true st)
    else if str_eqb trimmed (lit "]") then (Done Break, st)
    else if negb (insideArray st) then (Done Continue, st)
    else
      let st1 := with_buffer (buffer st ++ strip_comma trimmed) st in
      match try_block st1 with
      | (Done _, st2) => (Done Continue, st2)
      | (Raised _, st2) =>
          match catch_block st2 with
          | (Done _, st3) => (Done Continue, st3)
          | (Raised e, st3) => (Raised e, st3)
          | (NoFuel, st3) => (NoFuel, st3)
          end
      | (NoFuel, st2) => (NoFuel, st2)
      end.

(** Lines 58-117: [for await (const line of rl)]. *)
Fixpoint for_lines (lines : list jstring) : M unit :=
  match lines with
  | [] => ret tt
  | line :: rest =>
      f <- loop_body line ;;
      match f with
      | Continue => for_lines rest
      | Break => ret tt
      end
  end.

(** The state at line 55, on a table that already holds [existing]. *)
Definition initial (existing : list Row) : state :=
  {| buffer := []; insideArray := false; processed := 0; batchCount := 0;
     totalChecked := 0; db := {| durable := existing; txn := None |};
     console := [] |}.

(** [processFile()] on the lines of [galaxy_1month.json].  [ANALYZE] and
    [db.close()] change no row and are left out. *)
Definition processFile (existing : list Row) (lines : list jstring)
  : outcome unit * state :=
  (db_begin ;; for_lines lines ;; db_commit ;; console_log true)
    (initial existing).

(** ** The components of the pipeline, one at a time

    [processFile] is one loop; the statements below are made against
    these descriptions of its parts. *)

(** The Object Reassembler alone: the records it decodes, in order. *)
Definition grow (buf line : jstring) : jstring :=
  buf ++ strip_comma (trim line).

Definition keep (buf : jstring) : jstring :=
  match buf with
  | [] => []
  | _ => buf ++ lit " "
  end.

Fixpoint records_from (inside : bool) (buf : jstring) (lines : list jstring)
  : list value :=
  match lines with
  | [] => []
  | line :: rest =>
      if str_eqb (trim line) (lit "[") then records_from true buf rest
      else if str_eqb (trim line) (lit "]") then []
      else if negb inside then records_from inside buf rest
      else
        match JSON.parse (grow buf line) with
        | Some obj => obj :: records_from inside [] rest
        | None => records_from inside (keep (grow buf line)) rest
        end
  end.

Definition records (lines : list jstring) : list value :=
  records_from false [] lines.

(** The Match Predicate alone.  Line 73: the three first-level tests. *)
Definition first_level (obj : value) : result bool :=
  get_prop obj (lit "bodies") >>= fun bodies =>
  if negb (truthy bodies) then Ok false
  else
    get_prop obj (lit "population") >>= fun population =>
    if negb (is_zero population) then Ok false
    else
      get_prop obj (lit "coords") >>= fun coords =>
      Ok (truthy coords).

(** The loop test and lines 78-83 at index [i]: [None] when the loop
    ends there, else the entry and whether it qualifies. *)
Definition probe (obj : value) (i : nat) : result (option (value * bool)) :=
  get_prop obj (lit "bodies") >>= fun bodies =>
  get_prop bodies (lit "length") >>= fun len =>
  counter_lt i len >>= fun more =>
  if more then
    get_index bodies i >>= fun body =>
    qualifies body >>= fun hit =>
    Ok (Some (body, hit))
  else Ok None.

(** The first entry that qualifies, going through [indices]; an exception
    on the way ends the search without a match. *)
Fixpoint search (obj : value) (indices : list nat) : option value :=
  match indices with
  | [] => None
  | i :: rest =>
      match probe obj i with
      | Ok (Some (body, true)) => Some body
      | Ok (Some (_, false)) => search obj rest
      | _ => None
      end
  end.

(** The matched body of a record, if the record is matched. *)
Definition match_predicate (obj : value) : option value :=
  match first_level obj with
  | Ok true => search obj (seq 0 (scan_fuel obj))
  | _ => None
  end.

(** The row a record contributes to the table: one, or none when it is
    not matched or the insert throws. *)
Definition row_for (obj : value) : list Row :=
  match match_predicate obj with
  | Some body =>
      match row_of obj body >>= bound with
      | Ok row => [row]
      | Throw _ => []
      end
  | None => []
  end.

Definition persisted_rows (lines : list jstring) : list Row :=
  flat_map row_for (records lines).

(** The Batched Writer alone: the store and the counters after one row. *)
Definition write (row : Row) (st : state) : state :=
  snd ((store_row row ;; after_insert) st).

(** A column that SQLite stores as NULL. *)
Definition nullish (v : value) : bool :=
  match v with
  | VUndefined | VNull => true
  | _ => false
  end.

(** Rows written so far that a commit has made durable: whole batches. *)
Definition committed_count (n : nat) : nat := 500 * (n / 500).

(** The store and the counters after the rows [rows] were written on top
    of [existing]: whole batches of 500 are durable, the rest sits in the
    open transaction. *)
Definition Batched (existing rows : list Row) (st : state) : Prop :=
  txn (db st) = Some (skipn (committed_count (length rows)) rows)
  /\ durable (db st) = existing ++ firstn (committed_count (length rows)) rows
  /\ batchCount st = Z.of_nat (length rows - committed_count (length rows))
  /\ processed st = Z.of_nat (length rows).

(** The state after one decoded record: lines 69-70, then the row of the
    record if it has one. *)
Definition absorb (obj : value) (st : state) : state :=
  fold_left (fun s r => write r s) (row_for obj)
    (with_totalChecked (totalChecked st + 1) (with_buffer [] st)).

(** The state when the loop is left, before the final commit. *)
Definition at_loop_exit (existing : list Row) (lines : list jstring) : state :=
  snd ((db_begin ;; for_lines lines) (initial existing)).

(** The state at the end of [processFile]. *)
Definition at_end (existing : list Row) (lines : list jstring) : state :=
  snd (processFile existing lines).

(** ** The statements of the specification, in the terms above *)

Definition is_matched (obj : value) : bool :=
  match match_predicate obj with
  | Some _ => true
  | None => false
  end.

(** [body] is entry [i] of the body list, it qualifies, and every entry
    before it was read and did not. *)
Definition first_qualifying (obj : value) (i : nat) (body : value) : Prop :=
  probe obj i = Ok (Some (body, true))
  /\ forall j, (j < i)%nat -> exists b, probe obj j = Ok (Some (b, false)).

(** Entry [i] of the body list is [body]: the loop reaches index [i] and
    reads [body] there. *)
Definition entry (obj : value) (i : nat) (body : value) : Prop :=
  exists bodies len,
    get_prop obj (lit "bodies") = Ok bodies
    /\ get_prop bodies (lit "length") = Ok len
    /\ counter_lt i len = Ok true
    /\ get_index bodies i = Ok body.

(** The three tests on a body; the third as the specification words it
    ("a non-null atmosphere type") or as line 83 tests it. *)
Definition has_ring (body : value) : Prop :=
  exists rings len,
    get_prop body (lit "rings") = Ok rings /\ truthy rings = true
    /\ get_prop rings (lit "length") = Ok len /\ positive len = Ok true.

Definition landable (body : value) : Prop :=
  get_prop body (lit "isLandable") = Ok (VBool true).

Definition atmosphere_non_null (body : value) : Prop :=
  exists a, get_prop body (lit "atmosphereType") = Ok a /\ nullish a = false.

Definition atmosphere_truthy (body : value) : Prop :=
  exists a, get_prop body (lit "atmosphereType") = Ok a /\ truthy a = true.

(** The Match Predicate as the specification states it. *)
Definition claimed_match (obj : value) : Prop :=
  first_level obj = Ok true
  /\ exists i body,
       entry obj i body
       /\ has_ring body /\ landable body /\ atmosphere_non_null body.

(** All three coordinate columns NULL, or none of them. *)
Definition all_or_none (r : Row) : bool :=
  (nullish (x r) && nullish (y r) && nullish (z r))
  || (negb (nullish (x r)) && negb (nullish (y r)) && negb (nullish (z r))).

(** The rows a run added to the table. *)
Definition added (existing : list Row) (lines : list jstring) : list Row :=
  skipn (length existing) (durable (db (at_end existing lines))).

(** ** Values that [JSON.parse] can return *)

(** A number in normal form. *)
Definition normal (n : number) : Prop :=
  (mant n = 0 /\ expo n = 0) \/ mant n mod 10 <> 0.

(** Keys in enumeration order: no key is repeated, and no key stands
    after one it should come before. *)
Fixpoint key_order (ks : list jstring) : Prop :=
  match ks with
  | [] => True
  | k :: rest =>
      ~ In k rest
      /\ (forall k', In k' rest -> JSON.key_before k' k = false)
      /\ key_order rest
  end.

(** A decimal that is the number it is read as. *)
Definition canonical (n : number) : Prop := round64 n = Finite n.

(** No [undefined] inside, decimals as Number::toString prints them,
    properties in enumeration order. *)
Fixpoint well_formed (v : value) : Prop :=
  match v with
  | VUndefined => False
  | VNull | VBool _ | VNegZero | VInf _ | VStr _ => True
  | VNum n => normal n /\ canonical n
  | VArr l =>
      (fix all (l : list value) : Prop :=
         match l with
         | [] => True
         | x :: r => well_formed x /\ all r
         end) l
  | VObj props =>
      key_order (map fst props)
      /\ (fix all (ps : list (jstring * value)) : Prop :=
            match ps with
            | [] => True
            | (_, x) :: r => well_formed x /\ all r
            end) props
  end.

(** No infinity and no negative zero inside: the numbers that JSON text
    does not give back. *)
Fixpoint plain (v : value) : bool :=
  match v with
  | VNegZero | VInf _ => false
  | VArr l =>
      (fix all (l : list value) : bool :=
         match l with
         | [] => true
         | x :: r => plain x && all r
         end) l
  | VObj props =>
      (fix all (ps : list (jstring * value)) : bool :=
         match ps with
         | [] => true
         | (_, x) :: r => plain x && all r
         end) props
  | _ => true
  end.

(** The text of the elements of an array after its opening bracket, and
    of the members of an object after its opening brace, as [serialize]
    writes them. *)
Fixpoint items_text (l : list value) (first : bool) : jstring :=
  match l with
  | [] => [93%N]
  | x :: r =>
      (if first then [] else [44%N]) ++ JSON.serialize x ++ items_text r false
  end.

Fixpoint members_text (ps : list (jstring * value)) (first : bool) : jstring :=
  match ps with
  | [] => [125%N]
  | (k, x) :: r =>
      match x with
      | VUndefined => members_text r first
      | _ => (if first then [] else [44%N]) ++ JSON.quote k
             ++ 58%N :: JSON.serialize x ++ members_text r false
      end
  end.

(** What may follow the text of a value: nothing, or a code unit that does
    not continue a number. *)
Definition stops (rest : jstring) : Prop :=
  match rest with
  | [] => True
  | c :: _ => is_digit c = false /\ c <> 46%N /\ c <> 101%N /\ c <> 69%N
  end.

(** ** Notions used in the proofs about JSON text *)

(** Induction on values, through the lists inside them. *)
Unset Implicit Arguments.

Section ValueInduction.

Variable P : value -> Prop.
Hypothesis Hundefined : P VUndefined.
Hypothesis Hnull : P VNull.
Hypothesis Hbool : forall b, P (VBool b).
Hypothesis Hnum : forall n, P (VNum n).
Hypothesis Hnegzero : P VNegZero.
Hypothesis Hinf : forall negative, P (VInf negative).
Hypothesis Hstr : forall s, P (VStr s).
Hypothesis Harr : forall l, Forall P l -> P (VArr l).
Hypothesis Hobj :
  forall props, Forall (fun kv => P (snd kv)) props -> P (VObj props).

Fixpoint value_induction (v : value) : P v :=
  match v with
  | VUndefined => Hundefined
  | VNull => Hnull
  | VBool b => Hbool b
  | VNum n => Hnum n
  | VNegZero => Hnegzero
  | VInf negative => Hinf negative
  | VStr s => Hstr s
  | VArr l =>
      Harr l ((fix go (l : list value) : Forall P l :=
               match l with
               | [] => Forall_nil P
               | x :: r => Forall_cons x (value_induction x) (go r)
               end) l)
  | VObj props =>
      Hobj props ((fix go (ps : list (jstring * value))
               : Forall (fun kv => P (snd kv)) ps :=
               match ps with
               | [] => Forall_nil _
               | kv :: r =>
                   Forall_cons kv (value_induction (snd kv)) (go r)
               end) props)
  end.

End ValueInduction.

Set Implicit Arguments.

(** A list of decimal digits. *)
Definition digit_list (ds : list N) : Prop := Forall (fun d => (d < 10)%N) ds.

(** Text that does not start with a digit. *)
Definition no_digit (rest : jstring) : Prop :=
  match rest with
  | [] => True
  | c :: _ => is_digit c = false
  end.

(** The text of a number literal, part by part. *)
Definition exponent_text (ex : option Z) : jstring :=
  match ex with
  | None => []
  | Some z =>
      101%N :: (if z <? 0 then 45%N else 43%N) :: nat_text (Z.to_N (Z.abs z))
  end.

Definition fraction_text (df : list N) : jstring :=
  match df with
  | [] => []
  | _ => 46%N :: map digit_char df
  end.

Definition token (negative : bool) (di df : list N) (ex : option Z) : jstring :=
  (if negative then [45%N] else [])
  ++ map digit_char di ++ fraction_text df ++ exponent_text ex.

(** The first code unit of the text of a value. *)
Definition opens_value (c : N) : Prop :=
  JSON.is_ws c = false /\ c <> 93%N /\ c <> 125%N.

(** What the round trip says of one value. *)
Definition reads_back (v : value) : Prop :=
  well_formed v -> plain v = true ->
  forall (fuel : nat) (rest : jstring),
    (2 * length (JSON.serialize v) < fuel)%nat ->
    stops rest ->
    JSON.parse_value fuel (JSON.serialize v ++ rest) = JSON.POk v rest.

(** The properties [ps] created one after the other on top of [acc]. *)
Definition set_all (acc ps : list (jstring * value)) : list (jstring * value) :=
  fold_left (fun a kv => JSON.set_prop a (fst kv) (snd kv)) ps acc.

(** Properties whose values are all well formed. *)
Definition values_ok (ps : list (jstring * value)) : Prop :=
  Forall (fun kv => well_formed (snd kv)) ps.

(** With the result, how a parse ended: short of the input, or in error;
    never out of iterations. *)
Definition consumed (s : jstring) (p : JSON.presult value) : Prop :=
  match p with
  | JSON.POk _ r => (length r < length s)%nat
  | JSON.PErr => True
  | JSON.PFuel => False
  end.

(** ** Inputs used in the examples *)

(** A record whose only body has rings, is landable, and has the empty
    string as atmosphere type. *)
Definition empty_atmosphere_text : jstring :=
  json_text "{'name':'S','population':0,'coords':{'x':1,'y':2,'z':3},'bodies':[{'name':'B','rings':[{'name':'R'}],'isLandable':true,'atmosphereType':''}]}".

(** A file whose one record qualifies and has only [x] in its [coords]. *)
Definition partial_coords_file : list jstring :=
  [lit "[";
   json_text "{'name':'S','population':0,'coords':{'x':1},'bodies':[{'name':'B','rings':[{'name':'R'}],'isLandable':true,'atmosphereType':'Thin'}]}";
   lit "]"].

(** The second scenario of the specification's section 8, with the
    array-close token also in front of the array. *)
Definition sol_text : jstring :=
  json_text "{'name':'Sol','population':0,'coords':{'x':0,'y':0,'z':0},'bodies':[{'name':'A','rings':[],'isLandable':true,'atmosphereType':'Thin'},{'name':'B','rings':[{'name':'R1'}],'isLandable':true,'atmosphereType':'Thick'}]},".

Definition close_first_file : list jstring :=
  [lit "]"; lit "["; sol_text; lit "]"].

(** One record on one line, and the same record broken after the comma
    between its two members. *)
Definition unsplit_file : list jstring :=
  [lit "["; json_text "{'name':'Sol','population':0}"; lit "]"].

Definition split_file : list jstring :=
  [lit "["; json_text "{'name':'Sol',"; json_text "'population':0}"; lit "]"].

(** A record laid out with the closing bracket of its (empty) body list
    on a line of its own. *)
Definition bracket_file : list jstring :=
  [lit "["; json_text "{'name':'Sol','bodies':["; lit "]"; lit "}"; lit "]"].

(** The first scenario of the specification's section 8. *)
Definition sol_file : list jstring := [lit "["; sol_text; lit "]"].

(** A record with two qualifying bodies. *)
Definition twin_file : list jstring :=
  [lit "[";
   json_text "{'name':'T','population':0,'coords':{'x':1,'y':2,'z':3},'bodies':[{'name':'P','rings':[{}],'isLandable':true,'atmosphereType':'Thin'},{'name':'Q','rings':[{}],'isLandable':true,'atmosphereType':'Thick'}]}";
   lit "]"].

(** Two matching records; the second has an object as [coords.x]. *)
Definition unbindable_file : list jstring :=
  [lit "[";
   json_text "{'name':'A','population':0,'coords':{'x':1,'y':2,'z':3},'bodies':[{'name':'P','rings':[{}],'isLandable':true,'atmosphereType':'Thin'}]},";
   json_text "{'name':'B','population':0,'coords':{'x':{},'y':2,'z':3},'bodies':[{'name':'Q','rings':[{}],'isLandable':true,'atmosphereType':'Thin'}]}";
   lit "]"].

(** A matching record whose [name] is an array of seven values, and one
    whose [name] is an object. *)
Definition array_name_file : list jstring :=
  [lit "[";
   json_text "{'name':['a',9,8,7,'b','c','d'],'population':0,'coords':{'x':1,'y':2,'z':3},'bodies':[{'name':'P','rings':[{}],'isLandable':true,'atmosphereType':'Thin'}]}";
   lit "]"].

Definition object_name_file : list jstring :=
  [lit "[";
   json_text "{'name':{'first':'S'},'population':0,'coords':{'x':1,'y':2,'z':3},'bodies':[{'name':'P','rings':[{}],'isLandable':true,'atmosphereType':'Thin'}]}";
   lit "]"].


(** A file with no element. *)
Definition empty_file : list jstring := [lit "["; lit "]"].




(** ** Further notions about [processFile] *)

(** A string of white space only. *)
Definition blank (s : jstring) : Prop := Forall (fun c => is_space c = true) s.

(** [line'] is [line] with white space added at its ends. *)
Definition padded (line line' : jstring) : Prop :=
  exists pre post, blank pre /\ blank post /\ line' = pre ++ line ++ post.

(** A code unit at which [readline] ends a line: line feed, carriage
    return, line separator, paragraph separator.  No line that the loop
    is given holds one. *)
Definition line_end (c : N) : bool :=
  ((c =? 10) || (c =? 13) || (c =? 8232) || (c =? 8233))%N.

Definition one_line (line : jstring) : bool :=
  forallb (fun c => negb (line_end c)) line.

(** A line of a dump that holds one element, an object with no infinity
    inside, on its own: indentation, the text of the object as
    [JSON.stringify] writes it, a comma or none, trailing white space. *)
Definition element_line (line : jstring) (v : value) : Prop :=
  exists props pre post (comma : bool),
    v = VObj props /\ well_formed v /\ plain v = true
    /\ blank pre /\ blank post
    /\ line = pre ++ JSON.serialize v ++ (if comma then [44%N] else []) ++ post
    /\ one_line line = true.

(** What a progress line tells of the run: whether it is the final one,
    and the number of rows it shows. *)
Definition stamp (m : message) : bool * Z := (final m, shown_processed m).

(** The progress lines of line 108 after [rows] rows: one for each whole
    batch of 500. *)
Definition batch_stamps (rows : nat) : list (bool * Z) :=
  map (fun k => (false, 500 * Z.of_nat k)) (seq 1 (rows / 500)).

(** A progress line whose figures agree with each other and with a run
    that has decoded [checked] records. *)
Definition consistent (checked : Z) (m : message) : Prop :=
  0 <= shown_processed m <= shown_checked m
  /\ shown_checked m <= checked
  /\ shown_rate m = match_rate (shown_processed m) (shown_checked m).

(** The console after the rows [rows] were written. *)
Definition Logged (rows : list Row) (st : state) : Prop :=
  map stamp (console st) = batch_stamps (length rows)
  /\ Forall (consistent (totalChecked st)) (console st)
  /\ Z.of_nat (length rows) <= totalChecked st.

(** ** Further inputs used in the examples *)

(** A valid record on a line of a file that has no array-open line. *)
Definition headless_file : list jstring := [sol_text; lit "]"].

(** [sol_file] indented, with a carriage return at the end of each
    line. *)
Definition indented_file : list jstring :=
  [lit "[" ++ [13%N];
   lit "    " ++ sol_text ++ [13%N];
   [9%N] ++ lit "]" ++ [32%N; 13%N]].

(** A record whose body list has [null] in front of a body that
    qualifies. *)
Definition null_entry_text : jstring :=
  json_text "{'name':'S','population':0,'coords':{'x':1,'y':2,'z':3},'bodies':[null,{'name':'B','rings':[{'name':'R'}],'isLandable':true,'atmosphereType':'Thin'}]}".

Definition null_entry_record : value :=
  VObj [(lit "name", VStr (lit "S"));
        (lit "population", VNum zero);
        (lit "coords",
         VObj [(lit "x", VNum (Num 1 0)); (lit "y", VNum (Num 2 0));
               (lit "z", VNum (Num 3 0))]);
        (lit "bodies",
         VArr [VNull;
               VObj [(lit "name", VStr (lit "B"));
                     (lit "rings", VArr [VObj [(lit "name", VStr (lit "R"))]]);
                     (lit "isLandable", VBool true);
                     (lit "atmosphereType", VStr (lit "Thin"))]])].

(** The state after the first three lines of [split_file]: inside the
    array, the two halves of the record in the buffer, the first less
    its comma. *)
Definition split_state : state :=
  with_buffer (json_text "{'name':'Sol' 'population':0} ")
    (with_insideArray true (initial [])).

(** The two records of [two_line_file]. *)
Definition first_record : value :=
  VObj [(lit "name", VStr (lit "A")); (lit "population", VNum zero)].

Definition second_record : value :=
  VObj [(lit "name", VStr (lit "B")); (lit "bodies", VArr [])].

Definition two_line_file : list jstring :=
  [lit "  " ++ json_text "{'name':'A','population':0}" ++ lit ",";
   lit "  " ++ json_text "{'name':'B','bodies':[]}" ++ [9%N]].



(** ** The report of [sort_by_distance.ts]

    The script lists the systems of the table by distance from the
    origin.  The rows come from SQLite, sorted by the query of lines
    8-18; the model starts from these rows, as [db.prepare(query).all()]
    returns them, and follows the script from line 20 to its last line.
    The two statements of lines 46-61, which build the table
    [systems_by_distance] inside SQLite, print nothing and are not
    modelled. *)

Module SortByDistance.

(** [s.padStart(n)] and [s.padEnd(n)], with spaces. *)
Definition padStart (n : nat) (s : jstring) : jstring :=
  repeat 32%N (n - length s) ++ s.

Definition padEnd (n : nat) (s : jstring) : jstring :=
  s ++ repeat 32%N (n - length s).

(** The digits of [n / 10^digits], with [digits] of them after the
    point. *)
Definition fixed_digits (digits : nat) (n : N) : jstring :=
  let ds := digits_of n in
  let padded := repeat 0%N (S digits - length ds) ++ ds in
  let k := (length padded - digits)%nat in
  map digit_char (firstn k padded)
  ++ match digits with
     | O => []
     | _ => 46%N :: map digit_char (skipn k padded)
     end.

(** [x.toFixed(digits)]: the decimal with [digits] places nearest to the
    exact value of [x], the larger one of two.  At [1e21] and above the
    method falls back to Number::toString on a double, which is not
    modelled: [None]. *)
Definition toFixed (digits : nat) (x : float) : option jstring :=
  match Prim2SF x with
  | S754_nan => Some (lit "NaN")
  | S754_infinity false => Some (lit "Infinity")
  | S754_infinity true => Some (lit "-Infinity")
  | S754_zero _ => Some (fixed_digits digits 0)
  | S754_finite negative m e =>
      let num := Zpos m * 2 ^ Z.max e 0 in
      let den := 2 ^ Z.max (- e) 0 in
      if 10 ^ 21 * den <=? num then None
      else
        let n := (2 * 10 ^ Z.of_nat digits * num + den) / (2 * den) in
        Some ((if negative then [45%N] else []) ++ fixed_digits digits (Z.to_N n))
  end.

(** [a.slice(start, stop)]: a negative index counts from the end, and
    both are brought into the bounds of the array. *)
Definition clamp (len k : Z) : nat :=
  Z.to_nat (if k <? 0 then Z.max (len + k) 0 else Z.min k len).

Definition slice {A : Type} (start : Z) (stop : option Z) (a : list A)
  : list A :=
  let len := Z.of_nat (length a) in
  let from := clamp len start in
  let to := match stop with
            | Some k => clamp len k
            | None => length a
            end in
  firstn (to - from) (skipn from a).

(** A coordinate column of a row of the query.  The column has REAL
    affinity and the rows with a NULL in it are filtered out at line 16:
    it holds a number, or the text of a string that SQLite did not take
    for a number. *)
Inductive coordinate :=
| Number (value : float)
| NonNumeric (text : jstring).

(** A row of the query, as the script reads it.  The name columns have
    TEXT affinity: a text, or NULL.  The [id] column is not read. *)
Record system := {
  system_name : option jstring;
  x : coordinate;
  y : coordinate;
  z : coordinate;
  matched_body_name : option jstring;
  distance_from_sol : float
}.

(** What [console.log] was given: a fixed text, or a line of a listing,
    which shows a rank and a system. *)
Inductive output :=
| Text (s : jstring)
| Entry (rank : Z) (shown : system).

(** Whether the template of lines 30 and 40 can be evaluated on a
    system: [padEnd] is read from the name and [toFixed] from the three
    coordinates, which throws a TypeError on [null] and finds no function
    on a string. *)
Definition printable (s : system) : bool :=
  match system_name s, x s, y s, z s with
  | Some _, Number _, Number _, Number _ => true
  | _, _, _, _ => false
  end.

(** The text of a line of a listing, lines 30 and 40. *)
Definition entry_text (rank : Z) (s : system) : option jstring :=
  match system_name s, x s, y s, z s with
  | Some name, Number vx, Number vy, Number vz =>
      match toFixed 2 (distance_from_sol s),
            toFixed 1 vx, toFixed 1 vy, toFixed 1 vz with
      | Some d, Some tx, Some ty, Some tz =>
          Some (padStart 4 (int_text rank) ++ lit " | "
                ++ padEnd 25 name ++ lit " | "
                ++ padStart 10 d ++ lit " | ("
                ++ tx ++ lit ", " ++ ty ++ lit ", " ++ tz ++ lit ") | "
                ++ match matched_body_name s with
                   | Some body => body
                   | None => lit "null"
                   end)
      | _, _, _, _ => None
      end
  | _, _, _, _ => None
  end.

(** [a.forEach((system, index) => console.log(...))] with the rank that
    the callback computes from [index]: the lines are printed one by one,
    and an exception ends the script with the lines printed so far. *)
Fixpoint forEach (rank_of : nat -> Z) (a : list system) (index : nat)
         (console : list output) : result unit * list output :=
  match a with
  | [] => (Ok tt, console)
  | s :: rest =>
      if printable s then
        forEach rank_of rest (S index) (console ++ [Entry (rank_of index) s])
      else (Throw TypeError, console)
  end.

Definition heading : list output :=
  [Text (lit "Rank | System Name | Distance (LY) | Coordinates | Planet Name");
   Text (repeat 45%N 80)].

(** Lines 20-63, on the rows [systems] of the query. *)
Definition main (systems : list system) : result unit * list output :=
  let len := Z.of_nat (length systems) in
  let console :=
    [Text (lit "Fetching systems sorted by distance from Sol...");
     Text (lit "Found " ++ int_text len ++ lit " systems with coordinates.");
     Text (10%N :: lit "Closest systems to Sol:")] ++ heading in
  match forEach (fun index => Z.of_nat index + 1)
          (slice 0 (Some 20) systems) 0 console with
  | (Throw e, console) => (Throw e, console)
  | (Ok _, console) =>
      let listed :=
        if 20 <? len then
          forEach (fun index => len - 9 + Z.of_nat index)
            (slice (-10) None systems) 0
            (console ++ Text (10%N :: lit "Farthest systems from Sol:")
                     :: heading)
        else (Ok tt, console) in
      match listed with
      | (Throw e, console) => (Throw e, console)
      | (Ok _, console) =>
          (Ok tt,
           console
           ++ [Text (10%N :: lit "Creating sorted table for quick access...");
               Text (lit "Created 'systems_by_distance' table with ranking.")])
      end
  end.

(** The systems that the listings show: the first twenty and, of more
    than twenty, the last ten. *)
Definition listed (systems : list system) : list system :=
  slice 0 (Some 20) systems
  ++ (if 20 <? Z.of_nat (length systems) then slice (-10) None systems
      else []).

(** The line of line 45, printed before the table is built. *)
Definition creating : output :=
  Text (10%N :: lit "Creating sorted table for quick access...").

(** The lines of a listing of [a] printed in full, from [index] on. *)
Definition ranked (rank_of : nat -> Z) (index : nat) (a : list system)
  : list output :=
  map (fun p => Entry (rank_of (fst p)) (snd p))
    (combine (seq index (length a)) a).

(** The lines of the listings among what was printed. *)
Fixpoint entries (console : list output) : list (Z * system) :=
  match console with
  | [] => []
  | Text _ :: rest => entries rest
  | Entry rank s :: rest => (rank, s) :: entries rest
  end.

(** A system named after its number, at that distance on the first
    axis. *)
Definition numbered (n : nat) : system :=
  {| system_name := Some (nat_text (N.of_nat n));
     x := Number (of_uint63 (Uint63.of_Z (Z.of_nat n)));
     y := Number 0%float;
     z := Number 0%float;
     matched_body_name := Some (lit "B");
     distance_from_sol := of_uint63 (Uint63.of_Z (Z.of_nat n)) |}.

(** The first [n] of them, in this order. *)
Definition sample (n : nat) : list system := map numbered (seq 1 n).

(** A system whose name column is NULL. *)
Definition nameless : system :=
  {| system_name := None;
     x := Number 1%float; y := Number 2%float; z := Number 3%float;
     matched_body_name := Some (lit "B");
     distance_from_sol := 3.75%float |}.

End SortByDistance.



(** ** The analysis of the stored systems

    The third script of [src/unnamed/part_000] (lines 127-363) reads the
    rows of the [systems] table back, parses the [system_data] column of
    each and looks in the body list for Earth-like worlds and for ringed,
    landable planets with an atmosphere.  The model covers what the
    script computes for one row (lines 156-209, and the same steps in the
    second search, lines 333-355); the queries and the listings are left
    out. *)

Module Analysis.

(** [v === "..."] for a string literal. *)
Definition is_text (v : value) (text : jstring) : bool :=
  match v with
  | VStr s => str_eqb s text
  | _ => false
  end.

(** The elements [bodies.filter] goes through.  Only an array has the
    method: on any other value the call is a TypeError. *)
Definition items_of (bodies : value) : result (list value) :=
  match bodies with
  | VArr items => Ok items
  | _ => Throw TypeError
  end.

(** [Array.prototype.filter]: the test is applied to the elements in
    order, and an exception thrown by it ends the call. *)
Fixpoint filter_items (test : value -> result bool) (items : list value)
  : result (list value) :=
  match items with
  | [] => Ok []
  | body :: rest =>
      test body >>= fun kept =>
      filter_items test rest >>= fun others =>
      Ok (if kept then body :: others else others)
  end.

Definition filter (test : value -> result bool) (bodies : value)
  : result (list value) :=
  items_of bodies >>= filter_items test.

(** The tests of lines 163, 179 and 180: [body.subType === "..."]. *)
Definition has_subType (text : jstring) (body : value) : result bool :=
  get_prop body (lit "subType") >>= fun subType => Ok (is_text subType text).

(** Lines 168-171 (and 339-342): [body.type === "Planet"] in front of
    the three tests of [parse_and_store.ts], which are written here as
    they are there. *)
Definition ringed_landable_atmospheric (body : value) : result bool :=
  get_prop body (lit "type") >>= fun type =>
  if negb (is_text type (lit "Planet")) then Ok false
  else qualifies body.

(** Line 181: [b.rings && b.rings.length > 0]. *)
Definition ringed (b : value) : result bool :=
  get_prop b (lit "rings") >>= fun rings =>
  if negb (truthy rings) then Ok false
  else
    get_prop b (lit "rings") >>= fun rings' =>
    get_prop rings' (lit "length") >>= fun len =>
    positive len.

(** Line 182: [b.isLandable === true]. *)
Definition is_landable (b : value) : result bool :=
  get_prop b (lit "isLandable") >>= fun landable => Ok (is_true landable).

(** Line 183: [b.atmosphereType && b.atmosphereType !== null]. *)
Definition atmospheric (b : value) : result bool :=
  get_prop b (lit "atmosphereType") >>= fun atmosphere =>
  if negb (truthy atmosphere) then Ok false
  else
    get_prop b (lit "atmosphereType") >>= fun atmosphere' =>
    Ok (negb (is_null atmosphere')).

(** Lines 158-159 (and 335-336): [JSON.parse(system.system_data)], then
    [systemData.bodies || []].  The column has TEXT affinity: it holds a
    text, or NULL, which [JSON.parse] reads as the text [null]. *)
Definition bodies_of (system_data : option jstring) : result value :=
  match JSON.parse (match system_data with
                    | Some text => text
                    | None => lit "null"
                    end) with
  | None => Throw SyntaxError
  | Some systemData =>
      get_prop systemData (lit "bodies") >>= fun bodies =>
      Ok (if truthy bodies then bodies else VArr [])
  end.

(** Lines 335-343: the ringed, landable planets with an atmosphere of
    one row. *)
Definition ringed_planets (system_data : option jstring)
  : result (list value) :=
  bodies_of system_data >>= filter ringed_landable_atmospheric.

(** [parts.join(", ")] on strings. *)
Definition join (parts : list jstring) : jstring :=
  match parts with
  | [] => []
  | first :: rest => first ++ flat_map (fun part => lit ", " ++ part) rest
  end.

(** [`${n} ...`] for a count [n]. *)
Definition counted (n : nat) (what : string) : jstring :=
  nat_text (N.of_nat n) ++ lit what.

(** What lines 193-204 add to the row of a system that is kept. *)
Record analysis := {
  earthLikeWorlds : list value;
  ringedLandableAtmospheric : list value;
  features : jstring;
  totalBodies : nat;
  waterWorlds : nat;
  ammoniaWorlds : nat;
  ringedBodies : nat;
  landableBodies : nat;
  atmosphericBodies : nat
}.

(** Lines 158-205, the body of the [try]: [None] when the system is not
    kept. *)
Definition analyse (system_data : option jstring) : result (option analysis) :=
  bodies_of system_data >>= fun bodies =>
  filter (has_subType (lit "Earth-like world")) bodies >>= fun earth =>
  filter ringed_landable_atmospheric bodies >>= fun planets =>
  if (0 <? length earth)%nat && (0 <? length planets)%nat then
    items_of bodies >>= fun items =>
    let total := length items in
    filter (has_subType (lit "Water world")) bodies >>= fun water =>
    filter (has_subType (lit "Ammonia world")) bodies >>= fun ammonia =>
    filter ringed bodies >>= fun with_rings =>
    filter is_landable bodies >>= fun landable =>
    filter atmospheric bodies >>= fun with_atmosphere =>
    Ok (Some
          {| earthLikeWorlds := earth;
             ringedLandableAtmospheric := planets;
             features :=
               join ([counted (length earth) " Earth-like world(s)";
                      counted (length planets)
                        " ringed landable atmospheric planet(s)"]
                     ++ (if (0 <? length water)%nat then
                           [counted (length water) " Water world(s)"]
                         else [])
                     ++ (if (0 <? length ammonia)%nat then
                           [counted (length ammonia) " Ammonia world(s)"]
                         else [])
                     ++ (if (length planets <? length with_rings)%nat then
                           [counted (length with_rings) " total ringed bodies"]
                         else [])
                     ++ (if (50 <? total)%nat then
                           [counted total " total bodies"]
                         else []));
             totalBodies := total;
             waterWorlds := length water;
             ammoniaWorlds := length ammonia;
             ringedBodies := length with_rings;
             landableBodies := length landable;
             atmosphericBodies := length with_atmosphere |})
  else Ok None.

(** Lines 154-209: the systems that are kept, in the order of the query,
    each with what was found in it.  A system on which the [try] throws
    is reported at line 207 and left out. *)
Definition matchingSystems {system : Type}
           (system_data : system -> option jstring) (systems : list system)
  : list (system * analysis) :=
  flat_map (fun s =>
              match analyse (system_data s) with
              | Ok (Some found) => [(s, found)]
              | _ => []
              end) systems.

(** A system with an Earth-like world, a moon with rings that is
    landable and has an atmosphere, and two planets of that kind. *)
Definition moon : value :=
  VObj [(lit "name", VStr (lit "M")); (lit "type", VStr (lit "Moon"));
        (lit "rings", VArr [VObj []]); (lit "isLandable", VBool true);
        (lit "atmosphereType", VStr (lit "Thin"))].

Definition first_planet : value :=
  VObj [(lit "name", VStr (lit "P")); (lit "type", VStr (lit "Planet"));
        (lit "rings", VArr [VObj []]); (lit "isLandable", VBool true);
        (lit "atmosphereType", VStr (lit "Thin"))].

Definition second_planet : value :=
  VObj [(lit "name", VStr (lit "Q")); (lit "type", VStr (lit "Planet"));
        (lit "rings", VArr [VObj []]); (lit "isLandable", VBool true);
        (lit "atmosphereType", VStr (lit "Thick"))].

Definition home : value :=
  VObj [(lit "name", VStr (lit "E")); (lit "type", VStr (lit "Planet"));
        (lit "subType", VStr (lit "Earth-like world"))].

Definition planets_record : value :=
  VObj [(lit "name", VStr (lit "S")); (lit "population", VNum zero);
        (lit "coords",
         VObj [(lit "x", VNum (Num 1 0)); (lit "y", VNum (Num 2 0));
               (lit "z", VNum (Num 3 0))]);
        (lit "bodies", VArr [home; first_planet; moon; second_planet])].

Definition planets_file : list jstring :=
  [lit "["; JSON.serialize planets_record; lit "]"].

End Analysis.



(* ================================================================== *)
(** * Part II: facts *)
(* ================================================================== *)

(** ** Text *)

Lemma str_eqb_refl (a : jstring) : str_eqb a a = true.
Proof.
  induction a as [|c a IH]; simpl; [reflexivity|].
  now rewrite N.eqb_refl.
Qed.

Lemma str_eqb_eq (a b : jstring) : str_eqb a b = true <-> a = b.
Proof.
  split.
  - revert b; induction a as [|c a IH]; intros [|d b]; simpl; try discriminate;
      [reflexivity|].
    intros H; apply andb_prop in H as [H1 H2].
    apply N.eqb_eq in H1; subst d. now rewrite (IH b H2).
  - intros ->. apply str_eqb_refl.
Qed.

Lemma str_eqb_neq (a b : jstring) : str_eqb a b = false <-> a <> b.
Proof.
  rewrite <- str_eqb_eq. destruct (str_eqb a b); split; congruence.
Qed.

(** ** The Batched Writer *)


Lemma committed_count_le (n : nat) : (committed_count n <= n)%nat.
Proof.
  unfold committed_count. pose proof (Nat.div_mod_eq n 500). lia.
Qed.

Lemma committed_count_step (n : nat) :
  (n - committed_count n < 500)%nat /\
  ((S n - committed_count n < 500)%nat -> committed_count (S n) = committed_count n) /\
  ((500 <= S n - committed_count n)%nat -> committed_count (S n) = S n).
Proof.
  unfold committed_count.
  pose proof (Nat.div_mod_eq n 500) as Hn.
  pose proof (Nat.mod_upper_bound n 500 ltac:(lia)) as Hm.
  pose proof (Nat.div_mod_eq (S n) 500) as HSn.
  pose proof (Nat.mod_upper_bound (S n) 500 ltac:(lia)) as HSm.
  assert (S n / 500 = n / 500 \/ S n / 500 = S (n / 500))%nat as Hq by nia.
  repeat split; intros; nia.
Qed.

Lemma write_Batched existing rows row st :
  Batched existing rows st ->
  (store_row row ;; after_insert) st = (Done tt, write row st)
  /\ Batched existing (rows ++ [row]) (write row st)
  /\ buffer (write row st) = buffer st
  /\ insideArray (write row st) = insideArray st
  /\ totalChecked (write row st) = totalChecked st.
Proof.
  intros (Ht & Hd & Hb & Hp).
  unfold write.
  destruct (committed_count_step (length rows)) as (Hlt & Hsame & Hfull).
  pose proof (committed_count_le (length rows)) as Hle.
  assert (Hrows : firstn (committed_count (length rows)) rows
                  ++ skipn (committed_count (length rows)) rows = rows)
    by apply firstn_skipn.
  unfold Batched. rewrite length_app. simpl length.
  replace (length rows + 1)%nat with (S (length rows)) by lia.
  remember (S (length rows)) as n1 eqn:Hn1.
  remember (committed_count (length rows)) as c eqn:Hc.
  unfold bind, store_row, after_insert, bind, update, read, ret. simpl.
  rewrite Ht. simpl. rewrite Hb.
  destruct (500 <=? Z.of_nat (length rows - c) + 1) eqn:Hfullb.
  - apply Z.leb_le in Hfullb.
    rewrite Hfull by lia.
    unfold db_commit, db_begin. simpl.
    destruct ((processed st + 1) mod 500 =? 0); simpl;
      (split; [reflexivity|]);
      rewrite Hd, Hp;
      rewrite (@firstn_all2 _ n1 (rows ++ [row])) by (rewrite length_app; simpl; lia);
      rewrite (@skipn_all2 _ n1 (rows ++ [row])) by (rewrite length_app; simpl; lia);
      rewrite <- app_assoc, (app_assoc (firstn _ rows)), Hrows;
      repeat split; try reflexivity; lia.
  - apply Z.leb_gt in Hfullb.
    rewrite Hsame by lia. simpl.
    destruct ((processed st + 1) mod 500 =? 0); simpl;
      (split; [reflexivity|]);
      rewrite Hd, Hp;
      rewrite firstn_app, skipn_app;
      replace (c - length rows)%nat with 0%nat by lia;
      simpl; rewrite app_nil_r;
      repeat split; try reflexivity; lia.
Qed.

(** ** Decimal digits *)

Lemma digits_val_from (ds : list N) (a : N) :
  fold_left (fun a d => 10 * a + d)%N ds a
  = (a * 10 ^ N.of_nat (length ds) + digits_val ds)%N.
Proof.
  unfold digits_val. revert a.
  induction ds as [|d ds IH]; intros a.
  - simpl. lia.
  - cbn [fold_left length]. rewrite IH, (IH (10 * 0 + d)%N).
    rewrite Nat2N.inj_succ, N.pow_succ_r'. lia.
Qed.

Lemma digits_val_app (a b : list N) :
  digits_val (a ++ b)
  = (digits_val a * 10 ^ N.of_nat (length b) + digits_val b)%N.
Proof.
  unfold digits_val at 1. rewrite fold_left_app.
  rewrite digits_val_from. reflexivity.
Qed.

Lemma digits_val_cons (d : N) (ds : list N) :
  digits_val (d :: ds) = (d * 10 ^ N.of_nat (length ds) + digits_val ds)%N.
Proof.
  change (d :: ds) with ([d] ++ ds). rewrite digits_val_app.
  unfold digits_val at 1. simpl. lia.
Qed.

Lemma digits_aux_val (fuel : nat) (n : N) (acc : list N) :
  digits_val (digits_aux fuel n acc)
  = (n * 10 ^ N.of_nat (length acc) + digits_val acc)%N.
Proof.
  revert n acc. induction fuel as [|f IH]; intros n acc; simpl.
  - apply digits_val_cons.
  - destruct (n <? 10)%N.
    + apply digits_val_cons.
    + rewrite IH, digits_val_cons. cbn [length].
      rewrite Nat2N.inj_succ, N.pow_succ_r'.
      pose proof (N.div_mod n 10 ltac:(lia)). nia.
Qed.

Lemma digits_val_digits_of (n : N) : digits_val (digits_of n) = n.
Proof.
  unfold digits_of. rewrite digits_aux_val. unfold digits_val. simpl. lia.
Qed.

Lemma char_digit_digit_char (d : N) : char_digit (digit_char d) = d.
Proof. unfold char_digit, digit_char. lia. Qed.

Lemma nat_text_val (n : N) : digits_val (map char_digit (nat_text n)) = n.
Proof.
  unfold nat_text. rewrite map_map.
  rewrite (map_ext _ (fun d => d)) by apply char_digit_digit_char.
  rewrite map_id. apply digits_val_digits_of.
Qed.

Lemma nat_text_inj (a b : N) : nat_text a = nat_text b -> a = b.
Proof.
  intros H. rewrite <- (nat_text_val a), <- (nat_text_val b), H. reflexivity.
Qed.

(** ** The scan of the body list *)

Lemma lookup_In (k : jstring) (props : list (jstring * value)) (v : value) :
  lookup k props = Some v -> In k (map fst props).
Proof.
  induction props as [|[k' v'] r IH]; simpl; [discriminate|].
  destruct (str_eqb k k') eqn:E.
  - apply str_eqb_eq in E. auto.
  - auto.
Qed.

(** Keys [0 .. i-1] all present: there are at least [i] properties. *)
Lemma index_keys_bound (props : list (jstring * value)) (i : nat) :
  (forall j, (j < i)%nat -> lookup (nat_text (N.of_nat j)) props <> None) ->
  (i <= length props)%nat.
Proof.
  intros H.
  rewrite <- (length_map fst props).
  replace i with (length (map (fun j => nat_text (N.of_nat j)) (seq 0 i))) at 1
    by (rewrite length_map; apply length_seq).
  apply NoDup_incl_length.
  - apply Injective_map_NoDup.
    + intros a b E. apply nat_text_inj in E. lia.
    + apply seq_NoDup.
  - intros k Hk. apply in_map_iff in Hk as (j & <- & Hj).
    apply in_seq in Hj.
    destruct (lookup (nat_text (N.of_nat j)) props) eqn:E.
    + eapply lookup_In; eauto.
    + exfalso. apply (H j); [lia | assumption].
Qed.

Lemma qualifies_defined (body : value) (hit : bool) :
  qualifies body = Ok hit -> body <> VUndefined /\ body <> VNull.
Proof.
  destruct body; simpl; intros H; try discriminate; split; discriminate.
Qed.

(** What a completed probe read. *)
Lemma probe_inv (obj : value) (i : nat) (body : value) (hit : bool) :
  probe obj i = Ok (Some (body, hit)) ->
  exists bodies len,
    get_prop obj (lit "bodies") = Ok bodies
    /\ get_prop bodies (lit "length") = Ok len
    /\ counter_lt i len = Ok true
    /\ get_index bodies i = Ok body
    /\ qualifies body = Ok hit.
Proof.
  unfold probe, rbind. intros H.
  destruct (get_prop obj (lit "bodies")) as [bodies|]; [|discriminate].
  destruct (get_prop bodies (lit "length")) as [len|] eqn:Hl; [|discriminate].
  destruct (counter_lt i len) as [[|]|] eqn:Hc; try discriminate.
  destruct (get_index bodies i) as [b|] eqn:Hi; [|discriminate].
  destruct (qualifies b) as [h|] eqn:Hq; [|discriminate].
  injection H as <- <-. exists bodies, len. repeat split; assumption || reflexivity.
Qed.

(** The loop cannot run past the entries of [obj.bodies]. *)
Lemma probed_bound (obj : value) (i : nat) :
  (forall j, (j < i)%nat -> exists b h, probe obj j = Ok (Some (b, h))) ->
  (i + 2 <= scan_fuel obj)%nat.
Proof.
  intros H. unfold scan_fuel.
  destruct i as [|i]; [destruct (get_prop obj (lit "bodies")) as [[]|]; lia|].
  assert (Hall : forall j, (j < S i)%nat ->
            exists bodies body, get_prop obj (lit "bodies") = Ok bodies
              /\ get_index bodies j = Ok body
              /\ body <> VUndefined /\ body <> VNull).
  { intros j Hj. destruct (H j Hj) as (b & h & Hp).
    apply probe_inv in Hp as (bodies & len & H1 & _ & _ & H4 & H5).
    apply qualifies_defined in H5. exists bodies, b. tauto. }
  destruct (Hall i ltac:(lia)) as (bodies & body & Hb & Hi & Hu & Hn).
  rewrite Hb.
  destruct bodies as [| | | | | |s|l|props]; simpl in Hi; try discriminate;
    try (injection Hi as <-; congruence).
  - destruct (nth_error s i) eqn:E; [|injection Hi as <-; congruence].
    assert (nth_error s i <> None) as E' by congruence.
    apply nth_error_Some in E'. lia.
  - destruct (nth_error l i) eqn:E; [|injection Hi as <-; congruence].
    assert (nth_error l i <> None) as E' by congruence.
    apply nth_error_Some in E'. lia.
  - enough (S i <= length props)%nat by lia.
    apply index_keys_bound. intros j Hj.
    destruct (Hall j Hj) as (bodies' & body' & Hb' & Hi' & Hu' & Hn').
    rewrite Hb in Hb'. injection Hb' as <-. simpl in Hi'.
    destruct (lookup (nat_text (N.of_nat j)) props); [discriminate|].
    injection Hi' as <-. congruence.
Qed.

(** Once a body matched, the next evaluation of the loop test ends the
    loop. *)
Lemma scan_after_match (f : nat) (obj : value) (i : nat) (st : state)
      (bodies len : value) (more : bool) :
  get_prop obj (lit "bodies") = Ok bodies ->
  get_prop bodies (lit "length") = Ok len ->
  counter_lt i len = Ok more ->
  scan (S f) obj (S i) true st = (Done tt, st).
Proof.
  intros Hb Hl Hc. simpl. unfold bind, eval, ret.
  rewrite Hb, Hl.
  unfold counter_lt, rbind in *.
  destruct (to_number len); [|discriminate].
  rewrite andb_false_r. reflexivity.
Qed.

(** The loop of lines 77-112 against [search]: it writes the row of the
    first body that qualifies, or leaves the state as it was; it never
    uses up its iteration bound. *)
Lemma scan_correct (existing : list Row) (obj : value) :
  forall (fuel i : nat) (st : state) (rows : list Row),
    Batched existing rows st ->
    (forall j, (j < i)%nat -> exists b, probe obj j = Ok (Some (b, false))) ->
    (scan_fuel obj <= fuel + i)%nat ->
    match search obj (seq i fuel) with
    | Some body =>
        match row_of obj body >>= bound with
        | Ok row => scan fuel obj i false st = (Done tt, write row st)
        | Throw e => scan fuel obj i false st = (Raised e, st)
        end
    | None => exists o, scan fuel obj i false st = (o, st) /\ o <> NoFuel
    end.
Proof.
  induction fuel as [|f IH]; intros i st rows HB Hprev Hfuel.
  - exfalso.
    assert (i + 2 <= scan_fuel obj)%nat; [|lia].
    apply probed_bound. intros j Hj.
    destruct (Hprev j Hj) as (b & Hb). eauto.
  - cbn [seq search].
    destruct (probe obj i) as [[[body hit]|]|e] eqn:Hprobe.
    + (* an entry was read *)
      pose proof Hprobe as Hinv.
      apply probe_inv in Hinv as (bodies & len & H1 & H2 & H3 & H4 & H5).
      assert (Hbound : (S i + 2 <= scan_fuel obj)%nat).
      { apply probed_bound. intros j Hj.
        destruct (Nat.eq_dec j i) as [->|Hne]; [eauto|].
        destruct (Hprev j ltac:(lia)) as (b & Hb). eauto. }
      destruct hit.
      * destruct (row_of obj body) as [args|e] eqn:Hrow; cbn [rbind];
          [destruct (bound args) as [row|e] eqn:Hargs|].
        -- cbn [scan]. unfold insertStmt_run, bind, eval.
           repeat ((rewrite H1 || rewrite H2 || rewrite H3 || rewrite H4
                    || rewrite H5 || rewrite Hrow || rewrite Hargs);
                   cbn [andb negb]; cbv beta iota).
           destruct (write_Batched row HB) as (Hw & _).
           unfold bind in Hw.
           destruct (store_row row st) as [[[]| |] st1] eqn:Hins;
             try discriminate.
           destruct (after_insert st1) as [[[]| |] st2] eqn:Haft;
             try discriminate.
           injection Hw as <-.
           destruct f as [|f']; [lia|].
           eapply scan_after_match; eauto.
        -- cbn [scan]. unfold insertStmt_run, bind, eval.
           repeat ((rewrite H1 || rewrite H2 || rewrite H3 || rewrite H4
                    || rewrite H5 || rewrite Hrow || rewrite Hargs);
                   cbn [andb negb]; cbv beta iota).
           reflexivity.
        -- cbn [scan]. unfold bind, eval.
           repeat ((rewrite H1 || rewrite H2 || rewrite H3 || rewrite H4
                    || rewrite H5 || rewrite Hrow);
                   cbn [andb negb]; cbv beta iota).
           reflexivity.
      * assert (Hstep : scan (S f) obj i false st = scan f obj (S i) false st).
        { cbn [scan]. unfold bind, eval.
          repeat ((rewrite H1 || rewrite H2 || rewrite H3 || rewrite H4
                   || rewrite H5); cbn [andb negb]; cbv beta iota).
          reflexivity. }
        rewrite Hstep.
        apply (IH (S i) st rows HB); [|lia].
        intros j Hj. destruct (Nat.eq_dec j i) as [->|Hne]; [eauto|].
        apply Hprev. lia.
    + (* the loop test failed *)
      exists (Done tt). split; [|discriminate].
      unfold probe, rbind in Hprobe. cbn [scan]. unfold bind, eval, ret.
      destruct (get_prop obj (lit "bodies")) as [bodies|]; [|discriminate].
      destruct (get_prop bodies (lit "length")) as [len|]; [|discriminate].
      destruct (counter_lt i len) as [[|]|]; try discriminate; [|reflexivity].
      destruct (get_index bodies i) as [b|]; [|discriminate].
      destruct (qualifies b); discriminate.
    + (* an exception *)
      exists (Raised e). split; [|discriminate].
      unfold probe, rbind in Hprobe. cbn [scan]. unfold bind, eval, ret.
      destruct (get_prop obj (lit "bodies")) as [bodies|]; [|congruence].
      destruct (get_prop bodies (lit "length")) as [len|]; [|congruence].
      destruct (counter_lt i len) as [[|]|]; try congruence.
      cbn [andb negb].
      destruct (get_index bodies i) as [b|]; [|congruence].
      destruct (qualifies b); congruence.
Qed.

(** ** One line, and all of them *)


Lemma Batched_frame existing rows st st' :
  db st' = db st -> batchCount st' = batchCount st ->
  processed st' = processed st ->
  Batched existing rows st -> Batched existing rows st'.
Proof.
  unfold Batched. intros -> -> ->. trivial.
Qed.

Lemma try_block_parsed existing rows st obj :
  Batched existing rows st ->
  JSON.parse (buffer st) = Some obj ->
  (exists o, try_block st = (o, absorb obj st) /\ o <> NoFuel)
  /\ Batched existing (rows ++ row_for obj) (absorb obj st)
  /\ buffer (absorb obj st) = []
  /\ insideArray (absorb obj st) = insideArray st
  /\ totalChecked (absorb obj st) = totalChecked st + 1.
Proof.
  intros HB Hparse. unfold absorb.
  set (st2 := with_totalChecked (totalChecked st + 1) (with_buffer [] st)).
  assert (HB2 : Batched existing rows st2)
    by (eapply Batched_frame; [| | |exact HB]; reflexivity).
  remember (row_for obj) as rf eqn:Hrf.
  assert (Hnone : rf = [] ->
            forall o, try_block st = (o, st2) -> o <> NoFuel ->
            (exists o, try_block st
                       = (o, fold_left (fun s r => write r s) rf st2)
                       /\ o <> NoFuel)
            /\ Batched existing (rows ++ rf)
                 (fold_left (fun s r => write r s) rf st2)
            /\ buffer (fold_left (fun s r => write r s) rf st2) = []
            /\ insideArray (fold_left (fun s r => write r s) rf st2)
               = insideArray st
            /\ totalChecked (fold_left (fun s r => write r s) rf st2)
               = totalChecked st + 1).
  { intros -> o Ho Hne. rewrite app_nil_r. cbn [fold_left].
    split; [exists o; split; assumption|].
    split; [assumption|]. repeat split. }
  assert (Htry : try_block st =
            (bodies <- eval (get_prop obj (lit "bodies")) ;;
             if negb (truthy bodies) then ret tt
             else
               population <- eval (get_prop obj (lit "population")) ;;
               if negb (is_zero population) then ret tt
               else
                 coords <- eval (get_prop obj (lit "coords")) ;;
                 if negb (truthy coords) then ret tt
                 else scan (scan_fuel obj) obj 0 false) st2).
  { unfold try_block, bind at 1, read. rewrite Hparse. reflexivity. }
  pose (stored := fun body : value => row_of obj body >>= bound).
  change (rf = match match_predicate obj with
               | Some body =>
                   match stored body with
                   | Ok row => [row]
                   | Throw _ => []
                   end
               | None => []
               end) in Hrf.
  unfold match_predicate, first_level, rbind in Hrf.
  unfold bind, eval, ret in Htry.
  destruct (get_prop obj (lit "bodies")) as [bodies|e];
    [|apply (Hnone Hrf _ Htry); discriminate].
  destruct (truthy bodies); cbn [negb] in *;
    [|apply (Hnone Hrf _ Htry); discriminate].
  destruct (get_prop obj (lit "population")) as [population|e];
    [|apply (Hnone Hrf _ Htry); discriminate].
  destruct (is_zero population); cbn [negb] in *;
    [|apply (Hnone Hrf _ Htry); discriminate].
  destruct (get_prop obj (lit "coords")) as [coords|e];
    [|apply (Hnone Hrf _ Htry); discriminate].
  destruct (truthy coords); cbn [negb] in *;
    [|apply (Hnone Hrf _ Htry); discriminate].
  pose proof (@scan_correct existing obj (scan_fuel obj) 0 st2 rows HB2
                ltac:(intros j Hj; lia) ltac:(lia)) as Hscan.
  change (match search obj (seq 0 (scan_fuel obj)) with
          | Some body =>
              match stored body with
              | Ok row =>
                  scan (scan_fuel obj) obj 0 false st2 = (Done tt, write row st2)
              | Throw e => scan (scan_fuel obj) obj 0 false st2 = (Raised e, st2)
              end
          | None =>
              exists o,
                scan (scan_fuel obj) obj 0 false st2 = (o, st2) /\ o <> NoFuel
          end) in Hscan.
  destruct (search obj (seq 0 (scan_fuel obj))) as [body|].
  - destruct (stored body) as [row|e].
    + rewrite Hscan in Htry. subst rf.
      destruct (write_Batched row HB2) as (_ & HB3 & Hbuf & Hin & Htc).
      cbn [fold_left].
      split; [exists (Done tt); split; [assumption|discriminate]|].
      split; [assumption|].
      rewrite Hbuf, Hin, Htc. repeat split.
    + rewrite Hscan in Htry. apply (Hnone Hrf _ Htry); discriminate.
  - destruct Hscan as (o & Hs & Hne). rewrite Hs in Htry.
    apply (Hnone Hrf _ Htry); assumption.
Qed.

Lemma try_block_unparsed st :
  JSON.parse (buffer st) = None -> try_block st = (Raised SyntaxError, st).
Proof.
  intros H. unfold try_block, bind, read, throw. rewrite H. reflexivity.
Qed.

Lemma keep_spec (b : jstring) (st : state) :
  buffer st = b -> catch_block st = (Done tt, with_buffer (keep b) st).
Proof.
  intros <-. unfold catch_block, bind, read, keep, update, ret.
  destruct st as [[|c b] ? ? ? ? ? ?]; reflexivity.
Qed.

(** The body of the loop, case by case. *)
Lemma loop_body_spec existing rows line st :
  Batched existing rows st ->
  loop_body line st =
    if str_eqb (trim line) (lit "[") then
      (Done Continue, with_insideArray true st)
    else if str_eqb (trim line) (lit "]") then (Done Break, st)
    else if negb (insideArray st) then (Done Continue, st)
    else
      match JSON.parse (grow (buffer st) line) with
      | Some obj => (Done Continue, absorb obj st)
      | None =>
          (Done Continue, with_buffer (keep (grow (buffer st) line)) st)
      end.
Proof.
  intros HB. unfold loop_body.
  destruct (str_eqb (trim line) (lit "[")); [reflexivity|].
  destruct (str_eqb (trim line) (lit "]")); [reflexivity|].
  destruct (negb (insideArray st)); [reflexivity|].
  fold (grow (buffer st) line).
  set (st1 := with_buffer (grow (buffer st) line) st).
  assert (HB1 : Batched existing rows st1)
    by (eapply Batched_frame; [| | |exact HB]; reflexivity).
  destruct (JSON.parse (grow (buffer st) line)) as [obj|] eqn:Hparse.
  - destruct (@try_block_parsed existing rows st1 obj HB1 Hparse)
      as ((o & Htry & Hne) & _ & Hbuf & _).
    change (absorb obj st1) with (absorb obj st) in *.
    rewrite Htry.
    destruct o as [[]|e|]; [reflexivity| |congruence].
    unfold catch_block, bind, read. rewrite Hbuf. reflexivity.
  - rewrite (try_block_unparsed st1 Hparse).
    rewrite (keep_spec (b := grow (buffer st) line)) by reflexivity.
    reflexivity.
Qed.

Lemma for_lines_spec existing :
  forall lines st rows,
    Batched existing rows st ->
    exists st',
      for_lines lines st = (Done tt, st')
      /\ Batched existing
           (rows ++ flat_map row_for
                      (records_from (insideArray st) (buffer st) lines)) st'
      /\ totalChecked st'
         = totalChecked st
           + Z.of_nat (length (records_from (insideArray st) (buffer st) lines)).
Proof.
  induction lines as [|line rest IH]; intros st rows HB.
  - exists st. simpl. rewrite app_nil_r.
    split; [reflexivity|split; [assumption|lia]].
  - cbn [for_lines records_from]. unfold bind at 1.
    rewrite (loop_body_spec line HB).
    destruct (str_eqb (trim line) (lit "[")).
    { apply (IH (with_insideArray true st) rows).
      eapply Batched_frame; [| | |exact HB]; reflexivity. }
    destruct (str_eqb (trim line) (lit "]")).
    { exists st. simpl. rewrite app_nil_r.
      split; [reflexivity|split; [assumption|lia]]. }
    destruct (insideArray st) eqn:Hin; cbn [negb].
    2:{ destruct (IH st rows HB) as (st' & H1 & H2 & H3).
        rewrite Hin in *. eauto. }
    destruct (JSON.parse (grow (buffer st) line)) as [obj|] eqn:Hparse.
    + assert (HB1 : Batched existing rows
                      (with_buffer (grow (buffer st) line) st))
        by (eapply Batched_frame; [| | |exact HB]; reflexivity).
      destruct (@try_block_parsed existing rows _ obj HB1 Hparse)
        as (_ & HB2 & Hbuf & Hins & Htc).
      change (absorb obj (with_buffer (grow (buffer st) line) st))
        with (absorb obj st) in *.
      destruct (IH (absorb obj st) _ HB2) as (st' & H1 & H2 & H3).
      rewrite Hbuf, Hins in *. cbn [insideArray with_buffer] in *.
      rewrite Hin in *.
      exists st'. split; [assumption|].
      cbn [flat_map length]. rewrite app_assoc. split; [assumption|].
      rewrite H3, Htc. cbn [totalChecked with_buffer]. lia.
    + destruct (IH (with_buffer (keep (grow (buffer st) line)) st) rows)
        as (st' & H1 & H2 & H3).
      { eapply Batched_frame; [| | |exact HB]; reflexivity. }
      cbn [insideArray buffer totalChecked with_buffer] in H2, H3.
      rewrite Hin in *. eauto.
Qed.


Lemma Batched_start existing :
  Batched existing []
    (with_db {| durable := existing; txn := Some [] |} (initial existing)).
Proof.
  unfold Batched. simpl. rewrite app_nil_r. repeat split.
Qed.

Lemma loop_exit_spec existing lines :
  (db_begin ;; for_lines lines) (initial existing)
  = (Done tt, at_loop_exit existing lines)
  /\ Batched existing (persisted_rows lines) (at_loop_exit existing lines)
  /\ totalChecked (at_loop_exit existing lines)
     = Z.of_nat (length (records lines)).
Proof.
  unfold at_loop_exit.
  assert (Heq : (db_begin ;; for_lines lines) (initial existing)
                = for_lines lines
                    (with_db {| durable := existing; txn := Some [] |}
                       (initial existing))) by reflexivity.
  rewrite Heq.
  destruct (for_lines_spec lines (Batched_start existing))
    as (st' & H1 & H2 & H3).
  rewrite H1. cbn [snd].
  split; [reflexivity|]. split; [exact H2|exact H3].
Qed.

Lemma processFile_spec existing lines :
  let mid := at_loop_exit existing lines in
  let rows := persisted_rows lines in
  processFile existing lines = (Done tt, at_end existing lines)
  /\ durable (db (at_end existing lines)) = existing ++ rows
  /\ txn (db (at_end existing lines)) = None
  /\ processed (at_end existing lines) = Z.of_nat (length rows)
  /\ totalChecked (at_end existing lines) = Z.of_nat (length (records lines))
  /\ console (at_end existing lines)
     = console mid
       ++ [{| final := true;
              shown_processed := Z.of_nat (length rows);
              shown_checked := Z.of_nat (length (records lines));
              shown_rate := match_rate (Z.of_nat (length rows))
                              (Z.of_nat (length (records lines))) |}].
Proof.
  intros mid rows.
  destruct (loop_exit_spec existing lines) as (Hrun & (Ht & Hd & Hb & Hp) & Htc).
  fold mid rows in Hrun, Ht, Hd, Hb, Hp, Htc.
  assert (Hfull : processFile existing lines
          = (db_commit ;; console_log true) mid).
  { unfold processFile. unfold bind in Hrun |- *.
    destruct (db_begin (initial existing)) as [[[]| |] s0]; try discriminate.
    rewrite Hrun. reflexivity. }
  unfold at_end. rewrite Hfull.
  unfold bind, db_commit, console_log, update. rewrite Ht. cbn.
  rewrite Hd, Hp, Htc, <- app_assoc, firstn_skipn.
  repeat split.
Qed.

(** ** The Match Predicate *)

Lemma search_first (obj : value) (body : value) :
  forall n k,
    search obj (seq k n) = Some body ->
    exists i,
      (k <= i < k + n)%nat
      /\ probe obj i = Ok (Some (body, true))
      /\ forall j, (k <= j < i)%nat -> exists b, probe obj j = Ok (Some (b, false)).
Proof.
  induction n as [|n IH]; intros k H; [discriminate|].
  cbn [seq search] in H.
  destruct (probe obj k) as [[[b [|]]|]|e] eqn:Hp; try discriminate.
  - injection H as ->. exists k.
    split; [lia|]. split; [assumption|]. intros j Hj. lia.
  - destruct (IH (S k) H) as (i & Hi & Hhit & Hprev).
    exists i. split; [lia|]. split; [assumption|].
    intros j Hj. destruct (Nat.eq_dec j k) as [->|Hne]; [eauto|].
    apply Hprev. lia.
Qed.

Lemma first_search (obj : value) (body : value) (i : nat) :
  forall n k,
    (k <= i < k + n)%nat ->
    probe obj i = Ok (Some (body, true)) ->
    (forall j, (k <= j < i)%nat -> exists b, probe obj j = Ok (Some (b, false))) ->
    search obj (seq k n) = Some body.
Proof.
  induction n as [|n IH]; intros k Hk Hhit Hprev; [lia|].
  cbn [seq search].
  destruct (Nat.eq_dec k i) as [->|Hne].
  - rewrite Hhit. reflexivity.
  - destruct (Hprev k ltac:(lia)) as (b & Hb). rewrite Hb.
    apply IH; [lia|assumption|]. intros j Hj. apply Hprev. lia.
Qed.

(** The matched body is the first qualifying entry of the body list. *)
Lemma match_predicate_first (obj body : value) :
  match_predicate obj = Some body <->
  first_level obj = Ok true /\ exists i, first_qualifying obj i body.
Proof.
  unfold match_predicate, first_qualifying. split.
  - destruct (first_level obj) as [[|]|]; try discriminate.
    intros H. split; [reflexivity|].
    apply search_first in H as (i & _ & Hhit & Hprev).
    exists i. split; [assumption|]. intros j Hj. apply Hprev. lia.
  - intros (-> & i & Hhit & Hprev).
    apply first_search with (i := i); [|assumption|intros; apply Hprev; lia].
    assert (S i + 2 <= scan_fuel obj)%nat; [|lia].
    apply probed_bound. intros j Hj.
    destruct (Nat.eq_dec j i) as [->|Hne]; [eauto|].
    destruct (Hprev j ltac:(lia)) as (b & Hb). eauto.
Qed.

Lemma get_prop_defined (v : value) (k : jstring) :
  v <> VUndefined -> v <> VNull -> exists r, get_prop v k = Ok r.
Proof.
  destruct v; simpl; intros; try congruence; eauto.
  - destruct (str_eqb k (lit "length")); eauto.
  - destruct (str_eqb k (lit "length")); eauto.
  - destruct (lookup k props); eauto.
Qed.

Lemma get_prop_Ok_defined (v r : value) (k : jstring) :
  get_prop v k = Ok r -> v <> VUndefined /\ v <> VNull.
Proof. destruct v; simpl; intros; split; congruence. Qed.

Lemma truthy_defined (v : value) :
  truthy v = true -> v <> VUndefined /\ v <> VNull.
Proof. destruct v; simpl; intros; split; congruence. Qed.

(** A matched record always yields its row: building the arguments of
    the insert cannot throw. *)
Lemma row_of_matched (obj body : value) :
  match_predicate obj = Some body -> exists row, row_of obj body = Ok row.
Proof.
  intros H. apply match_predicate_first in H as (Hfl & i & Hhit & _).
  apply probe_inv in Hhit as (bodies & len & H1 & _ & _ & _ & Hq).
  apply qualifies_defined in Hq as (Hb1 & Hb2).
  apply get_prop_Ok_defined in H1 as (Ho1 & Ho2).
  unfold first_level, rbind in Hfl.
  destruct (get_prop obj (lit "bodies")) as [b|]; [|discriminate].
  destruct (truthy b); [|discriminate]. cbn [negb] in Hfl.
  destruct (get_prop obj (lit "population")) as [p|]; [|discriminate].
  destruct (is_zero p); [|discriminate]. cbn [negb] in Hfl.
  unfold row_of, rbind.
  destruct (get_prop_defined (lit "name") Ho1 Ho2) as (name & ->).
  destruct (get_prop obj (lit "coords")) as [c|]; [|discriminate].
  injection Hfl as Hc. apply truthy_defined in Hc as (Hc1 & Hc2).
  destruct (get_prop_defined (lit "x") Hc1 Hc2) as (vx & ->).
  destruct (get_prop_defined (lit "y") Hc1 Hc2) as (vy & ->).
  destruct (get_prop_defined (lit "z") Hc1 Hc2) as (vz & ->).
  destruct (get_prop_defined (lit "name") Hb1 Hb2) as (bn & ->).
  eauto.
Qed.

(** What a row of the table says of the record it comes from. *)
Lemma row_for_inv (obj : value) (row : Row) :
  In row (row_for obj) ->
  exists body args,
    match_predicate obj = Some body
    /\ row_of obj body = Ok args
    /\ bound args = Ok row.
Proof.
  unfold row_for, rbind.
  destruct (match_predicate obj) as [body|]; [|intros []].
  destruct (row_of obj body) as [args|] eqn:Ha; [|intros []].
  destruct (bound args) as [r|] eqn:Hb; [|intros []].
  intros [<-|[]]. exists body, args. auto.
Qed.

Lemma row_for_length (obj : value) :
  (length (row_for obj) <= if is_matched obj then 1 else 0)%nat.
Proof.
  unfold row_for, is_matched.
  destruct (match_predicate obj) as [body|]; [|reflexivity].
  destruct (row_of obj body >>= bound); cbn [length]; lia.
Qed.

Lemma persisted_count (l : list value) :
  (length (flat_map row_for l) <= length (filter is_matched l))%nat.
Proof.
  induction l as [|obj l IH]; [reflexivity|].
  cbn [flat_map filter]. rewrite length_app.
  pose proof (row_for_length obj).
  destruct (is_matched obj); cbn [length]; lia.
Qed.

Lemma added_rows (existing : list Row) (lines : list jstring) :
  added existing lines = persisted_rows lines.
Proof.
  unfold added.
  destruct (processFile_spec existing lines) as (_ & Hd & _).
  rewrite Hd, skipn_app, skipn_all, Nat.sub_diag. reflexivity.
Qed.

Lemma added_inv (existing : list Row) (lines : list jstring) (row : Row) :
  In row (added existing lines) ->
  exists obj body args,
    In obj (records lines)
    /\ match_predicate obj = Some body
    /\ row_of obj body = Ok args
    /\ bound args = Ok row.
Proof.
  rewrite added_rows. unfold persisted_rows. intros Hin.
  apply in_flat_map in Hin as (obj & Hobj & Hrow).
  apply row_for_inv in Hrow as (body & args & Hm & Ha & Hb).
  exists obj, body, args. auto.
Qed.

(** The arguments of the insert, one by one. *)
Lemma row_of_inv (obj body : value) (args : Row) :
  row_of obj body = Ok args ->
  exists coords,
    get_prop obj (lit "name") = Ok (system_name args)
    /\ get_prop obj (lit "coords") = Ok coords
    /\ get_prop coords (lit "x") = Ok (x args)
    /\ get_prop coords (lit "y") = Ok (y args)
    /\ get_prop coords (lit "z") = Ok (z args)
    /\ get_prop body (lit "name") = Ok (matched_body_name args)
    /\ matched_body args = JSON.stringify body
    /\ system_data args = JSON.stringify obj.
Proof.
  unfold row_of, rbind. intros H.
  destruct (get_prop obj (lit "name")) as [name|]; [|discriminate].
  destruct (get_prop obj (lit "coords")) as [c|]; [|discriminate].
  destruct (get_prop c (lit "x")) as [vx|] eqn:Hx; [|discriminate].
  destruct (get_prop c (lit "y")) as [vy|] eqn:Hy; [|discriminate].
  destruct (get_prop c (lit "z")) as [vz|] eqn:Hz; [|discriminate].
  destruct (get_prop body (lit "name")) as [bn|]; [|discriminate].
  injection H as <-. exists c. repeat split; assumption.
Qed.

(** With a first argument that is neither an array nor an object, the
    arguments are the bindings. *)
Lemma bound_in_place (args row : Row) :
  bindable (system_name args) = true -> bound args = Ok row -> row = args.
Proof.
  unfold bound. intros Hn.
  destruct (system_name args); try discriminate;
    destruct (forallb bindable _); congruence.
Qed.

(** C1: the code at the failing input.  Both records of
    [unbindable_file] are decoded and matched.  For the second one the
    arguments of the insert are built, with the object of its [coords.x]
    among them, and binding them throws a [TypeError], which the [catch]
    of line 113 swallows: the run completes with one row for two matched
    records, and has counted one processed record out of two checked. *)
Lemma C1_matched_record_without_row :
  exists first second body args row,
    records unbindable_file = [first; second]
    /\ is_matched first = true
    /\ match_predicate second = Some body
    /\ row_of second body = Ok args
    /\ x args = VObj []
    /\ (forall st, insertStmt_run args st = (Raised TypeError, st))
    /\ fst (processFile [] unbindable_file) = Done tt
    /\ added [] unbindable_file = [row]
    /\ system_name row = VStr (lit "A")
    /\ processed (at_end [] unbindable_file) = 1
    /\ totalChecked (at_end [] unbindable_file) = 2.
Proof.
  do 5 eexists.
  split; [vm_compute; reflexivity|].
  split; [vm_compute; reflexivity|].
  split; [vm_compute; reflexivity|].
  split; [vm_compute; reflexivity|].
  split; [reflexivity|].
  split; [intros st; reflexivity|].
  split; [vm_compute; reflexivity|].
  split; [vm_compute; reflexivity|].
  repeat split.
Qed.

Lemma is_true_iff (v : value) : is_true v = true <-> v = VBool true.
Proof.
  destruct v as [| |[|]| | | | | |]; simpl; split; congruence.
Qed.

Lemma truthy_not_null (v : value) : truthy v = true -> is_null v = false.
Proof. destruct v; simpl; congruence. Qed.

(** Lines 81-83, as three tests on the body. *)
Lemma qualifies_true_iff (body : value) :
  qualifies body = Ok true <->
  has_ring body /\ landable body /\ atmosphere_truthy body.
Proof.
  unfold has_ring, landable, atmosphere_truthy, qualifies, rbind. split.
  - intros H.
    destruct (get_prop body (lit "rings")) as [rings|] eqn:H1; [|discriminate].
    destruct (truthy rings) eqn:Hr; [|discriminate]. cbn [negb] in H.
    destruct (get_prop rings (lit "length")) as [len|] eqn:H2; [|discriminate].
    destruct (positive len) as [[|]|] eqn:Hp; try discriminate. cbn [negb] in H.
    destruct (get_prop body (lit "isLandable")) as [l|] eqn:H3; [|discriminate].
    destruct (is_true l) eqn:Hl; [|discriminate]. cbn [negb] in H.
    apply is_true_iff in Hl. subst l.
    destruct (get_prop body (lit "atmosphereType")) as [a|] eqn:H4;
      [|discriminate].
    destruct (truthy a) eqn:Ha; [|discriminate].
    split; [exists rings, len; repeat split; assumption|].
    split; [reflexivity|].
    exists a. split; [reflexivity|assumption].
  - intros ((rings & len & -> & Hr & Hlen & Hp) & -> & (a & -> & Ha)).
    rewrite Hr. cbn [negb]. rewrite Hlen, Hp. cbn [negb is_true].
    rewrite Ha. cbn [negb]. rewrite (truthy_not_null _ Ha). reflexivity.
Qed.

Lemma probe_hit_iff (obj : value) (i : nat) (body : value) :
  probe obj i = Ok (Some (body, true)) <->
  entry obj i body /\ qualifies body = Ok true.
Proof.
  split.
  - intros H. apply probe_inv in H as (bodies & len & H1 & H2 & H3 & H4 & H5).
    split; [exists bodies, len; repeat split; assumption|assumption].
  - intros ((bodies & len & H1 & H2 & H3 & H4) & H5).
    unfold probe, rbind. rewrite H1, H2, H3, H4, H5. reflexivity.
Qed.

Lemma first_level_iff (obj : value) :
  first_level obj = Ok true <->
  exists bodies population coords,
    get_prop obj (lit "bodies") = Ok bodies /\ truthy bodies = true
    /\ get_prop obj (lit "population") = Ok population
    /\ is_zero population = true
    /\ get_prop obj (lit "coords") = Ok coords /\ truthy coords = true.
Proof.
  unfold first_level, rbind. split.
  - intros H.
    destruct (get_prop obj (lit "bodies")) as [b|]; [|discriminate].
    destruct (truthy b) eqn:Hb; [|discriminate]. cbn [negb] in H.
    destruct (get_prop obj (lit "population")) as [p|]; [|discriminate].
    destruct (is_zero p) eqn:Hp; [|discriminate]. cbn [negb] in H.
    destruct (get_prop obj (lit "coords")) as [c|]; [|discriminate].
    injection H as Hc. exists b, p, c. repeat split; assumption.
  - intros (b & p & c & -> & Hb & -> & Hp & -> & Hc).
    rewrite Hb, Hp, Hc. reflexivity.
Qed.

(** C2, as stated, fails: with the empty string as its atmosphere type
    the only body of this record has a ring, is landable and has a
    non-null atmosphere type, and the record is not matched. *)
Lemma C2_counterexample :
  exists obj,
    JSON.parse empty_atmosphere_text = Some obj
    /\ claimed_match obj
    /\ match_predicate obj = None.
Proof.
  eexists. split; [vm_compute; reflexivity|].
  split; [|vm_compute; reflexivity].
  split; [vm_compute; reflexivity|].
  exists 0%nat. eexists. split.
  { eexists. eexists. repeat split; vm_compute; reflexivity. }
  split; [|split].
  - eexists. eexists. repeat split; vm_compute; reflexivity.
  - vm_compute; reflexivity.
  - eexists. split; vm_compute; reflexivity.
Qed.

Unset Implicit Arguments.

(** The Match Predicate, exactly: the scan has to reach the body it
    accepts. *)
Lemma match_predicate_exact (obj : value) :
  match_predicate obj <> None <->
  first_level obj = Ok true
  /\ exists i body,
       entry obj i body
       /\ has_ring body /\ landable body /\ atmosphere_truthy body
       /\ forall j, (j < i)%nat -> exists b, probe obj j = Ok (Some (b, false)).
Proof.
  split.
  - destruct (match_predicate obj) as [body|] eqn:Hm; [|congruence].
    intros _. apply match_predicate_first in Hm as (Hfl & i & Hhit & Hprev).
    split; [assumption|]. exists i, body.
    apply probe_hit_iff in Hhit as (He & Hq).
    apply qualifies_true_iff in Hq as (Hr & Hl & Ha).
    repeat split; assumption.
  - intros (Hfl & i & body & He & Hr & Hl & Ha & Hprev).
    assert (Hm : match_predicate obj = Some body); [|congruence].
    apply match_predicate_first. split; [assumption|].
    exists i. split; [|assumption].
    apply probe_hit_iff. split; [assumption|].
    apply qualifies_true_iff. repeat split; assumption.
Qed.

(** Numbers compare by value. *)
Lemma number_ltb_scaled (a b : number) (c : Z) :
  c <= expo a -> c <= expo b ->
  number_ltb a b
  = (mant a * 10 ^ (expo a - c) <? mant b * 10 ^ (expo b - c)).
Proof.
  intros Ha Hb. unfold number_ltb.
  set (e := Z.min (expo a) (expo b)).
  assert (He : c <= e) by (subst e; lia).
  assert (Hp : 0 < 10 ^ (e - c)) by (apply Z.pow_pos_nonneg; lia).
  replace (10 ^ (expo a - c)) with (10 ^ (expo a - e) * 10 ^ (e - c))
    by (rewrite <- Z.pow_add_r by (subst e; lia); f_equal; lia).
  replace (10 ^ (expo b - c)) with (10 ^ (expo b - e) * 10 ^ (e - c))
    by (rewrite <- Z.pow_add_r by (subst e; lia); f_equal; lia).
  rewrite !Z.mul_assoc.
  destruct (Z.ltb_spec (mant a * 10 ^ (expo a - e)) (mant b * 10 ^ (expo b - e)));
    symmetry; [apply Z.ltb_lt|apply Z.ltb_ge]; nia.
Qed.

Lemma strip_zeros_value :
  forall (fuel : nat) (m e : Z),
    e <= expo (strip_zeros fuel m e)
    /\ mant (strip_zeros fuel m e) * 10 ^ (expo (strip_zeros fuel m e) - e) = m.
Proof.
  induction fuel as [|f IH]; intros m e; cbn [strip_zeros].
  - cbn [mant expo]. rewrite Z.sub_diag, Z.pow_0_r. lia.
  - destruct (m mod 10 =? 0) eqn:E.
    + apply Z.eqb_eq in E. destruct (IH (m / 10) (e + 1)) as (H1 & H2).
      split; [lia|].
      replace (expo (strip_zeros f (m / 10) (e + 1)) - e)
        with (expo (strip_zeros f (m / 10) (e + 1)) - (e + 1) + 1) by lia.
      rewrite Z.pow_add_r, Z.pow_1_r, Z.mul_assoc, H2 by lia.
      pose proof (Z.div_mod m 10 ltac:(lia)). lia.
    + cbn [mant expo]. rewrite Z.sub_diag, Z.pow_0_r. lia.
Qed.

Lemma of_nat_number_value (n : nat) :
  0 <= expo (of_nat_number n)
  /\ mant (of_nat_number n) * 10 ^ expo (of_nat_number n) = Z.of_nat n.
Proof.
  unfold of_nat_number, normalize.
  destruct (Z.of_nat n =? 0) eqn:E.
  - apply Z.eqb_eq in E. cbn. lia.
  - destruct (strip_zeros_value (Z.to_nat (Z.log2 (Z.abs (Z.of_nat n))))
                (Z.of_nat n) 0) as (H1 & H2).
    rewrite Z.sub_0_r in H2. split; assumption.
Qed.

(** The loop test [i < len] holds below any index it holds at. *)
Lemma counter_lt_below (i j : nat) (len : value) :
  counter_lt i len = Ok true -> (j <= i)%nat -> counter_lt j len = Ok true.
Proof.
  unfold counter_lt, rbind. destruct (to_number len) as [n|]; [|discriminate].
  intros H Hj. injection H as H. f_equal.
  destruct n as [|[|]|b]; cbn [xnum_ltb] in *; try discriminate; try reflexivity.
  destruct (of_nat_number_value i) as (Hi0 & Hi).
  destruct (of_nat_number_value j) as (Hj0 & Hj').
  set (c := Z.min 0 (expo b)).
  rewrite (number_ltb_scaled (of_nat_number i) b c) in H by (subst c; lia).
  rewrite (number_ltb_scaled (of_nat_number j) b c) by (subst c; lia).
  apply Z.ltb_lt in H. apply Z.ltb_lt.
  assert (Hs : forall a, 0 <= expo a ->
             mant a * 10 ^ (expo a - c) = mant a * 10 ^ expo a * 10 ^ (- c)).
  { intros a Ha. rewrite <- Z.mul_assoc, <- Z.pow_add_r by (subst c; lia).
    f_equal. }
  rewrite Hs in H |- * by assumption. rewrite Hi in H. rewrite Hj'.
  assert (0 < 10 ^ (- c)) by (apply Z.pow_pos_nonneg; subst c; lia).
  nia.
Qed.

Lemma get_index_defined (bodies : value) (i : nat) :
  bodies <> VUndefined -> bodies <> VNull ->
  exists b, get_index bodies i = Ok b.
Proof.
  destruct bodies; cbn [get_index]; intros; try congruence; eauto.
  - destruct (nth_error s i); eauto.
  - destruct (nth_error items i); eauto.
  - destruct (lookup _ props); eauto.
Qed.

Lemma entry_below (obj : value) (i j : nat) (body : value) :
  entry obj i body -> (j <= i)%nat -> exists b, entry obj j b.
Proof.
  intros (bodies & len & H1 & H2 & H3 & H4) Hj.
  apply get_prop_Ok_defined in H2 as Hdef. destruct Hdef as (Hd1 & Hd2).
  destruct (get_index_defined bodies j Hd1 Hd2) as (b & Hb).
  exists b, bodies, len. repeat split; try assumption.
  now apply counter_lt_below with (i := i).
Qed.

Lemma prefix_scan (obj : value) (i : nat) :
  (forall j, (j < i)%nat -> exists b h, probe obj j = Ok (Some (b, h))) ->
  (forall j, (j < i)%nat -> exists b, probe obj j = Ok (Some (b, false)))
  \/ exists j b, (j < i)%nat /\ probe obj j = Ok (Some (b, true)).
Proof.
  induction i as [|i IH]; intros H.
  - left. intros j Hj. lia.
  - destruct IH as [Hall|(j & b & Hj & Hb)].
    + intros j Hj. apply H. lia.
    + destruct (H i ltac:(lia)) as (b & [|] & Hb).
      * right. exists i, b. split; [lia|assumption].
      * left. intros j Hj.
        destruct (Nat.eq_dec j i) as [->|Hne]; [eauto|]. apply Hall. lia.
    + right. exists j, b. split; [lia|assumption].
Qed.

(** Among entries that can all be tested, the first that qualifies. *)
Lemma first_hit (obj : value) :
  (forall i body, entry obj i body -> exists hit, qualifies body = Ok hit) ->
  forall i body,
    entry obj i body -> qualifies body = Ok true ->
    exists i' body', first_qualifying obj i' body'.
Proof.
  intros Htest. induction i as [i IH] using lt_wf_ind. intros body He Hq.
  destruct (prefix_scan obj i) as [Hall|(j & b & Hj & Hb)].
  - intros j Hj. destruct (entry_below obj i j body He ltac:(lia)) as (b & Hb).
    destruct (Htest j b Hb) as (h & Hh).
    exists b, h. destruct Hb as (bodies & len & H1 & H2 & H3 & H4).
    unfold probe, rbind. rewrite H1, H2, H3, H4, Hh. reflexivity.
  - exists i, body. split; [apply probe_hit_iff; tauto|exact Hall].
  - apply probe_hit_iff in Hb as (Hej & Hqj). apply (IH j Hj b Hej Hqj).
Qed.

(** A record that fails a first-level test leaves the [try] at line 73:
    the body list is not looked at, and nothing is thrown. *)
Lemma first_level_skips_scan (obj : value) (st : state) :
  JSON.parse (buffer st) = Some obj ->
  first_level obj = Ok false ->
  try_block st
  = (Done tt, with_totalChecked (totalChecked st + 1) (with_buffer [] st)).
Proof.
  intros Hparse Hfl. unfold try_block, bind at 1, read. rewrite Hparse.
  unfold first_level, rbind in Hfl. unfold bind, update, eval, ret.
  destruct (get_prop obj (lit "bodies")) as [b|]; [|discriminate].
  destruct (truthy b); cbn [negb] in *; [|reflexivity].
  destruct (get_prop obj (lit "population")) as [p|]; [|discriminate].
  destruct (is_zero p); cbn [negb] in *; [|reflexivity].
  destruct (get_prop obj (lit "coords")) as [c|]; [|discriminate].
  destruct (truthy c); cbn [negb] in *; [discriminate|reflexivity].
Qed.

(** C2 (amended). For a decoded record on whose body-list entries the
    three tests can be evaluated (no entry is null), the record is matched
    if and only if its [bodies] is truthy, its [population] is the number
    zero, its [coords] is truthy, and some entry of the body list has
    rings of positive length, has [isLandable] equal to [true] and has a
    truthy atmosphere type; a record that fails a first-level test is not
    matched whatever its body list holds, and the code leaves it at line
    73 without reading the body list. *)
Theorem C2_match_predicate :
  forall obj : value,
    (forall i body, entry obj i body -> exists hit, qualifies body = Ok hit) ->
    (match_predicate obj <> None <->
     (exists bodies population coords,
         get_prop obj (lit "bodies") = Ok bodies /\ truthy bodies = true
         /\ get_prop obj (lit "population") = Ok population
         /\ is_zero population = true
         /\ get_prop obj (lit "coords") = Ok coords /\ truthy coords = true)
     /\ exists i body,
          entry obj i body
          /\ has_ring body /\ landable body /\ atmosphere_truthy body)
    /\ (first_level obj <> Ok true -> match_predicate obj = None)
    /\ (forall st,
          JSON.parse (buffer st) = Some obj ->
          first_level obj = Ok false ->
          try_block st
          = (Done tt,
             with_totalChecked (totalChecked st + 1) (with_buffer [] st))).
Proof.
  intros obj Htest. split; [|split; [|apply first_level_skips_scan]].
  - rewrite <- first_level_iff. split.
    + intros H. apply match_predicate_exact in H
        as (Hfl & i & body & He & Hr & Hl & Ha & _).
      split; [assumption|]. exists i, body. tauto.
    + intros (Hfl & i & body & He & Hr & Hl & Ha).
      assert (Hq : qualifies body = Ok true)
        by (apply qualifies_true_iff; tauto).
      destruct (first_hit obj Htest i body He Hq) as (i' & body' & Hfirst).
      assert (Hm : match_predicate obj = Some body'); [|congruence].
      apply match_predicate_first. split; [assumption|]. eauto.
  - unfold match_predicate. intros H.
    destruct (first_level obj) as [[|]|]; congruence.
Qed.

(** The record of the specification's first scenario: body [A] has no
    ring, body [B] qualifies. *)
Lemma C2_match_predicate_witness :
  exists obj,
    JSON.parse (strip_comma sol_text) = Some obj
    /\ match_predicate obj <> None
    /\ exists i body,
         entry obj i body
         /\ has_ring body /\ landable body /\ atmosphere_truthy body.
Proof.
  eexists. split; [vm_compute; reflexivity|].
  match goal with
  | |- ?A <> None /\ _ =>
      match A with
      | match_predicate ?o =>
          assert (Htest : forall i body,
                     entry o i body -> exists hit, qualifies body = Ok hit)
      end
  end.
  { intros i body (bodies & len & H1 & H2 & H3 & H4).
    vm_compute in H1. injection H1 as <-.
    destruct i as [|[|i]].
    - vm_compute in H4. injection H4 as <-. eexists. vm_compute. reflexivity.
    - vm_compute in H4. injection H4 as <-. eexists. vm_compute. reflexivity.
    - cbn [get_index nth_error] in H4.
      rewrite nth_error_nil in H4. injection H4 as <-.
      vm_compute in H2. injection H2 as <-.
      exfalso. clear - H3. unfold counter_lt, rbind in H3.
      cbn [to_number] in H3. injection H3 as H3.
      pose proof (of_nat_number_value (S (S i))) as (Hx & Hv).
      cbn [xnum_ltb] in H3.
      rewrite (number_ltb_scaled _ _ 0) in H3; [|exact Hx|cbn; lia].
      apply Z.ltb_lt in H3. rewrite Z.sub_0_r, Hv in H3.
      cbn [mant expo Z.sub Z.opp Z.add Z.pow Z.pow_pos Pos.iter Z.mul Pos.mul]
        in H3.
      lia. }
  match goal with
  | |- match_predicate ?o <> None /\ _ =>
      pose proof (C2_match_predicate o Htest) as (Hiff & _ & _)
  end.
  assert (Hm : match_predicate
                 (VObj
                    [(lit "name", VStr (lit "Sol"));
                     (lit "population", VNum zero);
                     (lit "coords",
                      VObj [(lit "x", VNum zero); (lit "y", VNum zero);
                            (lit "z", VNum zero)]);
                     (lit "bodies",
                      VArr
                        [VObj [(lit "name", VStr (lit "A"));
                               (lit "rings", VArr []);
                               (lit "isLandable", VBool true);
                               (lit "atmosphereType", VStr (lit "Thin"))];
                         VObj [(lit "name", VStr (lit "B"));
                               (lit "rings",
                                VArr [VObj [(lit "name", VStr (lit "R1"))]]);
                               (lit "isLandable", VBool true);
                               (lit "atmosphereType", VStr (lit "Thick"))]])])
               <> None) by (vm_compute; discriminate).
  split; [exact Hm|]. apply Hiff in Hm. apply Hm.
Defined.

(** The first scenario of the specification's section 8: one row, for
    body [B]. *)
Lemma sol_scenario :
  exists row,
    added [] sol_file = [row]
    /\ system_name row = VStr (lit "Sol")
    /\ matched_body_name row = VStr (lit "B").
Proof. eexists. split; [vm_compute; reflexivity|]. split; reflexivity. Qed.

(** Two qualifying bodies: one row, for the first of them. *)
Lemma twin_scenario :
  exists row,
    added [] twin_file = [row] /\ matched_body_name row = VStr (lit "P").
Proof. eexists. split; [vm_compute; reflexivity|]. reflexivity. Qed.

(** ** Records on several lines *)

(** C3: the code at the failing input.  The record on one line is
    decoded; broken after the comma between its members it is not: the
    comma is stripped from the first line, the buffer never parses, and
    the run ends with the fragment still in the buffer, although the two
    lines with a line feed between them are the same JSON value.  A
    record with a closing bracket alone on a line is not decoded either:
    that line ends the ingestion. *)
Lemma C3_split_after_comma :
  records unsplit_file
  = [VObj [(lit "name", VStr (lit "Sol")); (lit "population", VNum zero)]]
  /\ JSON.parse (json_text "{'name':'Sol'," ++ [10%N]
                 ++ json_text "'population':0}")
     = Some (VObj [(lit "name", VStr (lit "Sol"));
                   (lit "population", VNum zero)])
  /\ records split_file = []
  /\ buffer (at_end [] split_file) = json_text "{'name':'Sol' 'population':0} "
  /\ totalChecked (at_end [] split_file) = 0
  /\ JSON.parse (json_text "{'name':'Sol','bodies':[ ] }")
     = Some (VObj [(lit "name", VStr (lit "Sol")); (lit "bodies", VArr [])])
  /\ records bracket_file = [].
Proof. repeat split; vm_compute; reflexivity. Qed.

(** ** Coordinates *)

(** C4, as stated, fails: the record of [partial_coords_file] passes the
    coordinate test with an [x] and no [y] or [z], and its row has the
    first coordinate column set and the other two NULL. *)
Lemma C4_counterexample :
  exists row,
    added [] partial_coords_file = [row]
    /\ x row = VNum (Num 1 0)
    /\ y row = VUndefined
    /\ z row = VUndefined
    /\ all_or_none row = false.
Proof.
  eexists. split; [vm_compute; reflexivity|]. repeat split.
Qed.

(** A record whose [name] is an array of seven values: the array is
    taken as the bindings, and the coordinate columns hold its second,
    third and fourth value, not the coordinates of the record.  With an
    object as [name] nothing is bound, and every column is NULL. *)
Lemma array_name_scenario :
  exists obj coords row,
    records array_name_file = [obj]
    /\ get_prop obj (lit "coords") = Ok coords
    /\ get_prop coords (lit "x") = Ok (VNum (Num 1 0))
    /\ added [] array_name_file = [row]
    /\ system_name row = VStr (lit "a")
    /\ x row = VNum (Num 9 0)
    /\ y row = VNum (Num 8 0)
    /\ z row = VNum (Num 7 0)
    /\ matched_body_name row = VStr (lit "b")
    /\ matched_body row = VStr (lit "c")
    /\ system_data row = VStr (lit "d").
Proof.
  do 3 eexists.
  split; [vm_compute; reflexivity|].
  split; [vm_compute; reflexivity|].
  split; [vm_compute; reflexivity|].
  split; [vm_compute; reflexivity|].
  repeat split.
Qed.

Lemma object_name_scenario :
  exists obj, records object_name_file = [obj]
  /\ is_matched obj = true
  /\ added [] object_name_file = [unbound_row].
Proof.
  eexists. repeat split; vm_compute; reflexivity.
Qed.

(** C4 (amended). Every row a run adds comes from a decoded, matched
    record whose [coords] is truthy, the only coordinate test made; when
    the [name] of the record is neither an array nor an object, the [x],
    [y], [z] columns of the row are the [x], [y], [z] properties of that
    [coords] value, [undefined] (stored as NULL) where the property is
    missing. *)
Theorem C4_coordinate_columns :
  forall (existing : list Row) (lines : list jstring) (row : Row),
    In row (added existing lines) ->
    exists obj body name coords,
      In obj (records lines)
      /\ match_predicate obj = Some body
      /\ get_prop obj (lit "name") = Ok name
      /\ get_prop obj (lit "coords") = Ok coords
      /\ truthy coords = true
      /\ (bindable name = true ->
          get_prop coords (lit "x") = Ok (x row)
          /\ get_prop coords (lit "y") = Ok (y row)
          /\ get_prop coords (lit "z") = Ok (z row)).
Proof.
  intros existing lines row Hin.
  apply added_inv in Hin as (obj & body & args & Hobj & Hm & Ha & Hb).
  apply row_of_inv in Ha as (c & Hn & Hc & Hx & Hy & Hz & _).
  apply match_predicate_first in Hm as Hfirst.
  destruct Hfirst as (Hfl & _).
  apply first_level_iff in Hfl as (b & p & c' & _ & _ & _ & _ & Hc' & Htc).
  rewrite Hc in Hc'. injection Hc' as <-.
  exists obj, body, (system_name args), c.
  repeat split; try assumption;
    rewrite (@bound_in_place args row H Hb); assumption.
Qed.

(** The row of [partial_coords_file]. *)
Lemma C4_coordinate_columns_witness :
  exists obj body name coords,
    In obj (records partial_coords_file)
    /\ match_predicate obj = Some body
    /\ get_prop obj (lit "name") = Ok name
    /\ get_prop obj (lit "coords") = Ok coords
    /\ truthy coords = true
    /\ (bindable name = true ->
        get_prop coords (lit "x") = Ok (VNum (Num 1 0))
        /\ get_prop coords (lit "y") = Ok VUndefined
        /\ get_prop coords (lit "z") = Ok VUndefined).
Proof.
  apply (C4_coordinate_columns [] partial_coords_file
           {| system_name := VStr (lit "S"); x := VNum (Num 1 0);
              y := VUndefined; z := VUndefined;
              matched_body_name := VStr (lit "B");
              matched_body :=
                VStr (json_text "{'name':'B','rings':[{'name':'R'}],'isLandable':true,'atmosphereType':'Thin'}");
              system_data :=
                VStr (json_text "{'name':'S','population':0,'coords':{'x':1},'bodies':[{'name':'B','rings':[{'name':'R'}],'isLandable':true,'atmosphereType':'Thin'}]}") |}).
  vm_compute. left. reflexivity.
Defined.

(** ** The two states of the reassembler *)

(** C5, as stated, fails: in the outside-array state a line holding the
    array-close token is not without effect, it ends the ingestion; a
    file that has one before its array is read to no record. *)
Lemma C5_counterexample :
  insideArray (initial []) = false
  /\ trim (lit "]") <> lit "["
  /\ loop_body (lit "]") (initial []) = (Done Break, initial [])
  /\ records close_first_file = []
  /\ added [] close_first_file = [].
Proof.
  repeat split; try (vm_compute; reflexivity).
  vm_compute. discriminate.
Qed.

(** C5 (amended). The run starts outside the array.  A line whose
    trimmed content is the array-open token sets the inside-array state,
    whatever the state was; a line whose trimmed content is the
    array-close token ends the ingestion in either state, and what
    follows it is not read; any other line seen outside the array leaves
    the state as it is; a line handled inside the array never ends the
    ingestion. *)
Theorem C5_state_machine :
  forall (existing : list Row) (line : jstring) (rest : list jstring)
         (st : state),
    insideArray (initial existing) = false
    /\ if str_eqb (trim line) (lit "[") then
         loop_body line st = (Done Continue, with_insideArray true st)
       else if str_eqb (trim line) (lit "]") then
         loop_body line st = (Done Break, st)
         /\ for_lines (line :: rest) st = (Done tt, st)
       else if negb (insideArray st) then
         loop_body line st = (Done Continue, st)
       else fst (loop_body line st) <> Done Break.
Proof.
  intros existing line rest st. split; [reflexivity|].
  cbn [for_lines]. unfold bind, loop_body.
  destruct (str_eqb (trim line) (lit "[")); [reflexivity|].
  destruct (str_eqb (trim line) (lit "]")); [split; reflexivity|].
  destruct (negb (insideArray st)); [reflexivity|].
  destruct (try_block _) as [[[]|e|] st2]; cbn [fst]; try discriminate.
  destruct (catch_block st2) as [[[]|e'|] st3]; cbn [fst]; discriminate.
Qed.

(** ** Batches *)

(** C6. Every run completes.  With [rows] the rows the run adds to the
    table: when the loop is left, those written in whole batches of 500
    are durable and the others, fewer than 500, are in an open
    transaction, which is how the store stands after any number of
    lines, and the count of processed records is the number of rows;
    after the final commit every row the run wrote is durable, after the
    rows the table held before, and no transaction is open. *)
Theorem C6_batched_commits :
  forall (existing : list Row) (lines : list jstring),
    let rows := added existing lines in
    let whole := (500 * (length rows / 500))%nat in
    txn (db (at_loop_exit existing lines)) = Some (skipn whole rows)
    /\ durable (db (at_loop_exit existing lines)) = existing ++ firstn whole rows
    /\ (length (skipn whole rows) < 500)%nat
    /\ processed (at_loop_exit existing lines) = Z.of_nat (length rows)
    /\ fst (processFile existing lines) = Done tt
    /\ durable (db (at_end existing lines)) = existing ++ rows
    /\ txn (db (at_end existing lines)) = None.
Proof.
  intros existing lines rows whole. subst rows whole.
  rewrite added_rows.
  destruct (loop_exit_spec existing lines) as (_ & (Ht & Hd & _ & Hp) & _).
  destruct (processFile_spec existing lines) as (Hrun & Hd' & Ht' & _).
  repeat split; try assumption.
  - rewrite length_skipn.
    pose proof (Nat.div_mod_eq (length (persisted_rows lines)) 500).
    pose proof (Nat.mod_upper_bound (length (persisted_rows lines)) 500). lia.
  - rewrite Hrun. reflexivity.
Qed.

(** 501 matching records: the first 500 rows are committed when the
    loop is left, the last one is in the open transaction. *)
Lemma batch_scenario :
  let st := at_loop_exit [] (lit "[" :: repeat sol_text 501) in
  length (durable (db st)) = 500%nat
  /\ option_map (@length Row) (txn (db st)) = Some 1%nat
  /\ batchCount st = 1.
Proof. vm_compute. repeat split. Qed.

(** ** A parse that fails *)

(** C7. No run ends on an exception.  When the buffer with the new line
    appended does not parse, whether it is incomplete or malformed, the
    line ends normally: nothing is decoded, written or counted, and the
    buffer is kept, with one space after it unless it is empty. *)
Theorem C7_failed_parse_keeps_buffer :
  forall (line : jstring) (st : state),
    insideArray st = true ->
    trim line <> lit "[" ->
    trim line <> lit "]" ->
    JSON.parse (buffer st ++ strip_comma (trim line)) = None ->
    loop_body line st
    = (Done Continue,
       with_buffer
         (match buffer st ++ strip_comma (trim line) with
          | [] => []
          | b => b ++ [32%N]
          end) st)
    /\ forall existing lines, fst (processFile existing lines) = Done tt.
Proof.
  intros line st Hin Hopen Hclose Hparse. split.
  - unfold loop_body.
    apply str_eqb_neq in Hopen, Hclose. rewrite Hopen, Hclose, Hin.
    cbn [negb]. rewrite try_block_unparsed by exact Hparse.
    rewrite (keep_spec (b := buffer st ++ strip_comma (trim line)))
      by reflexivity.
    unfold keep.
    destruct (buffer st ++ strip_comma (trim line)); reflexivity.
  - intros existing lines.
    destruct (processFile_spec existing lines) as (Hrun & _).
    rewrite Hrun. reflexivity.
Qed.

(** The first line of a record that goes on: the buffer keeps it, less
    its comma, and a space. *)
Lemma C7_failed_parse_keeps_buffer_witness :
  loop_body (json_text "{'name':'Sol',") (with_insideArray true (initial []))
  = (Done Continue,
     with_buffer (json_text "{'name':'Sol' ")
       (with_insideArray true (initial []))).
Proof.
  apply (C7_failed_parse_keeps_buffer (json_text "{'name':'Sol',")
           (with_insideArray true (initial []))).
  - reflexivity.
  - vm_compute; discriminate.
  - vm_compute; discriminate.
  - vm_compute; reflexivity.
Defined.

(** ** The final report *)

(** C10. A run that has scanned no complete record still completes with
    its final commit, and its last progress line divides zero by zero:
    the rate is NaN and the line reads [Match rate: NaN%]. *)
Theorem C10_final_report_nan :
  forall (existing : list Row) (lines : list jstring),
    totalChecked (at_end existing lines) = 0 ->
    fst (processFile existing lines) = Done tt
    /\ durable (db (at_end existing lines)) = existing
    /\ txn (db (at_end existing lines)) = None
    /\ exists msg,
         console (at_end existing lines)
         = console (at_loop_exit existing lines) ++ [msg]
         /\ final msg = true
         /\ shown_rate msg = match_rate 0 0
         /\ PrimFloat.is_nan (shown_rate msg) = true
         /\ render msg
            = Some (lit "Final - Total processed: 0, Total checked: 0, Match rate: NaN%").
Proof.
  intros existing lines Hzero.
  destruct (processFile_spec existing lines)
    as (Hrun & Hd & Ht & Hp & Htc & Hcon).
  rewrite Htc in Hzero.
  assert (Hrec : records lines = [])
    by (destruct (records lines); [reflexivity|simpl in Hzero; lia]).
  unfold persisted_rows in *. rewrite Hrec in *. cbn [flat_map length] in *.
  rewrite app_nil_r in Hd.
  repeat split; try assumption; [rewrite Hrun; reflexivity|].
  eexists. split; [exact Hcon|]. repeat split.
Qed.

(** The file with no element. *)
Lemma C10_final_report_nan_witness :
  fst (processFile [] empty_file) = Done tt
  /\ durable (db (at_end [] empty_file)) = []
  /\ txn (db (at_end [] empty_file)) = None
  /\ exists msg,
       console (at_end [] empty_file)
       = console (at_loop_exit [] empty_file) ++ [msg]
       /\ final msg = true
       /\ shown_rate msg = match_rate 0 0
       /\ PrimFloat.is_nan (shown_rate msg) = true
       /\ render msg
          = Some (lit "Final - Total processed: 0, Total checked: 0, Match rate: NaN%").
Proof.
  apply (C10_final_report_nan [] empty_file). vm_compute. reflexivity.
Defined.



(** ** [JSON.stringify] then [JSON.parse] *)

Unset Implicit Arguments.


Lemma serialize_arr (l : list value) :
  JSON.serialize (VArr l) = 91%N :: items_text l true.
Proof.
  reflexivity.
Qed.

Lemma serialize_obj (props : list (jstring * value)) :
  JSON.serialize (VObj props) = 123%N :: members_text props true.
Proof.
  reflexivity.
Qed.

Lemma well_formed_arr (l : list value) :
  well_formed (VArr l) <-> Forall well_formed l.
Proof.
  cbn [well_formed]. induction l as [|x r IH].
  - split; constructor.
  - split.
    + intros (Hx & Hr). constructor; [assumption|now apply IH].
    + intros H. inversion H; subst. split; [assumption|now apply IH].
Qed.

Lemma well_formed_obj (props : list (jstring * value)) :
  well_formed (VObj props) <->
  key_order (map fst props) /\ Forall (fun kv => well_formed (snd kv)) props.
Proof.
  cbn [well_formed].
  assert (H : (fix all (ps : list (jstring * value)) : Prop :=
                 match ps with
                 | [] => True
                 | (_, x) :: r => well_formed x /\ all r
                 end) props
              <-> Forall (fun kv => well_formed (snd kv)) props).
  { induction props as [|[k x] r IH].
    - split; constructor.
    - split.
      + intros (Hx & Hr). constructor; [assumption|now apply IH].
      + intros H. inversion H; subst. split; [assumption|now apply IH]. }
  tauto.
Qed.

(** *** Strings *)

Ltac Zify.zify_post_hook ::= Z.div_mod_to_equations.

Ltac n_cases :=
  repeat match goal with
         | H : context [N.eqb ?a ?b] |- _ => destruct (N.eqb_spec a b)
         | H : context [N.ltb ?a ?b] |- _ => destruct (N.ltb_spec a b)
         | H : context [N.leb ?a ?b] |- _ => destruct (N.leb_spec a b)
         | |- context [N.eqb ?a ?b] => destruct (N.eqb_spec a b)
         | |- context [N.ltb ?a ?b] => destruct (N.ltb_spec a b)
         | |- context [N.leb ?a ?b] => destruct (N.leb_spec a b)
         end.

Lemma hex_digit_hex_char (d : N) :
  (d < 16)%N -> hex_digit (JSON.hex_char d) = Some d.
Proof.
  intros Hd. unfold hex_digit, JSON.hex_char, is_digit.
  n_cases; cbn [andb]; try lia; f_equal; lia.
Qed.

Lemma hex_digits_value (c : N) :
  (c < 65536)%N ->
  (((c / 4096 mod 16 * 16 + c / 256 mod 16) * 16 + c / 16 mod 16) * 16
   + c mod 16 = c)%N.
Proof.
  intros.
  pose proof (N.div_mod c 16 ltac:(lia)).
  pose proof (N.div_mod (c / 16) 16 ltac:(lia)).
  pose proof (N.div_mod (c / 16 / 16) 16 ltac:(lia)).
  rewrite !N.Div0.div_div in *.
  simpl (16 * 16)%N in *. simpl (16 * 256)%N in *.
  assert (c / 4096 < 16)%N by (apply N.Div0.div_lt_upper_bound; lia).
  rewrite (N.mod_small (c / 4096) 16) by lia.
  lia.
Qed.

Lemma hex4_unicode_escape (c : N) (rest : jstring) :
  (c < 65536)%N ->
  exists h1 h2 h3 h4,
    JSON.unicode_escape c = [92; 117; h1; h2; h3; h4]%N
    /\ JSON.hex4 h1 h2 h3 h4 = Some c.
Proof.
  intros Hc. unfold JSON.unicode_escape.
  do 4 eexists. split; [reflexivity|].
  unfold JSON.hex4.
  rewrite !hex_digit_hex_char by (apply N.mod_upper_bound; lia).
  f_equal. apply hex_digits_value. assumption.
Qed.

Lemma parse_chars_unicode_escape (c : N) (tail : jstring) :
  (c < 65536)%N ->
  JSON.parse_chars (JSON.unicode_escape c ++ tail)
  = JSON.consume c (JSON.parse_chars tail).
Proof.
  intros Hc. destruct (hex4_unicode_escape c tail Hc) as (h1 & h2 & h3 & h4 & -> & Hh).
  cbn [app JSON.parse_chars]. cbn. rewrite Hh. reflexivity.
Qed.

Lemma parse_chars_escape_unit (c : N) (tail : jstring) :
  JSON.parse_chars (JSON.escape_unit c ++ tail)
  = JSON.consume c (JSON.parse_chars tail).
Proof.
  unfold JSON.escape_unit.
  destruct (c =? 8)%N eqn:E8; [apply N.eqb_eq in E8; subst; reflexivity|].
  destruct (c =? 9)%N eqn:E9; [apply N.eqb_eq in E9; subst; reflexivity|].
  destruct (c =? 10)%N eqn:E10; [apply N.eqb_eq in E10; subst; reflexivity|].
  destruct (c =? 12)%N eqn:E12; [apply N.eqb_eq in E12; subst; reflexivity|].
  destruct (c =? 13)%N eqn:E13; [apply N.eqb_eq in E13; subst; reflexivity|].
  destruct (c =? 34)%N eqn:E34; [apply N.eqb_eq in E34; subst; reflexivity|].
  destruct (c =? 92)%N eqn:E92; [apply N.eqb_eq in E92; subst; reflexivity|].
  destruct (c <? 32)%N eqn:E32.
  - apply parse_chars_unicode_escape. apply N.ltb_lt in E32. lia.
  - cbn [app JSON.parse_chars]. rewrite E34, E92, E32. reflexivity.
Qed.

Lemma parse_chars_plain (c : N) (tail : jstring) :
  (55296 <= c)%N ->
  JSON.parse_chars (c :: tail) = JSON.consume c (JSON.parse_chars tail).
Proof.
  intros Hc. cbn [JSON.parse_chars].
  n_cases; try lia. reflexivity.
Qed.

(** The text of a string literal reads back as the string. *)
Lemma parse_chars_escape (rest : jstring) :
  forall (n : nat) (s : jstring),
    (length s <= n)%nat ->
    JSON.parse_chars (JSON.escape s ++ 34%N :: rest) = Some (s, rest).
Proof.
  induction n as [|n IH]; intros s Hlen.
  - destruct s; [reflexivity|simpl in Hlen; lia].
  - destruct s as [|c r]; [reflexivity|].
    cbn [length] in Hlen. cbn [JSON.escape].
    destruct (JSON.is_high c) eqn:Hh.
    + assert (55296 <= c <= 56319)%N as Hc
          by (unfold JSON.is_high in Hh; n_cases; cbn in Hh; try discriminate; lia).
      destruct r as [|lo r'].
      * rewrite parse_chars_unicode_escape by lia. reflexivity.
      * destruct (JSON.is_low lo) eqn:Hl.
        -- assert (56320 <= lo)%N as Hlo
             by (unfold JSON.is_low in Hl; n_cases; cbn in Hl; try discriminate; lia).
           cbn [app]. rewrite !parse_chars_plain by lia.
           rewrite IH by (cbn [length] in Hlen; lia). reflexivity.
        -- rewrite <- app_assoc, parse_chars_unicode_escape by lia.
           rewrite IH by (cbn [length] in *; lia). reflexivity.
    + destruct (JSON.is_low c) eqn:Hl.
      * assert (c <= 57343)%N as Hc
          by (unfold JSON.is_low in Hl; n_cases; cbn in Hl; try discriminate; lia).
        rewrite <- app_assoc, parse_chars_unicode_escape by lia.
        rewrite IH by lia. reflexivity.
      * rewrite <- app_assoc, parse_chars_escape_unit.
        rewrite IH by lia. reflexivity.
Qed.

Lemma parse_chars_quote (s rest : jstring) :
  JSON.parse_chars (JSON.escape s ++ 34%N :: rest) = Some (s, rest).
Proof. apply parse_chars_escape with (n := length s). lia. Qed.

(** *** Numbers *)


Lemma digits_aux_spec :
  forall (fuel : nat) (n : N) (acc : list N),
    (n < 10 * 2 ^ N.of_nat fuel)%N ->
    exists d pre,
      digits_aux fuel n acc = d :: pre ++ acc
      /\ digit_list (d :: pre)
      /\ (n <> 0%N -> d <> 0%N).
Proof.
  induction fuel as [|f IH]; intros n acc Hn.
  - exists n, []. cbn [digits_aux app]. simpl in Hn.
    repeat split; [|auto]. constructor; [lia|constructor].
  - cbn [digits_aux]. destruct (n <? 10)%N eqn:E.
    + apply N.ltb_lt in E. exists n, []. cbn [app].
      repeat split; [|auto]. constructor; [lia|constructor].
    + apply N.ltb_ge in E.
      rewrite Nat2N.inj_succ, N.pow_succ_r' in Hn.
      destruct (IH (n / 10)%N (n mod 10 :: acc)%N) as (d & pre & Heq & Hd & Hnz).
      { apply N.Div0.div_lt_upper_bound. lia. }
      exists d, (pre ++ [n mod 10])%N. rewrite Heq, <- app_assoc. cbn [app].
      repeat split.
      * unfold digit_list in *. rewrite app_comm_cons. apply Forall_app.
        split; [assumption|]. constructor; [|constructor].
        apply N.mod_upper_bound. lia.
      * intros _. apply Hnz. intros Hz.
        apply N.div_small_iff in Hz; lia.
Qed.

Lemma digits_of_spec (n : N) :
  exists d pre,
    digits_of n = d :: pre /\ digit_list (d :: pre) /\ (n <> 0%N -> d <> 0%N).
Proof.
  unfold digits_of.
  destruct (digits_aux_spec (N.to_nat (N.log2 n)) n []) as (d & pre & H1 & H2 & H3).
  - rewrite N2Nat.id. destruct n as [|p]; [simpl; lia|].
    pose proof (N.log2_spec (N.pos p) ltac:(lia)) as [_ Hlt].
    rewrite N.pow_succ_r' in Hlt. lia.
  - rewrite app_nil_r in H1. eauto.
Qed.

Lemma is_digit_digit_char (d : N) : (d < 10)%N -> is_digit (digit_char d) = true.
Proof. unfold is_digit, digit_char. intros. n_cases; lia || reflexivity. Qed.


Lemma span_digits_text (ds : list N) (rest : jstring) :
  digit_list ds -> no_digit rest ->
  span_digits (map digit_char ds ++ rest) = (ds, rest).
Proof.
  intros Hd Hr. induction Hd as [|d ds Hlt _ IH].
  - cbn [map app]. destruct rest as [|c r]; [reflexivity|].
    cbn [span_digits]. simpl in Hr. rewrite Hr. reflexivity.
  - cbn [map app span_digits].
    rewrite is_digit_digit_char by assumption.
    rewrite IH, char_digit_digit_char. reflexivity.
Qed.

Lemma stops_no_digit (rest : jstring) : stops rest -> no_digit rest.
Proof. destruct rest; simpl; tauto. Qed.

Lemma strip_zeros_normal (fuel : nat) (m e : Z) :
  m mod 10 <> 0 -> strip_zeros fuel m e = Num m e.
Proof.
  intros H. destruct fuel; [reflexivity|]. cbn [strip_zeros].
  destruct (m mod 10 =? 0) eqn:E; [apply Z.eqb_eq in E; contradiction|].
  reflexivity.
Qed.

Lemma strip_zeros_pow (m : Z) :
  m mod 10 <> 0 ->
  forall (j fuel : nat) (e : Z),
    (j <= fuel)%nat ->
    strip_zeros fuel (m * 10 ^ Z.of_nat j) e = Num m (e + Z.of_nat j).
Proof.
  intros Hm. induction j as [|j IH]; intros fuel e Hj.
  - rewrite Z.pow_0_r, Z.mul_1_r, Z.add_0_r. now apply strip_zeros_normal.
  - destruct fuel as [|f]; [lia|]. cbn [strip_zeros].
    rewrite Nat2Z.inj_succ, Z.pow_succ_r by lia.
    replace (m * (10 * 10 ^ Z.of_nat j)) with (m * 10 ^ Z.of_nat j * 10) by ring.
    rewrite Z.mod_mul, Z.div_mul by lia. cbn [Z.eqb].
    rewrite IH by lia. f_equal. lia.
Qed.

Lemma normalize_pow (m : Z) (j : nat) (e : Z) :
  m mod 10 <> 0 ->
  normalize (m * 10 ^ Z.of_nat j) e = Num m (e + Z.of_nat j).
Proof.
  intros Hm. unfold normalize.
  assert (m <> 0) by (intros ->; apply Hm; reflexivity).
  assert (0 < 10 ^ Z.of_nat j) by (apply Z.pow_pos_nonneg; lia).
  destruct (m * 10 ^ Z.of_nat j =? 0) eqn:E; [apply Z.eqb_eq in E; nia|].
  apply strip_zeros_pow; [assumption|].
  assert (Z.of_nat j <= Z.log2 (Z.abs (m * 10 ^ Z.of_nat j))); [|lia].
  apply Z.log2_le_pow2; [nia|].
  rewrite Z.abs_mul, (Z.abs_eq (10 ^ Z.of_nat j)) by lia.
  assert (2 ^ Z.of_nat j <= 10 ^ Z.of_nat j)
    by (apply Z.pow_le_mono_l; lia).
  nia.
Qed.

Lemma normalize_normal (m e : Z) :
  m mod 10 <> 0 -> normalize m e = Num m e.
Proof.
  intros Hm. pose proof (normalize_pow m 0 e Hm) as H.
  rewrite Z.pow_0_r, Z.mul_1_r, Z.add_0_r in H. exact H.
Qed.

Lemma strip_zeros_is_normal :
  forall (fuel : nat) (m e : Z),
    m <> 0 -> Z.abs m < 2 ^ Z.of_nat (S fuel) ->
    normal (strip_zeros fuel m e).
Proof.
  induction fuel as [|f IH]; intros m e Hm Hb.
  - right. cbn [strip_zeros mant]. change (2 ^ Z.of_nat 1) with 2 in Hb.
    assert (m = 1 \/ m = -1) as [->| ->] by lia; discriminate.
  - cbn [strip_zeros]. destruct (m mod 10 =? 0) eqn:E.
    + apply Z.eqb_eq in E. rewrite Nat2Z.inj_succ, Z.pow_succ_r in Hb by lia.
      apply IH; lia.
    + apply Z.eqb_neq in E. right. exact E.
Qed.

Lemma normalize_is_normal (m e : Z) : normal (normalize m e).
Proof.
  unfold normalize. destruct (m =? 0) eqn:E.
  - left. split; reflexivity.
  - apply Z.eqb_neq in E. apply strip_zeros_is_normal; [assumption|].
    rewrite Nat2Z.inj_succ, Z2Nat.id by apply Z.log2_nonneg.
    apply Z.log2_spec. lia.
Qed.


Lemma digit_list_digits_of (n : N) : digit_list (digits_of n).
Proof.
  destruct (digits_of_spec n) as (d & pre & -> & H & _). exact H.
Qed.

Lemma digits_of_nonempty (n : N) : digits_of n <> [].
Proof.
  destruct (digits_of_spec n) as (d & pre & -> & _). discriminate.
Qed.

Lemma signed_abs (z : Z) : signed (z <? 0) (Z.to_N (Z.abs z)) = z.
Proof.
  unfold signed. destruct (Z.ltb_spec z 0); rewrite Z2N.id; lia.
Qed.

Lemma read_exponent_text (ex : option Z) (rest : jstring) :
  stops rest ->
  JSON.read_exponent (exponent_text ex ++ rest)
  = Some (match ex with Some z => z | None => 0 end, rest).
Proof.
  intros Hrest. unfold JSON.read_exponent.
  destruct ex as [z|]; cbn [exponent_text app].
  - cbn [N.eqb Pos.eqb orb].
    assert (Hsign : split_sign ((if z <? 0 then 45%N else 43%N)
                                :: nat_text (Z.to_N (Z.abs z)) ++ rest)
                    = (z <? 0, nat_text (Z.to_N (Z.abs z)) ++ rest))
      by (destruct (z <? 0); reflexivity).
    rewrite Hsign. unfold nat_text.
    rewrite span_digits_text
      by (apply digit_list_digits_of || apply stops_no_digit; assumption).
    destruct (digits_of (Z.to_N (Z.abs z))) as [|d ds] eqn:E;
      [now apply digits_of_nonempty in E|].
    rewrite <- E, digits_val_digits_of, signed_abs. reflexivity.
  - destruct rest as [|c r]; [reflexivity|].
    destruct Hrest as (_ & _ & H1 & H2).
    apply N.eqb_neq in H1, H2. rewrite H1, H2. reflexivity.
Qed.

Lemma no_digit_exponent (ex : option Z) (rest : jstring) :
  stops rest -> no_digit (exponent_text ex ++ rest).
Proof.
  intros H. destruct ex; cbn [exponent_text app]; [reflexivity|].
  now apply stops_no_digit.
Qed.

Lemma read_fraction_text (df : list N) (ex : option Z) (rest : jstring) :
  digit_list df -> stops rest ->
  JSON.read_fraction (fraction_text df ++ exponent_text ex ++ rest)
  = Some (df, exponent_text ex ++ rest).
Proof.
  intros Hdf Hrest. unfold JSON.read_fraction.
  destruct df as [|f fs]; cbn [fraction_text app].
  - destruct ex as [z|]; cbn [exponent_text app]; [reflexivity|].
    destruct rest as [|c r]; [reflexivity|].
    destruct Hrest as (_ & H & _). apply N.eqb_neq in H. rewrite H.
    reflexivity.
  - cbn [N.eqb Pos.eqb].
    rewrite span_digits_text by (assumption || now apply no_digit_exponent).
    reflexivity.
Qed.

Lemma no_digit_after (df : list N) (ex : option Z) (rest : jstring) :
  stops rest -> no_digit (fraction_text df ++ exponent_text ex ++ rest).
Proof.
  intros H. destruct df; cbn [fraction_text app]; [|reflexivity].
  now apply no_digit_exponent.
Qed.

(** [read_number] on a literal given by its parts. *)
Lemma read_number_token (negative : bool) (di df : list N) (ex : option Z)
      (rest : jstring) :
  digit_list di -> di <> [] ->
  (forall d ds, di = d :: ds -> ds <> [] -> d <> 0%N) ->
  digit_list df ->
  stops rest ->
  JSON.read_number (token negative di df ex ++ rest)
  = Some (normalize (signed negative (digits_val (di ++ df)))
            (match ex with Some z => z | None => 0 end
             - Z.of_nat (length df)),
          rest).
Proof.
  intros Hdi Hne Hlead Hdf Hrest.
  destruct di as [|d ds]; [congruence|].
  assert (Hd : (d < 10)%N) by (inversion Hdi; assumption).
  unfold JSON.read_number, token.
  assert (Hsign :
    JSON.read_sign (((if negative then [45%N] else [])
                     ++ map digit_char (d :: ds) ++ fraction_text df
                     ++ exponent_text ex) ++ rest)
    = (negative, map digit_char (d :: ds)
                 ++ fraction_text df ++ exponent_text ex ++ rest)).
  { unfold JSON.read_sign. destruct negative; cbn [app map].
    - rewrite <- !app_assoc. reflexivity.
    - unfold digit_char at 1.
      destruct (N.eqb_spec (48 + d) 45); [lia|].
      rewrite <- !app_assoc. reflexivity. }
  rewrite Hsign.
  rewrite span_digits_text by (assumption || now apply no_digit_after).
  assert (Hzero : (d =? 0)%N && negb (match ds with [] => true | _ => false end)
                  = false).
  { destruct ds as [|d' ds']; [apply andb_false_r|].
    specialize (Hlead d (d' :: ds') eq_refl ltac:(discriminate)).
    apply N.eqb_neq in Hlead. rewrite Hlead. reflexivity. }
  rewrite Hzero.
  rewrite read_fraction_text by assumption.
  rewrite read_exponent_text by assumption.
  reflexivity.
Qed.

Lemma digits_val_zeros (j : nat) : digits_val (repeat 0%N j) = 0%N.
Proof.
  induction j as [|j IH]; [reflexivity|].
  cbn [repeat]. rewrite digits_val_cons, IH. lia.
Qed.

Lemma digit_list_zeros (j : nat) : digit_list (repeat 0%N j).
Proof.
  unfold digit_list. apply Forall_forall. intros d Hd.
  apply repeat_spec in Hd. subst d. lia.
Qed.

Lemma digit_list_split (ds : list N) (a : nat) :
  digit_list ds -> digit_list (firstn a ds) /\ digit_list (skipn a ds).
Proof.
  unfold digit_list. intros H. rewrite <- (firstn_skipn a ds) in H.
  now apply Forall_app in H.
Qed.

Lemma token_value (m : Z) (j : nat) (E : Z) :
  m mod 10 <> 0 ->
  normalize (signed (m <? 0) (Z.to_N (Z.abs m) * 10 ^ N.of_nat j)) E
  = Num m (E + Z.of_nat j).
Proof.
  intros Hm. rewrite <- (normalize_pow m j E Hm). f_equal.
  unfold signed.
  rewrite N2Z.inj_mul, N2Z.inj_pow, Z2N.id, nat_N_Z by lia.
  destruct (Z.ltb_spec m 0); lia.
Qed.

(** The text of a decimal reads back as the decimal. *)
Lemma read_number_text (n : number) (rest : jstring) :
  normal n -> stops rest ->
  JSON.read_number (number_text n ++ rest) = Some (n, rest).
Proof.
  destruct n as [m e]. unfold normal. cbn [mant expo]. intros Hn Hrest.
  unfold number_text. cbn [mant expo].
  destruct (Z.eqb_spec m 0) as [->|Hm0].
  { destruct Hn as [[_ ->]|Hn]; [|now contradiction Hn].
    change [48%N] with (token false [0%N] [] None).
    rewrite read_number_token; try assumption; try reflexivity.
    - constructor; [lia|constructor].
    - discriminate.
    - intros d ds [= <- <-] H. congruence.
    - constructor. }
  assert (Hm : m mod 10 <> 0) by (destruct Hn as [[-> _]|Hn]; congruence).
  clear Hn.
  destruct (digits_of_spec (Z.to_N (Z.abs m))) as (d0 & pre & Hds & Hdl & Hd0).
  specialize (Hd0 ltac:(lia)).
  pose proof (digits_val_digits_of (Z.to_N (Z.abs m))) as Hval.
  unfold nat_text. rewrite Hds in *. rewrite length_map.
  set (ds := d0 :: pre) in *.
  set (k := Z.of_nat (length ds)).
  assert (Hk : 1 <= k) by (subst k ds; cbn [length]; lia).
  assert (Htoken : forall di df ex (j : nat) body,
            body = map digit_char di ++ fraction_text df ++ exponent_text ex ->
            digit_list di -> di <> [] ->
            (forall d ds, di = d :: ds -> ds <> [] -> d <> 0%N) ->
            digit_list df ->
            digits_val (di ++ df)
            = (Z.to_N (Z.abs m) * 10 ^ N.of_nat j)%N ->
            match ex with Some z => z | None => 0 end
            - Z.of_nat (length df) + Z.of_nat j = e ->
            JSON.read_number ((if m <? 0 then 45%N :: body else body) ++ rest)
            = Some (Num m e, rest)).
  { intros di df ex j body -> H1 H2 H3 H4 H5 H6.
    replace (if m <? 0
             then 45%N :: map digit_char di ++ fraction_text df
                        ++ exponent_text ex
             else map digit_char di ++ fraction_text df ++ exponent_text ex)
      with (token (m <? 0) di df ex)
      by (unfold token; destruct (m <? 0); reflexivity).
    rewrite read_number_token by assumption.
    rewrite H5, token_value by assumption. rewrite H6. reflexivity. }
  destruct ((k <=? e + k) && (e + k <=? 21)) eqn:CA.
  { (* digits followed by zeros *)
    apply andb_prop in CA as [C1 C2]. apply Z.leb_le in C1, C2.
    apply (Htoken (ds ++ repeat 0%N (Z.to_nat (e + k - k))) [] None
                  (Z.to_nat (e + k - k))).
    - cbn [fraction_text exponent_text]. rewrite !app_nil_r, map_app, map_repeat.
      reflexivity.
    - apply Forall_app. split; [assumption|apply digit_list_zeros].
    - subst ds. discriminate.
    - subst ds. cbn [app]. intros d ds' [= <- _] _. assumption.
    - constructor.
    - rewrite app_nil_r, digits_val_app, digits_val_zeros, repeat_length, Hval.
      lia.
    - cbn [length]. lia. }
  destruct ((0 <? e + k) && (e + k <=? 21)) eqn:CB.
  { (* a decimal point inside the digits *)
    apply andb_prop in CB as [C1 C2]. apply Z.ltb_lt in C1. apply Z.leb_le in C2.
    apply andb_false_iff in CA as [CA|CA];
      [apply Z.leb_gt in CA|apply Z.leb_gt in CA; lia].
    set (a := Z.to_nat (e + k)).
    assert (Ha : (0 < a < length ds)%nat) by (subst a k; lia).
    destruct (digit_list_split ds a Hdl) as (Hf & Hs).
    apply (Htoken (firstn a ds) (skipn a ds) None 0%nat).
    - cbn [exponent_text]. rewrite app_nil_r.
      unfold fraction_text.
      destruct (skipn a ds) as [|x xs] eqn:Es.
      + apply (f_equal (@length N)) in Es. rewrite length_skipn in Es.
        cbn [length] in Es. lia.
      + rewrite <- Es, firstn_map, skipn_map. reflexivity.
    - assumption.
    - destruct a as [|a']; [lia|]. subst ds. discriminate.
    - destruct a as [|a']; [lia|]. subst ds. cbn [firstn].
      intros d ds' [= <- _] _. assumption.
    - assumption.
    - rewrite firstn_skipn, Hval. cbn. lia.
    - rewrite length_skipn. subst a k. lia. }
  destruct ((-6 <? e + k) && (e + k <=? 0)) eqn:CC.
  { (* zero, point, zeros, digits *)
    apply andb_prop in CC as [C1 C2]. apply Z.ltb_lt in C1. apply Z.leb_le in C2.
    apply (Htoken [0%N] (repeat 0%N (Z.to_nat (- (e + k))) ++ ds) None 0%nat).
    - cbn [exponent_text map]. rewrite app_nil_r.
      unfold fraction_text.
      destruct (repeat 0%N (Z.to_nat (- (e + k))) ++ ds) as [|x xs] eqn:Es.
      + apply (f_equal (@length N)) in Es. rewrite length_app in Es.
        subst ds. cbn [length] in Es. lia.
      + rewrite <- Es, map_app, map_repeat. reflexivity.
    - constructor; [lia|constructor].
    - discriminate.
    - intros d ds' [= <- <-] H. congruence.
    - apply Forall_app. split; [apply digit_list_zeros|assumption].
    - change ([0%N] ++ repeat 0%N (Z.to_nat (- (e + k))) ++ ds)
        with (repeat 0%N (S (Z.to_nat (- (e + k)))) ++ ds).
      rewrite digits_val_app, digits_val_zeros, Hval. cbn. lia.
    - rewrite length_app, repeat_length. subst k. lia. }
  (* exponent form *)
  assert (Hex : Z.to_N (Z.abs (e + k - 1)) = Z.to_N (Z.abs (e + k - 1)))
    by reflexivity.
  subst ds. destruct pre as [|d1 pre'].
  - apply (Htoken [d0] [] (Some (e + k - 1)) 0%nat).
    + reflexivity.
    + assumption.
    + discriminate.
    + intros d ds' [= <- <-] H. congruence.
    + constructor.
    + rewrite app_nil_r, Hval. cbn. lia.
    + subst k. cbn [length]. lia.
  - apply (Htoken [d0] (d1 :: pre') (Some (e + k - 1)) 0%nat).
    + reflexivity.
    + inversion Hdl; subst. constructor; [assumption|constructor].
    + discriminate.
    + intros d ds' [= <- <-] H. congruence.
    + inversion Hdl; assumption.
    + cbn [app]. rewrite Hval. cbn. lia.
    + subst k. cbn [length]. lia.
Qed.

(** *** Rounding *)

Lemma read_number_head (s : jstring) (n : number) (rest : jstring) :
  JSON.read_number s = Some (n, rest) ->
  exists c r, s = c :: r /\ (c = 45%N \/ is_digit c = true).
Proof.
  unfold JSON.read_number, JSON.read_sign. intros H.
  destruct s as [|c r]; [discriminate|].
  exists c, r. split; [reflexivity|].
  destruct (N.eqb_spec c 45) as [->|Hc]; [left; reflexivity|right].
  cbn [span_digits] in H. destruct (is_digit c); [reflexivity|discriminate].
Qed.

Lemma read_number_normal (s : jstring) (n : number) (rest : jstring) :
  JSON.read_number s = Some (n, rest) -> normal n.
Proof.
  unfold JSON.read_number.
  destruct (JSON.read_sign s) as [neg s1].
  destruct (span_digits s1) as [[|d ds] s2]; [discriminate|].
  destruct ((d =? 0)%N && _); [discriminate|].
  destruct (JSON.read_fraction s2) as [[df s3]|]; [|discriminate].
  destruct (JSON.read_exponent s3) as [[ex s4]|]; [|discriminate].
  intros [= <- _]. apply normalize_is_normal.
Qed.

Lemma double_eqb_eq (a b : double) : double_eqb a b = true -> a = b.
Proof.
  destruct a as [|s|s f q], b as [|t|t g r]; cbn [double_eqb];
    try discriminate; [reflexivity| |].
  - intros H. apply eqb_prop in H. now subst.
  - intros H. apply andb_prop in H as [H Hq]. apply andb_prop in H as [Hs Hf].
    apply eqb_prop in Hs. apply Z.eqb_eq in Hf, Hq. now subst.
Qed.

Lemma candidate_spec (target : double) (negative : bool) (s t : Z) (c : number) :
  candidate target negative s t = Some c ->
  nearest c = target /\ normal c.
Proof.
  unfold candidate.
  destruct (double_eqb _ target) eqn:E; [|discriminate].
  intros [= <-]. split; [now apply double_eqb_eq|apply normalize_is_normal].
Qed.

Lemma fewest_digits_spec (target : double) (negative : bool) (n d p : Z)
      (c : number) :
  forall (fuel : nat) (k : Z),
    fewest_digits fuel k target negative n d p = Some c ->
    nearest c = target /\ normal c.
Proof.
  induction fuel as [|f IH]; intros k; cbn [fewest_digits]; [discriminate|].
  cbv zeta.
  match goal with
  | |- context [if ?b then (_, _) else _] => destruct b
  end; cbv beta iota;
    repeat match goal with
           | |- match candidate ?t ?s ?a ?e with _ => _ end = _ -> _ =>
               let E := fresh "E" in
               destruct (candidate t s a e) eqn:E;
                 [intros [= <-]; eapply candidate_spec; eauto|]
           end;
    apply IH.
Qed.

Lemma shortest_spec (x : double) (c : number) :
  shortest x = Some c -> nearest c = x /\ normal c.
Proof.
  unfold shortest. destruct x as [| |s f q]; try discriminate.
  apply fewest_digits_spec.
Qed.

(** The number a literal denotes is in normal form and denotes itself. *)
Lemma round64_canonical (x c : number) :
  normal x -> round64 x = Finite c -> normal c /\ canonical c.
Proof.
  unfold canonical, round64. intros Hx.
  destruct (nearest x) as [|s|s f q] eqn:E.
  - intros [= <-]. split; [left; split; reflexivity|reflexivity].
  - discriminate.
  - destruct (shortest (DFin s f q)) as [a|] eqn:S.
    + intros [= <-]. apply shortest_spec in S as S'. destruct S' as (-> & Hn).
      rewrite S. split; [assumption|reflexivity].
    + intros [= <-]. rewrite E, S. split; [assumption|reflexivity].
Qed.

(** The text of a number reads back as the number. *)
Lemma parse_number_text (n : number) (rest : jstring) :
  normal n -> canonical n -> stops rest ->
  JSON.parse_number (number_text n ++ rest) = Some (VNum n, rest).
Proof.
  intros Hn Hc Hrest. unfold JSON.parse_number.
  rewrite read_number_text by assumption. rewrite Hc.
  cbn [JSON.number_value].
  destruct (mant n =? 0) eqn:E; [|rewrite andb_false_r; reflexivity].
  unfold number_text. rewrite E. reflexivity.
Qed.

Lemma parse_number_head (s : jstring) (v : value) (rest : jstring) :
  JSON.parse_number s = Some (v, rest) ->
  exists c r, s = c :: r /\ (c = 45%N \/ is_digit c = true).
Proof.
  unfold JSON.parse_number.
  destruct (JSON.read_number s) as [[n r]|] eqn:E; [|discriminate].
  intros _. eapply read_number_head; eauto.
Qed.

Lemma parse_number_well_formed (s : jstring) (v : value) (rest : jstring) :
  JSON.parse_number s = Some (v, rest) -> well_formed v.
Proof.
  unfold JSON.parse_number.
  destruct (JSON.read_number s) as [[n r]|] eqn:E; [|discriminate].
  apply read_number_normal in E.
  destruct (round64 n) as [c|neg] eqn:R; intros [= <- _]; [|exact I].
  cbn [JSON.number_value].
  destruct (fst (JSON.read_sign s) && (mant c =? 0)); [exact I|].
  cbn [well_formed]. eapply round64_canonical; eauto.
Qed.

(** *** Values *)

Lemma skip_ws_head (c : N) (r : jstring) :
  JSON.is_ws c = false -> JSON.skip_ws (c :: r) = c :: r.
Proof. intros H. cbn [JSON.skip_ws]. rewrite H. reflexivity. Qed.



Lemma digit_opens (c : N) : c = 45%N \/ is_digit c = true -> opens_value c.
Proof.
  unfold opens_value, JSON.is_ws, is_digit. intros [->|H].
  - repeat split; discriminate.
  - n_cases; cbn in H; try discriminate; repeat split; try lia;
      n_cases; try lia; reflexivity.
Qed.

Lemma serialize_head (v : value) :
  well_formed v ->
  exists c r, JSON.serialize v = c :: r /\ opens_value c.
Proof.
  destruct v as [| |[|]|n| |neg|s|l|props]; cbn [well_formed]; intros Hwf;
    try contradiction;
    try (do 2 eexists; split; [reflexivity|];
         repeat split; (reflexivity || discriminate)).
  - pose proof (read_number_text n [] (proj1 Hwf) I) as Hp.
    rewrite app_nil_r in Hp.
    apply read_number_head in Hp as (c & r & Heq & Hc).
    exists c, r. split; [exact Heq|]. now apply digit_opens.
Qed.

Lemma serialize_length (v : value) :
  well_formed v -> (1 <= length (JSON.serialize v))%nat.
Proof.
  intros H. destruct (serialize_head v H) as (c & r & -> & _).
  cbn [length]. lia.
Qed.

Lemma keyword_text (w : string) (v : value) (rest : jstring) :
  JSON.keyword w v (lit w ++ rest) = JSON.POk v rest.
Proof.
  unfold JSON.keyword.
  rewrite firstn_app, Nat.sub_diag, firstn_all, firstn_O, app_nil_r.
  rewrite str_eqb_refl.
  rewrite skipn_app, Nat.sub_diag, skipn_all, skipn_O. reflexivity.
Qed.

Lemma stops_items (l : list value) (rest : jstring) :
  stops (items_text l false ++ rest).
Proof.
  destruct l; cbn [items_text app]; repeat split; discriminate.
Qed.

Lemma members_text_cons (k : jstring) (x : value)
      (r : list (jstring * value)) (first : bool) :
  x <> VUndefined ->
  members_text ((k, x) :: r) first
  = (if first then [] else [44%N]) ++ JSON.quote k
    ++ 58%N :: JSON.serialize x ++ members_text r false.
Proof. destruct x; intros H; [congruence|reflexivity..]. Qed.

Lemma well_formed_defined (x : value) : well_formed x -> x <> VUndefined.
Proof. destruct x; simpl; congruence || tauto. Qed.

Lemma stops_members (ps : list (jstring * value)) (rest : jstring) :
  Forall (fun kv => well_formed (snd kv)) ps ->
  stops (members_text ps false ++ rest).
Proof.
  intros H. destruct ps as [|[k x] r].
  - cbn [members_text app]. repeat split; discriminate.
  - inversion H; subst. cbn [snd] in *.
    rewrite members_text_cons by now apply well_formed_defined.
    cbn [app]. repeat split; discriminate.
Qed.


Lemma plain_arr (l : list value) :
  plain (VArr l) = true <-> Forall (fun v => plain v = true) l.
Proof.
  cbn [plain]. induction l as [|x r IH].
  - split; [constructor|reflexivity].
  - rewrite andb_true_iff, IH. split.
    + intros (Hx & Hr). constructor; assumption.
    + intros H. inversion H; subst. split; assumption.
Qed.

Lemma plain_obj (props : list (jstring * value)) :
  plain (VObj props) = true
  <-> Forall (fun kv => plain (snd kv) = true) props.
Proof.
  cbn [plain]. induction props as [|[k x] r IH].
  - split; [constructor|reflexivity].
  - rewrite andb_true_iff, IH. split.
    + intros (Hx & Hr). constructor; assumption.
    + intros H. inversion H; subst. split; assumption.
Qed.

Lemma parse_elements_items :
  forall (l : list value) (x : value) (fuel : nat) (acc : list value)
         (rest : jstring),
    Forall reads_back (x :: l) ->
    Forall well_formed (x :: l) ->
    Forall (fun v => plain v = true) (x :: l) ->
    (2 * length (JSON.serialize x ++ items_text l false) <= fuel)%nat ->
    JSON.parse_elements fuel
      (JSON.serialize x ++ items_text l false ++ rest) acc
    = JSON.POk (VArr (rev acc ++ x :: l)) rest.
Proof.
  induction l as [|y l IH]; intros x fuel acc rest Hrb Hwf Hfin Hfuel.
  - inversion Hrb as [|? ? Hx _]; inversion Hwf as [|? ? Wx _];
      inversion Hfin as [|? ? Fx _]; subst.
    pose proof (serialize_length x Wx) as Hlen.
    rewrite length_app in Hfuel. cbn [items_text length] in Hfuel.
    destruct fuel as [|f]; [lia|]. cbn [JSON.parse_elements].
    rewrite (Hx Wx Fx f) by (lia || apply stops_items).
    cbn [items_text app JSON.skip_ws JSON.is_ws N.eqb Pos.eqb orb].
    reflexivity.
  - inversion Hrb as [|? ? Hx Hrb']; inversion Hwf as [|? ? Wx Hwf'];
      inversion Hfin as [|? ? Fx Hfin']; subst.
    pose proof (serialize_length x Wx) as Hlen.
    rewrite length_app in Hfuel.
    assert (Hitems : items_text (y :: l) false
                     = 44%N :: JSON.serialize y ++ items_text l false)
      by reflexivity.
    rewrite Hitems in *. cbn [length] in Hfuel. rewrite length_app in Hfuel.
    destruct fuel as [|f]; [lia|]. cbn [JSON.parse_elements].
    rewrite (Hx Wx Fx f);
      [|lia|rewrite <- Hitems; apply stops_items].
    cbn [app JSON.skip_ws JSON.is_ws N.eqb Pos.eqb orb].
    rewrite <- app_assoc.
    rewrite (IH y f (x :: acc) rest Hrb' Hwf' Hfin')
      by (rewrite length_app; lia).
    cbn [rev]. rewrite <- app_assoc. reflexivity.
Qed.


Ltac len_norm H :=
  cbn [app length] in H;
  repeat (rewrite length_app in H; cbn [app length] in H).

Ltac len_norm_goal :=
  cbn [app length];
  repeat (rewrite length_app; cbn [app length]).

Lemma parse_members_text :
  forall (ps : list (jstring * value)) (k : jstring) (x : value)
         (fuel : nat) (acc : list (jstring * value)) (rest : jstring),
    Forall (fun kv => reads_back (snd kv)) ((k, x) :: ps) ->
    Forall (fun kv => well_formed (snd kv)) ((k, x) :: ps) ->
    Forall (fun kv => plain (snd kv) = true) ((k, x) :: ps) ->
    (2 * length (JSON.quote k ++ 58%N :: JSON.serialize x
                 ++ members_text ps false) <= fuel)%nat ->
    JSON.parse_members fuel
      (JSON.quote k ++ 58%N :: JSON.serialize x
       ++ members_text ps false ++ rest) acc
    = JSON.POk (VObj (set_all acc ((k, x) :: ps))) rest.
Proof.
  induction ps as [|[k' y] ps IH]; intros k x fuel acc rest Hrb Hwf Hfin Hfuel;
    inversion Hrb as [|? ? Hx Hrb']; inversion Hwf as [|? ? Wx Hwf'];
    inversion Hfin as [|? ? Fx Hfin']; subst;
    cbn [snd] in Hx, Wx, Fx;
    pose proof (serialize_length x Wx) as Hlen.
  - unfold JSON.quote in *. cbn [members_text] in *. len_norm Hfuel.
    destruct fuel as [|f]; [lia|]. cbn [JSON.parse_members].
    cbn [app JSON.skip_ws JSON.is_ws N.eqb Pos.eqb orb JSON.expect].
    rewrite <- app_assoc. cbn [app].
    rewrite parse_chars_quote.
    cbn [JSON.skip_ws JSON.is_ws N.eqb Pos.eqb orb JSON.expect].
    rewrite (Hx Wx Fx f); [|lia|cbn [app]; repeat split; discriminate].
    cbn [app JSON.skip_ws JSON.is_ws N.eqb Pos.eqb orb].
    reflexivity.
  - assert (Wy : y <> VUndefined)
      by (inversion Hwf'; subst; now apply well_formed_defined).
    rewrite members_text_cons in * by assumption.
    unfold JSON.quote in *. len_norm Hfuel.
    destruct fuel as [|f]; [lia|]. cbn [JSON.parse_members].
    cbn [app JSON.skip_ws JSON.is_ws N.eqb Pos.eqb orb JSON.expect].
    rewrite <- app_assoc. cbn [app].
    rewrite parse_chars_quote.
    cbn [JSON.skip_ws JSON.is_ws N.eqb Pos.eqb orb JSON.expect].
    rewrite (Hx Wx Fx f); [|lia|cbn [app]; repeat split; discriminate].
    cbn [app JSON.skip_ws JSON.is_ws N.eqb Pos.eqb orb].
    pose proof (IH k' y f (JSON.set_prop acc k x) rest Hrb' Hwf' Hfin') as IH'.
    unfold JSON.quote in IH'. cbn [app] in IH'.
    repeat (rewrite <- !app_assoc; cbn [app]).
    repeat (rewrite <- !app_assoc in IH'; cbn [app] in IH').
    rewrite IH'; [reflexivity|].
    len_norm_goal. lia.
Qed.

(** *** Property order *)

Lemma lookup_None (k : jstring) (props : list (jstring * value)) :
  ~ In k (map fst props) -> lookup k props = None.
Proof.
  induction props as [|[k' v'] r IH]; intros H; [reflexivity|].
  cbn [lookup]. cbn [map fst In] in H.
  destruct (str_eqb k k') eqn:E.
  - apply str_eqb_eq in E. subst. tauto.
  - apply IH. tauto.
Qed.

Lemma key_order_snoc (ks : list jstring) (k : jstring) :
  key_order (ks ++ [k]) <->
  key_order ks /\ ~ In k ks
  /\ forall k', In k' ks -> JSON.key_before k k' = false.
Proof.
  induction ks as [|k0 ks IH]; cbn [app key_order].
  - split; [intros _|intros _]; repeat split; auto; intros ? [].
  - rewrite IH. split.
    + intros (Hnin & Hbef & Hord & Hk & Hall).
      repeat split; try assumption.
      * intros Hin. apply Hnin. apply in_or_app. now left.
      * intros k' Hin. apply Hbef. apply in_or_app. now left.
      * intros [->|Hin]; [|contradiction].
        apply Hnin. apply in_or_app. right. now left.
      * intros k' [<-|Hin]; [|now apply Hall].
        apply Hbef. apply in_or_app. right. now left.
    + intros ((Hnin & Hbef & Hord) & Hk & Hall).
      repeat split; try assumption.
      * intros Hin. apply in_app_or in Hin as [Hin|[->|[]]]; [tauto|].
        apply Hk. now left.
      * intros k' Hin. apply in_app_or in Hin as [Hin|[<-|[]]];
          [now apply Hbef|]. apply Hall. now left.
      * intros Hin. apply Hk. now right.
      * intros k' Hin. apply Hall. now right.
Qed.

Lemma insert_prop_end (props : list (jstring * value)) (k : jstring) (v : value) :
  (forall k', In k' (map fst props) -> JSON.key_before k k' = false) ->
  JSON.insert_prop props k v = props ++ [(k, v)].
Proof.
  induction props as [|[k' v'] r IH]; intros H; [reflexivity|].
  cbn [JSON.insert_prop]. rewrite (H k') by (now left).
  cbn [app]. f_equal. apply IH. intros k'' Hin. apply H. now right.
Qed.

Lemma set_all_snoc (acc ps : list (jstring * value)) (k : jstring) (v : value) :
  set_all acc (ps ++ [(k, v)]) = JSON.set_prop (set_all acc ps) k v.
Proof. unfold set_all. rewrite fold_left_app. reflexivity. Qed.

(** Properties already in enumeration order are re-created as they are. *)
Lemma set_all_canonical (props : list (jstring * value)) :
  key_order (map fst props) -> set_all [] props = props.
Proof.
  induction props as [|[k v] ps IH] using rev_ind; intros H; [reflexivity|].
  rewrite map_app in H. cbn [map fst] in H.
  apply key_order_snoc in H as (Hord & Hnin & Hall).
  rewrite set_all_snoc, IH by assumption.
  unfold JSON.set_prop. rewrite lookup_None by assumption.
  now apply insert_prop_end.
Qed.

(** *** The round trip *)

Lemma all_read_back : forall v : value, reads_back v.
Proof.
  apply value_induction; unfold reads_back.
  - intros [].
  - intros _ _ [|f] rest Hfuel _; [cbn in Hfuel; lia|]. reflexivity.
  - intros [|] _ _ [|f] rest Hfuel _; try (cbn in Hfuel; lia); reflexivity.
  - intros n Hwf _ [|f] rest Hfuel Hrest; [lia|].
    cbn [well_formed JSON.serialize] in *.
    pose proof (parse_number_text n rest (proj1 Hwf) (proj2 Hwf) Hrest) as Hp.
    destruct (parse_number_head _ _ _ Hp) as (c & r & Heq & Hc).
    rewrite Heq in *. cbn [JSON.parse_value].
    destruct (digit_opens c Hc) as (Hws & _).
    rewrite skip_ws_head by assumption. rewrite Hp.
    assert (Hd : (c =? 123)%N = false /\ (c =? 91)%N = false
                 /\ (c =? 34)%N = false /\ (c =? 116)%N = false
                 /\ (c =? 102)%N = false /\ (c =? 110)%N = false).
    { destruct Hc as [->|Hc]; [repeat split; reflexivity|].
      unfold is_digit in Hc. apply andb_prop in Hc as [H1 H2].
      apply N.leb_le in H1, H2. repeat split; apply N.eqb_neq; lia. }
    destruct Hd as (-> & -> & -> & -> & -> & ->). reflexivity.
  - intros _ Hfin. discriminate.
  - intros neg _ Hfin. discriminate.
  - intros s _ _ [|f] rest Hfuel _; [lia|].
    cbn [JSON.serialize]. unfold JSON.quote.
    cbn [app JSON.parse_value JSON.skip_ws JSON.is_ws N.eqb Pos.eqb orb].
    rewrite <- app_assoc. cbn [app]. rewrite parse_chars_quote. reflexivity.
  - intros l IH Hwf Hfin [|f] rest Hfuel Hrest; [lia|].
    apply well_formed_arr in Hwf. apply plain_arr in Hfin.
    rewrite serialize_arr in *.
    destruct l as [|x l].
    + reflexivity.
    + inversion Hwf as [|? ? Wx _]; subst.
      destruct (serialize_head x Wx) as (c & r & Hc & Hws & Hne & _).
      cbn [items_text app] in *.
      cbn [JSON.parse_value JSON.skip_ws JSON.is_ws N.eqb Pos.eqb orb].
      rewrite <- app_assoc.
      assert (Hexp : JSON.expect 93
                (JSON.skip_ws (JSON.serialize x ++ items_text l false ++ rest))
              = None).
      { rewrite Hc. cbn [app]. rewrite skip_ws_head by assumption.
        cbn [JSON.expect]. apply N.eqb_neq in Hne. rewrite Hne. reflexivity. }
      rewrite Hexp.
      rewrite (parse_elements_items l x f [] rest IH Hwf Hfin); [reflexivity|].
      cbn [length] in Hfuel. lia.
  - intros props IH Hwf Hfin [|f] rest Hfuel Hrest; [lia|].
    apply well_formed_obj in Hwf as (Hord & Hwf). apply plain_obj in Hfin.
    rewrite serialize_obj in *.
    destruct props as [|[k x] ps].
    + reflexivity.
    + assert (Wx : x <> VUndefined)
        by (inversion Hwf; subst; now apply well_formed_defined).
      rewrite members_text_cons in * by assumption.
      cbn [app] in *.
      cbn [JSON.parse_value JSON.skip_ws JSON.is_ws N.eqb Pos.eqb orb].
      unfold JSON.quote at 1. cbn [app JSON.skip_ws JSON.is_ws N.eqb Pos.eqb
                                    orb JSON.expect].
      fold (JSON.quote k).
      change (34%N :: JSON.escape k ++ [34%N]) with (JSON.quote k).
      replace ((JSON.quote k ++ 58%N :: JSON.serialize x
                ++ members_text ps false) ++ rest)
        with (JSON.quote k ++ 58%N :: JSON.serialize x
              ++ members_text ps false ++ rest)
        by (repeat (rewrite <- !app_assoc; cbn [app]); reflexivity).
      rewrite (parse_members_text ps k x f [] rest IH Hwf Hfin).
      * rewrite (set_all_canonical _ Hord). reflexivity.
      * cbn [length] in Hfuel. lia.
Qed.

(** A well-formed value with no infinity inside is what [JSON.parse]
    reads from its [JSON.stringify] text. *)
Lemma parse_serialize (v : value) :
  well_formed v -> plain v = true -> JSON.parse (JSON.serialize v) = Some v.
Proof.
  intros H F. unfold JSON.parse.
  pose proof (all_read_back v H F (JSON.parse_fuel (JSON.serialize v)) [])
    as Hr.
  rewrite app_nil_r in Hr. rewrite Hr; [reflexivity| |exact I].
  unfold JSON.parse_fuel. lia.
Qed.

(** *** What [JSON.parse] returns is well formed *)

Lemma key_before_asym (a b : jstring) :
  JSON.key_before a b = true -> JSON.key_before b a = false.
Proof.
  unfold JSON.key_before.
  destruct (JSON.array_index a), (JSON.array_index b); try discriminate;
    try reflexivity.
  intros H. apply N.ltb_lt in H. apply N.ltb_ge. lia.
Qed.

Lemma key_before_trans (a b c : jstring) :
  JSON.key_before a b = true -> JSON.key_before b c = true ->
  JSON.key_before a c = true.
Proof.
  unfold JSON.key_before.
  destruct (JSON.array_index a), (JSON.array_index b), (JSON.array_index c);
    try discriminate; try reflexivity.
  intros H1 H2. apply N.ltb_lt in H1, H2. apply N.ltb_lt. lia.
Qed.


Lemma lookup_None_not_In (k : jstring) (props : list (jstring * value)) :
  lookup k props = None -> ~ In k (map fst props).
Proof.
  induction props as [|[k' v'] r IH]; cbn [lookup map fst In]; [tauto|].
  destruct (str_eqb k k') eqn:E; [discriminate|].
  apply str_eqb_neq in E. intros H [Heq|Hin]; [congruence|].
  now apply IH.
Qed.

Lemma replace_prop_keys (props : list (jstring * value)) (k : jstring) (v : value) :
  map fst (JSON.replace_prop props k v) = map fst props.
Proof.
  induction props as [|[k' v'] r IH]; [reflexivity|].
  cbn [JSON.replace_prop]. destruct (str_eqb k k'); cbn [map fst].
  - reflexivity.
  - now rewrite IH.
Qed.

Lemma insert_prop_keys (props : list (jstring * value)) (k : jstring) (v : value)
      (k' : jstring) :
  In k' (map fst (JSON.insert_prop props k v)) <->
  k' = k \/ In k' (map fst props).
Proof.
  induction props as [|[k0 v0] r IH]; cbn [JSON.insert_prop].
  - cbn. intuition congruence.
  - destruct (JSON.key_before k k0); cbn [map fst In].
    + intuition congruence.
    + rewrite IH. intuition congruence.
Qed.

Lemma insert_prop_order (props : list (jstring * value)) (k : jstring) (v : value) :
  key_order (map fst props) -> ~ In k (map fst props) ->
  key_order (map fst (JSON.insert_prop props k v)).
Proof.
  induction props as [|[k0 v0] r IH]; intros Hord Hnin.
  - cbn. repeat split; auto. intros ? [].
  - cbn [map fst key_order In] in Hord, Hnin.
    destruct Hord as (Hnin0 & Hbef & Hord).
    cbn [JSON.insert_prop]. destruct (JSON.key_before k k0) eqn:E.
    + cbn [map fst key_order In]. repeat split; try assumption.
      intros k' [<-|Hin]; [now apply key_before_asym|].
      destruct (JSON.key_before k' k) eqn:E'; [|reflexivity].
      rewrite <- (Hbef k' Hin). symmetry.
      now apply key_before_trans with (b := k).
    + cbn [map fst key_order]. repeat split.
      * rewrite insert_prop_keys. intros [->|Hin]; tauto.
      * intros k' Hin. apply insert_prop_keys in Hin as [->|Hin];
          [assumption|now apply Hbef].
      * apply IH; tauto.
Qed.

Lemma set_prop_order (props : list (jstring * value)) (k : jstring) (v : value) :
  key_order (map fst props) ->
  key_order (map fst (JSON.set_prop props k v)).
Proof.
  intros H. unfold JSON.set_prop. destruct (lookup k props) eqn:E.
  - now rewrite replace_prop_keys.
  - apply insert_prop_order; [assumption|now apply lookup_None_not_In].
Qed.

Lemma set_prop_values (P : value -> Prop) (props : list (jstring * value))
      (k : jstring) (v : value) :
  P v -> Forall (fun kv => P (snd kv)) props ->
  Forall (fun kv => P (snd kv)) (JSON.set_prop props k v).
Proof.
  intros Hv H. unfold JSON.set_prop. destruct (lookup k props).
  - induction H as [|[k' v'] r Hx Hr IH]; cbn [JSON.replace_prop];
      [constructor|].
    destruct (str_eqb k k'); constructor; assumption.
  - induction H as [|[k' v'] r Hx Hr IH]; cbn [JSON.insert_prop].
    + constructor; [assumption|constructor].
    + destruct (JSON.key_before k k'); repeat constructor; assumption.
Qed.

Lemma keyword_value (w : string) (v v' : value) (s rest : jstring) :
  JSON.keyword w v s = JSON.POk v' rest -> v' = v.
Proof.
  unfold JSON.keyword. destruct (str_eqb _ _); congruence.
Qed.



Lemma parse_value_well_formed :
  forall fuel : nat,
    (forall s v rest,
        JSON.parse_value fuel s = JSON.POk v rest -> well_formed v)
    /\ (forall s acc v rest,
           Forall well_formed acc ->
           JSON.parse_elements fuel s acc = JSON.POk v rest -> well_formed v)
    /\ (forall s acc v rest,
           key_order (map fst acc) -> values_ok acc ->
           JSON.parse_members fuel s acc = JSON.POk v rest -> well_formed v).
Proof.
  induction fuel as [|f (IHv & IHe & IHm)].
  - repeat split; intros; discriminate.
  - repeat split.
    + intros s v rest. cbn [JSON.parse_value].
      destruct (JSON.skip_ws s) as [|c r]; [discriminate|].
      destruct (c =? 123)%N.
      { destruct (JSON.expect 125 (JSON.skip_ws r)).
        - intros [= <- _]. cbn. tauto.
        - apply IHm; [exact I|constructor]. }
      destruct (c =? 91)%N.
      { destruct (JSON.expect 93 (JSON.skip_ws r)).
        - intros [= <- _]. exact I.
        - apply IHe. constructor. }
      destruct (c =? 34)%N.
      { destruct (JSON.parse_chars r) as [[str r']|]; [|discriminate].
        intros [= <- _]. exact I. }
      destruct (c =? 116)%N.
      { intros H. apply keyword_value in H. subst. exact I. }
      destruct (c =? 102)%N.
      { intros H. apply keyword_value in H. subst. exact I. }
      destruct (c =? 110)%N.
      { intros H. apply keyword_value in H. subst. exact I. }
      destruct (JSON.parse_number (c :: r)) as [[n r']|] eqn:E; [|discriminate].
      intros [= <- _]. eapply parse_number_well_formed; eauto.
    + intros s acc v rest Hacc. cbn [JSON.parse_elements].
      destruct (JSON.parse_value f s) as [x r| |] eqn:E; try discriminate.
      apply IHv in E.
      destruct (JSON.skip_ws r) as [|c r']; [discriminate|].
      destruct (c =? 44)%N.
      { apply IHe. constructor; assumption. }
      destruct (c =? 93)%N; [|discriminate].
      intros [= <- _]. apply well_formed_arr.
      change (Forall well_formed (rev acc ++ [x])).
      apply Forall_app. split; [now apply Forall_rev|].
      constructor; [assumption|constructor].
    + intros s acc v rest Hord Hacc. cbn [JSON.parse_members].
      destruct (JSON.expect 34 (JSON.skip_ws s)) as [r|]; [|discriminate].
      destruct (JSON.parse_chars r) as [[k r1]|]; [|discriminate].
      destruct (JSON.expect 58 (JSON.skip_ws r1)) as [r2|]; [|discriminate].
      destruct (JSON.parse_value f r2) as [x r3| |] eqn:E; try discriminate.
      apply IHv in E.
      assert (Hord' : key_order (map fst (JSON.set_prop acc k x)))
        by now apply set_prop_order.
      assert (Hacc' : values_ok (JSON.set_prop acc k x))
        by now apply set_prop_values.
      destruct (JSON.skip_ws r3) as [|c r4]; [discriminate|].
      destruct (c =? 44)%N.
      { now apply IHm. }
      destruct (c =? 125)%N; [|discriminate].
      intros [= <- _]. apply well_formed_obj. split; assumption.
Qed.

Lemma parse_well_formed (s : jstring) (v : value) :
  JSON.parse s = Some v -> well_formed v.
Proof.
  unfold JSON.parse.
  destruct (JSON.parse_value (JSON.parse_fuel s) s) as [x r| |] eqn:E;
    try discriminate.
  destruct (JSON.skip_ws r); [|discriminate].
  intros [= <-].
  destruct (parse_value_well_formed (JSON.parse_fuel s)) as (Hv & _).
  eapply Hv; eauto.
Qed.





(** Every record the reassembler yields was returned by [JSON.parse]. *)
Lemma records_parsed (obj : value) :
  forall (lines : list jstring) (inside : bool) (buf : jstring),
    In obj (records_from inside buf lines) ->
    exists text, JSON.parse text = Some obj.
Proof.
  induction lines as [|line rest IH]; intros inside buf; cbn [records_from];
    [intros []|].
  destruct (str_eqb (trim line) (lit "[")); [apply IH|].
  destruct (str_eqb (trim line) (lit "]")); [intros []|].
  destruct (negb inside); [apply IH|].
  destruct (JSON.parse (grow buf line)) as [o|] eqn:E; [|apply IH].
  intros [<-|Hin]; [eauto|]. eapply IH; eauto.
Qed.

(** ** The JSON columns *)

Lemma stringify_defined (v : value) :
  v <> VUndefined -> JSON.stringify v = VStr (JSON.serialize v).
Proof. destruct v; intros H; [congruence|reflexivity..]. Qed.







(** ** The iteration bound of [JSON.parse] is never used up *)

Lemma skip_ws_length (s : jstring) :
  (length (JSON.skip_ws s) <= length s)%nat.
Proof.
  induction s as [|c r IH]; cbn [JSON.skip_ws length]; [lia|].
  destruct (JSON.is_ws c); cbn [length]; lia.
Qed.

Lemma expect_length (c : N) (s r : jstring) :
  JSON.expect c s = Some r -> length s = S (length r).
Proof.
  destruct s as [|x s']; cbn [JSON.expect]; [discriminate|].
  destruct (x =? c)%N; [|discriminate]. intros [= <-]. reflexivity.
Qed.

Lemma consume_length (c : N) (o : option (jstring * jstring))
      (k r : jstring) (n : nat) :
  (forall k' r', o = Some (k', r') -> (length r' < n)%nat) ->
  JSON.consume c o = Some (k, r) -> (length r < n)%nat.
Proof.
  intros H. destruct o as [[k' r']|]; cbn [JSON.consume]; [|discriminate].
  intros [= _ <-]. now apply (H k').
Qed.

Lemma parse_chars_length :
  forall (n : nat) (s k r : jstring),
    (length s <= n)%nat ->
    JSON.parse_chars s = Some (k, r) -> (length r < length s)%nat.
Proof.
  induction n as [|n IH]; intros s k r Hn.
  - destruct s; [discriminate|cbn [length] in Hn; lia].
  - destruct s as [|c s1]; [discriminate|].
    cbn [length] in Hn. cbn [JSON.parse_chars length].
    destruct (c =? 34)%N; [intros [= _ <-]; lia|].
    destruct (c =? 92)%N.
    + destruct s1 as [|e s2]; [discriminate|]. cbn [length] in *.
      destruct (e =? 117)%N.
      * destruct s2 as [|h1 [|h2 [|h3 [|h4 s3]]]]; try discriminate.
        cbn [length] in *.
        destruct (JSON.hex4 h1 h2 h3 h4); [|discriminate].
        apply consume_length. intros k' r' H.
        apply IH in H; lia.
      * destruct (JSON.unescape e); [|discriminate].
        apply consume_length. intros k' r' H.
        apply IH in H; lia.
    + destruct (c <? 32)%N; [discriminate|].
      apply consume_length. intros k' r' H.
      apply IH in H; lia.
Qed.

Lemma span_digits_length (s : jstring) :
  (length (snd (span_digits s)) + length (fst (span_digits s)) = length s)%nat.
Proof.
  induction s as [|c r IH]; [reflexivity|].
  cbn [span_digits]. destruct (is_digit c); [|cbn; lia].
  destruct (span_digits r) as [ds rest]. cbn [fst snd length] in *. lia.
Qed.

Lemma split_sign_length (s : jstring) :
  (length (snd (split_sign s)) <= length s)%nat.
Proof.
  destruct s as [|c r]; cbn [split_sign]; [cbn; lia|].
  destruct (c =? 45)%N; [cbn; lia|].
  destruct (c =? 43)%N; cbn; lia.
Qed.

Lemma read_fraction_length (s : jstring) (df : list N) (r : jstring) :
  JSON.read_fraction s = Some (df, r) -> (length r <= length s)%nat.
Proof.
  unfold JSON.read_fraction. destruct s as [|c s']; [intros [= _ <-]; lia|].
  destruct (c =? 46)%N; [|intros [= _ <-]; lia].
  pose proof (span_digits_length s') as H.
  destruct (span_digits s') as [[|d ds] rest]; [discriminate|].
  intros [= _ <-]. cbn [fst snd length] in *. lia.
Qed.

Lemma read_exponent_length (s : jstring) (ex : Z) (r : jstring) :
  JSON.read_exponent s = Some (ex, r) -> (length r <= length s)%nat.
Proof.
  unfold JSON.read_exponent. destruct s as [|c s']; [intros [= _ <-]; lia|].
  destruct ((c =? 101)%N || (c =? 69)%N); [|intros [= _ <-]; lia].
  pose proof (split_sign_length s') as H1.
  destruct (split_sign s') as [neg r1]. cbn [snd] in H1.
  pose proof (span_digits_length r1) as H2.
  destruct (span_digits r1) as [[|d ds] rest]; [discriminate|].
  intros [= _ <-]. cbn [fst snd length] in *. lia.
Qed.

Lemma read_number_length (s : jstring) (n : number) (r : jstring) :
  JSON.read_number s = Some (n, r) -> (length r < length s)%nat.
Proof.
  unfold JSON.read_number.
  assert (H1 : (length (snd (JSON.read_sign s)) <= length s)%nat).
  { unfold JSON.read_sign. destruct s as [|c s']; [cbn; lia|].
    destruct (c =? 45)%N; cbn; lia. }
  destruct (JSON.read_sign s) as [neg s1]. cbn [snd] in H1.
  pose proof (span_digits_length s1) as H2.
  destruct (span_digits s1) as [[|d ds] s2]; [discriminate|].
  cbn [fst snd length] in H2.
  destruct ((d =? 0)%N && _); [discriminate|].
  destruct (JSON.read_fraction s2) as [[df s3]|] eqn:E3; [|discriminate].
  apply read_fraction_length in E3.
  destruct (JSON.read_exponent s3) as [[ex s4]|] eqn:E4; [|discriminate].
  apply read_exponent_length in E4.
  intros [= _ <-]. lia.
Qed.

Lemma parse_number_length (s : jstring) (v : value) (r : jstring) :
  JSON.parse_number s = Some (v, r) -> (length r < length s)%nat.
Proof.
  unfold JSON.parse_number.
  destruct (JSON.read_number s) as [[n r']|] eqn:E; [|discriminate].
  intros [= _ <-]. eapply read_number_length; eauto.
Qed.

Lemma keyword_length (w : string) (v v' : value) (s r : jstring) :
  lit w <> [] ->
  JSON.keyword w v s = JSON.POk v' r -> (length r < length s)%nat.
Proof.
  unfold JSON.keyword. intros Hw.
  destruct (str_eqb (firstn (length (lit w)) s) (lit w)) eqn:E; [|discriminate].
  apply str_eqb_eq in E. intros [= _ <-].
  apply (f_equal (@length N)) in E. rewrite length_firstn in E.
  rewrite length_skipn.
  destruct (lit w); [congruence|]. cbn [length] in *. lia.
Qed.


Lemma parse_value_consumes :
  forall fuel : nat,
    (forall s, (2 * length s < fuel)%nat ->
               consumed s (JSON.parse_value fuel s))
    /\ (forall s acc, (2 * length s + 1 < fuel)%nat ->
                      consumed s (JSON.parse_elements fuel s acc))
    /\ (forall s acc, (2 * length s + 1 < fuel)%nat ->
                      consumed s (JSON.parse_members fuel s acc)).
Proof.
  induction fuel as [|f (IHv & IHe & IHm)].
  - repeat split; intros; lia.
  - repeat split.
    + intros s Hf. cbn [JSON.parse_value].
      pose proof (skip_ws_length s) as Hs.
      destruct (JSON.skip_ws s) as [|c r]; [exact I|].
      cbn [length] in Hs.
      destruct (c =? 123)%N.
      { pose proof (skip_ws_length r) as Hr.
        destruct (JSON.expect 125 (JSON.skip_ws r)) as [r'|] eqn:E.
        - apply expect_length in E. cbn [consumed]. lia.
        - specialize (IHm r [] ltac:(lia)).
          destruct (JSON.parse_members f r []); cbn [consumed] in *;
            tauto || lia. }
      destruct (c =? 91)%N.
      { pose proof (skip_ws_length r) as Hr.
        destruct (JSON.expect 93 (JSON.skip_ws r)) as [r'|] eqn:E.
        - apply expect_length in E. cbn [consumed]. lia.
        - specialize (IHe r [] ltac:(lia)).
          destruct (JSON.parse_elements f r []); cbn [consumed] in *;
            tauto || lia. }
      destruct (c =? 34)%N.
      { destruct (JSON.parse_chars r) as [[str r']|] eqn:E; [|exact I].
        apply (parse_chars_length (length r)) in E; [|lia].
        cbn [consumed]. lia. }
      assert (Hkw : forall w v, lit w <> [] ->
                consumed s (JSON.keyword w v (c :: r))).
      { intros w v Hw.
        destruct (JSON.keyword w v (c :: r)) as [v' r'| |] eqn:E;
          cbn [consumed]; [|exact I|].
        - apply keyword_length in E; [|assumption]. cbn [length] in E. lia.
        - unfold JSON.keyword in E. destruct (str_eqb _ _); discriminate. }
      destruct (c =? 116)%N; [apply Hkw; discriminate|].
      destruct (c =? 102)%N; [apply Hkw; discriminate|].
      destruct (c =? 110)%N; [apply Hkw; discriminate|].
      destruct (JSON.parse_number (c :: r)) as [[n r']|] eqn:E; [|exact I].
      apply parse_number_length in E. cbn [consumed length] in *. lia.
    + intros s acc Hf. cbn [JSON.parse_elements].
      specialize (IHv s ltac:(lia)).
      destruct (JSON.parse_value f s) as [x r| |]; cbn [consumed] in *;
        [|exact I|contradiction].
      pose proof (skip_ws_length r) as Hr.
      destruct (JSON.skip_ws r) as [|c r']; [exact I|]. cbn [length] in Hr.
      destruct (c =? 44)%N.
      { specialize (IHe r' (x :: acc) ltac:(lia)).
        destruct (JSON.parse_elements f r' (x :: acc)); cbn [consumed] in *;
          tauto || lia. }
      destruct (c =? 93)%N; cbn [consumed]; [lia|exact I].
    + intros s acc Hf. cbn [JSON.parse_members].
      pose proof (skip_ws_length s) as Hs.
      destruct (JSON.expect 34 (JSON.skip_ws s)) as [r|] eqn:E1; [|exact I].
      apply expect_length in E1.
      destruct (JSON.parse_chars r) as [[k r1]|] eqn:E2; [|exact I].
      apply (parse_chars_length (length r)) in E2; [|lia].
      pose proof (skip_ws_length r1) as Hr1.
      destruct (JSON.expect 58 (JSON.skip_ws r1)) as [r2|] eqn:E3; [|exact I].
      apply expect_length in E3.
      specialize (IHv r2 ltac:(lia)).
      destruct (JSON.parse_value f r2) as [x r3| |]; cbn [consumed] in *;
        [|exact I|contradiction].
      pose proof (skip_ws_length r3) as Hr3.
      destruct (JSON.skip_ws r3) as [|c r4]; [exact I|]. cbn [length] in Hr3.
      destruct (c =? 44)%N.
      { specialize (IHm r4 (JSON.set_prop acc k x) ltac:(lia)).
        destruct (JSON.parse_members f r4 _); cbn [consumed] in *;
          tauto || lia. }
      destruct (c =? 125)%N; cbn [consumed]; [lia|exact I].
Qed.

(** [JSON.parse] answers [None] only for text that is not JSON. *)
Lemma parse_within_bound (s : jstring) :
  JSON.parse_value (JSON.parse_fuel s) s <> JSON.PFuel.
Proof.
  destruct (parse_value_consumes (JSON.parse_fuel s)) as (Hv & _).
  specialize (Hv s ltac:(unfold JSON.parse_fuel; lia)).
  intros E. rewrite E in Hv. exact Hv.
Qed.



(* ================================================================== *)
(** * Part III: further properties of [processFile] *)
(* ================================================================== *)

(** ** White space around a line *)

Lemma trimStart_blank (pre s : jstring) :
  blank pre -> trimStart (pre ++ s) = trimStart s.
Proof.
  induction 1 as [|c pre Hc _ IH]; [reflexivity|].
  cbn [app trimStart]. rewrite Hc. exact IH.
Qed.

Lemma trimStart_all_blank (s : jstring) : blank s -> trimStart s = [].
Proof.
  intros H. rewrite <- (app_nil_r s). rewrite trimStart_blank by assumption.
  reflexivity.
Qed.

Lemma trimStart_app (s t : jstring) :
  trimStart (s ++ t)
  = match trimStart s with
    | [] => trimStart t
    | _ => trimStart s ++ t
    end.
Proof.
  induction s as [|c s IH]; cbn [app trimStart].
  - destruct (trimStart t); reflexivity.
  - destruct (is_space c); [exact IH|reflexivity].
Qed.

Lemma blank_rev (s : jstring) : blank s -> blank (rev s).
Proof. apply Forall_rev. Qed.

Lemma trimEnd_blank (s post : jstring) :
  blank post -> trimEnd (s ++ post) = trimEnd s.
Proof.
  intros H. unfold trimEnd. rewrite rev_app_distr.
  rewrite trimStart_blank by (apply blank_rev; assumption). reflexivity.
Qed.

Lemma trimEnd_nil : trimEnd [] = [].
Proof. reflexivity. Qed.

(** White space at the ends of a line does not reach the loop. *)
Lemma trim_padded (line line' : jstring) :
  padded line line' -> trim line' = trim line.
Proof.
  intros (pre & post & Hpre & Hpost & ->). unfold trim.
  rewrite trimStart_blank by assumption.
  rewrite trimStart_app.
  destruct (trimStart line) as [|c r] eqn:E.
  - rewrite trimStart_all_blank by assumption. reflexivity.
  - apply trimEnd_blank. assumption.
Qed.

(** A text that neither starts nor ends with white space is its own
    trimmed form. *)
Lemma trim_clean (a b : N) (mid : jstring) :
  is_space a = false -> is_space b = false ->
  trim (a :: mid ++ [b]) = a :: mid ++ [b].
Proof.
  intros Ha Hb. unfold trim. cbn [trimStart]. rewrite Ha.
  unfold trimEnd.
  assert (Hrev : rev (a :: mid ++ [b]) = b :: rev (a :: mid)).
  { change (a :: mid ++ [b]) with ((a :: mid) ++ [b]).
    apply rev_unit. }
  rewrite Hrev. cbn [trimStart]. rewrite Hb.
  rewrite <- Hrev. apply rev_involutive.
Qed.

Lemma loop_body_trim (line line' : jstring) (st : state) :
  trim line' = trim line -> loop_body line' st = loop_body line st.
Proof.
  intros H. unfold loop_body. rewrite H. reflexivity.
Qed.

Lemma for_lines_trim :
  forall (lines lines' : list jstring),
    Forall2 padded lines lines' ->
    forall st, for_lines lines' st = for_lines lines st.
Proof.
  induction 1 as [|line line' lines lines' Hp _ IH]; intros st; [reflexivity|].
  cbn [for_lines]. unfold bind.
  rewrite (loop_body_trim line line' st (trim_padded _ _ Hp)).
  destruct (loop_body line st) as [[[|]|e|] st1]; try reflexivity.
  apply IH.
Qed.

(** X1. White space added at the start or the end of any line of the
    input (indentation, a carriage return) changes nothing: the run ends
    in the same way, in the same state. *)
Theorem padding_is_ignored :
  forall (existing : list Row) (lines lines' : list jstring),
    Forall2 padded lines lines' ->
    processFile existing lines' = processFile existing lines.
Proof.
  intros existing lines lines' H. unfold processFile, bind.
  destruct (db_begin (initial existing)) as [[[]|e|] st0]; try reflexivity.
  rewrite (for_lines_trim _ _ H). reflexivity.
Qed.

Lemma padding_is_ignored_witness :
  processFile [] indented_file = processFile [] sol_file.
Proof.
  apply (padding_is_ignored [] sol_file indented_file).
  repeat constructor.
  - exists [], [13%N]. repeat constructor.
  - exists (lit "    "), [13%N]. repeat constructor.
  - exists [9%N], [32%N; 13%N]. repeat constructor.
Defined.

(** ** Where the input ends *)

Lemma for_lines_close (close : jstring) (after : list jstring) :
  trim close = lit "]" ->
  forall (before : list jstring) (st : state),
    for_lines (before ++ close :: after) st = for_lines before st.
Proof.
  intros Hclose. induction before as [|line before IH]; intros st.
  - cbn [app for_lines]. unfold bind, loop_body. rewrite Hclose. reflexivity.
  - cbn [app for_lines]. unfold bind.
    destruct (loop_body line st) as [[[|]|e|] st1]; try reflexivity.
    apply IH.
Qed.

(** X2. The array-close line and everything after it can be left out:
    a run on a file cut right before a line whose trimmed content is the
    array-close token ends as the run on the whole file does, in the
    same state.  A dump that lost its last line is ingested in full. *)
Theorem close_line_is_optional :
  forall (existing : list Row) (before : list jstring) (close : jstring)
         (after : list jstring),
    trim close = lit "]" ->
    processFile existing (before ++ close :: after)
    = processFile existing before.
Proof.
  intros existing before close after Hclose. unfold processFile, bind.
  destruct (db_begin (initial existing)) as [[[]|e|] st0]; try reflexivity.
  rewrite (for_lines_close close after Hclose). reflexivity.
Qed.

Lemma close_line_is_optional_witness :
  processFile [] ([lit "["; sol_text] ++ lit " ]" :: [sol_text])
  = processFile [] [lit "["; sol_text].
Proof.
  apply (close_line_is_optional [] [lit "["; sol_text] (lit " ]") [sol_text]).
  reflexivity.
Defined.

(** ** A file without an array-open line *)

Lemma for_lines_outside :
  forall (lines : list jstring) (st : state),
    Forall (fun line => trim line <> lit "[") lines ->
    insideArray st = false ->
    for_lines lines st = (Done tt, st).
Proof.
  induction lines as [|line rest IH]; intros st Hall Hout; [reflexivity|].
  inversion Hall as [|? ? Hline Hrest]; subst.
  cbn [for_lines]. unfold bind, loop_body.
  apply str_eqb_neq in Hline. rewrite Hline.
  destruct (str_eqb (trim line) (lit "]")); [reflexivity|].
  rewrite Hout. cbn [negb]. apply IH; assumption.
Qed.

(** X3. Without a line whose trimmed content is the array-open token
    nothing is ingested, whatever the lines hold: the run completes, the
    table is as it was, no record is counted, and the only progress line
    is the final one, for zero records. *)
Theorem no_open_line_no_ingestion :
  forall (existing : list Row) (lines : list jstring),
    Forall (fun line => trim line <> lit "[") lines ->
    processFile existing lines
    = (Done tt,
       {| buffer := []; insideArray := false; processed := 0;
          batchCount := 0; totalChecked := 0;
          db := {| durable := existing; txn := None |};
          console := [{| final := true; shown_processed := 0;
                         shown_checked := 0;
                         shown_rate := match_rate 0 0 |}] |}).
Proof.
  intros existing lines Hall. unfold processFile.
  unfold bind at 1. cbn [db_begin initial txn db durable].
  unfold bind at 1.
  rewrite (for_lines_outside lines _ Hall) by reflexivity.
  unfold bind, db_commit, console_log, update. cbn.
  rewrite app_nil_r. reflexivity.
Qed.

Lemma no_open_line_no_ingestion_witness :
  processFile [] headless_file
  = (Done tt,
     {| buffer := []; insideArray := false; processed := 0;
        batchCount := 0; totalChecked := 0;
        db := {| durable := []; txn := None |};
        console := [{| final := true; shown_processed := 0;
                       shown_checked := 0;
                       shown_rate := match_rate 0 0 |}] |}).
Proof.
  apply (no_open_line_no_ingestion [] headless_file).
  repeat constructor; vm_compute; discriminate.
Defined.

(** ** The progress lines *)

Lemma consistent_mono (a b : Z) (m : message) :
  a <= b -> consistent a m -> consistent b m.
Proof. unfold consistent. intros H (H1 & H2 & H3). repeat split; lia || assumption. Qed.

Lemma Logged_frame (rows : list Row) (st st' : state) :
  console st' = console st -> totalChecked st' = totalChecked st ->
  Logged rows st -> Logged rows st'.
Proof. unfold Logged. intros -> ->. trivial. Qed.

Lemma batch_stamps_step (n : nat) :
  batch_stamps (S n)
  = batch_stamps n
    ++ (if Z.of_nat (S n) mod 500 =? 0 then [(false, Z.of_nat (S n))] else []).
Proof.
  unfold batch_stamps.
  pose proof (Nat.div_mod_eq n 500) as Hn.
  pose proof (Nat.mod_upper_bound n 500 ltac:(lia)) as Hm.
  pose proof (Nat.div_mod_eq (S n) 500) as HSn.
  pose proof (Nat.mod_upper_bound (S n) 500 ltac:(lia)) as HSm.
  destruct (Z.of_nat (S n) mod 500 =? 0) eqn:E.
  - apply Z.eqb_eq in E.
    assert (Hz : (S n mod 500 = 0)%nat).
    { apply Nat2Z.inj. rewrite Nat2Z.inj_mod. exact E. }
    assert (Hq : (S n / 500 = S (n / 500))%nat) by nia.
    rewrite Hq, seq_S, map_app. cbn [map Nat.add]. repeat f_equal. lia.
  - apply Z.eqb_neq in E.
    assert (Hz : (S n mod 500 <> 0)%nat).
    { intros H. apply E. change 500 with (Z.of_nat 500).
      rewrite <- Nat2Z.inj_mod, H. reflexivity. }
    assert (Hq : (S n / 500 = n / 500)%nat) by nia.
    rewrite Hq, app_nil_r. reflexivity.
Qed.

(** The console after one more row. *)
Lemma write_console (existing rows : list Row) (row : Row) (st : state) :
  Batched existing rows st ->
  console (write row st)
  = console st
    ++ (if Z.of_nat (S (length rows)) mod 500 =? 0 then
          [{| final := false;
              shown_processed := Z.of_nat (S (length rows));
              shown_checked := totalChecked st;
              shown_rate := match_rate (Z.of_nat (S (length rows)))
                              (totalChecked st) |}]
        else []).
Proof.
  intros (Ht & Hd & Hb & Hp).
  assert (Hn : Z.of_nat (S (length rows)) = processed st + 1) by lia.
  rewrite Hn. clear Hn Hp Hb Hd.
  unfold write, bind, insertStmt_run, after_insert, bind, update, read, ret.
  simpl. rewrite Ht. simpl.
  destruct (500 <=? batchCount st + 1); unfold db_commit, db_begin; simpl;
    destruct ((processed st + 1) mod 500 =? 0); simpl;
      try rewrite app_nil_r; reflexivity.
Qed.

Lemma write_Logged (existing rows : list Row) (row : Row) (st : state) :
  Batched existing rows st -> Logged rows st ->
  Z.of_nat (length rows) < totalChecked st ->
  Logged (rows ++ [row]) (write row st).
Proof.
  intros HB (Hs & Hc & _) Hlt.
  destruct (write_Batched row HB) as (_ & _ & _ & _ & Htc).
  unfold Logged. rewrite (write_console existing rows row st HB), Htc, length_app.
  cbn [length]. replace (length rows + 1)%nat with (S (length rows)) by lia.
  rewrite batch_stamps_step, map_app, Hs.
  split; [|split; [|lia]].
  - destruct (Z.of_nat (S (length rows)) mod 500 =? 0); reflexivity.
  - apply Forall_app. split; [assumption|].
    destruct (Z.of_nat (S (length rows)) mod 500 =? 0); constructor;
      [|constructor].
    unfold consistent. cbn [shown_processed shown_checked shown_rate].
    repeat split; lia.
Qed.

(** The console after one decoded record. *)
Lemma absorb_Logged (existing rows : list Row) (obj : value) (st : state) :
  Batched existing rows st -> Logged rows st ->
  Logged (rows ++ row_for obj) (absorb obj st).
Proof.
  intros HB (Hs & Hc & Hle). unfold absorb.
  set (st2 := with_totalChecked (totalChecked st + 1) (with_buffer [] st)).
  assert (HB2 : Batched existing rows st2)
    by (eapply Batched_frame; [| | |exact HB]; reflexivity).
  assert (HL2 : Logged rows st2).
  { unfold Logged. subst st2. cbn [console totalChecked with_totalChecked with_buffer].
    split; [assumption|]. split; [|lia].
    eapply Forall_impl; [|exact Hc].
    intros m. apply consistent_mono. lia. }
  pose proof (row_for_length obj) as Hlen.
  destruct (row_for obj) as [|row [|row' more]].
  - rewrite app_nil_r. exact HL2.
  - cbn [fold_left]. apply (write_Logged existing); try assumption.
    subst st2. cbn [totalChecked with_totalChecked]. lia.
  - exfalso. cbn [length] in Hlen. destruct (is_matched obj); lia.
Qed.

Lemma for_lines_Logged (existing : list Row) :
  forall (lines : list jstring) (st : state) (rows : list Row),
    Batched existing rows st -> Logged rows st ->
    Logged (rows ++ flat_map row_for
                      (records_from (insideArray st) (buffer st) lines))
      (snd (for_lines lines st)).
Proof.
  induction lines as [|line rest IH]; intros st rows HB HL.
  - cbn. rewrite app_nil_r. exact HL.
  - cbn [for_lines records_from]. unfold bind at 1.
    rewrite (loop_body_spec line HB).
    destruct (str_eqb (trim line) (lit "[")).
    { apply (IH (with_insideArray true st) rows).
      - eapply Batched_frame; [| | |exact HB]; reflexivity.
      - eapply Logged_frame; [| |exact HL]; reflexivity. }
    destruct (str_eqb (trim line) (lit "]")).
    { cbn. rewrite app_nil_r. exact HL. }
    destruct (insideArray st) eqn:Hin; cbn [negb].
    2:{ pose proof (IH st rows HB HL) as H. rewrite Hin in H. exact H. }
    destruct (JSON.parse (grow (buffer st) line)) as [obj|] eqn:Hparse.
    + assert (HB1 : Batched existing rows
                      (with_buffer (grow (buffer st) line) st))
        by (eapply Batched_frame; [| | |exact HB]; reflexivity).
      destruct (@try_block_parsed existing rows _ obj HB1 Hparse)
        as (_ & HB2 & Hbuf & Hins & _).
      change (absorb obj (with_buffer (grow (buffer st) line) st))
        with (absorb obj st) in *.
      pose proof (IH (absorb obj st) _ HB2 (absorb_Logged existing rows obj st HB HL)) as H.
      rewrite Hbuf, Hins in H. cbn [insideArray with_buffer] in H.
      rewrite Hin in H. cbn [flat_map]. rewrite app_assoc. exact H.
    + pose proof (IH (with_buffer (keep (grow (buffer st) line)) st) rows) as H.
      cbn [insideArray buffer with_buffer] in H. rewrite Hin in H.
      apply H.
      * eapply Batched_frame; [| | |exact HB]; reflexivity.
      * eapply Logged_frame; [| |exact HL]; reflexivity.
Qed.

Lemma Logged_start (existing : list Row) :
  Logged [] (with_db {| durable := existing; txn := Some [] |}
               (initial existing)).
Proof.
  unfold Logged. cbn. repeat split; [constructor|lia].
Qed.

(** X4. The progress report of a run that adds [n] rows: one
    [Committed batch] line for each whole batch of 500 rows, showing 500,
    1000, ... rows in this order, then the [Final] line showing [n];
    every line shows a number of rows that is at most the number of
    records it shows as checked, which is at most the number of records
    decoded, and the rate computed from the two. *)
Theorem progress_report :
  forall (existing : list Row) (lines : list jstring),
    let n := length (added existing lines) in
    map stamp (console (at_end existing lines))
    = batch_stamps n ++ [(true, Z.of_nat n)]
    /\ Forall (consistent (Z.of_nat (length (records lines))))
         (console (at_end existing lines)).
Proof.
  intros existing lines n. subst n. rewrite added_rows.
  destruct (processFile_spec existing lines)
    as (_ & _ & _ & _ & _ & Hcon).
  destruct (loop_exit_spec existing lines) as (_ & _ & Htc).
  pose proof (for_lines_Logged existing lines _ []
                (Batched_start existing) (Logged_start existing)) as HL.
  cbn [app] in HL.
  change (snd (for_lines lines _)) with (at_loop_exit existing lines) in HL.
  change (flat_map row_for _) with (persisted_rows lines) in HL.
  destruct HL as (Hs & Hc & Hle). rewrite Htc in Hc, Hle.
  rewrite Hcon, map_app, Hs. split; [reflexivity|].
  apply Forall_app. split; [assumption|].
  constructor; [|constructor].
  unfold consistent. cbn [shown_processed shown_checked shown_rate].
  repeat split; lia.
Qed.

(** ** A body entry that cannot be tested *)

(** The loop of lines 77-112 when the tests throw at entry [i] and no
    entry before it qualifies: the exception leaves the loop, and nothing
    was written. *)
Lemma scan_raises (obj : value) (i : nat) (e : exn) (st : state) :
  probe obj i = Throw e ->
  forall (fuel k : nat),
    (k <= i)%nat -> (i < fuel + k)%nat ->
    (forall j, (k <= j < i)%nat -> exists b, probe obj j = Ok (Some (b, false))) ->
    scan fuel obj k false st = (Raised e, st).
Proof.
  intros Hthrow. induction fuel as [|f IH]; intros k Hk Hfuel Hprev; [lia|].
  destruct (Nat.eq_dec k i) as [->|Hne].
  - unfold probe, rbind in Hthrow. cbn [scan]. unfold bind, eval, ret.
    destruct (get_prop obj (lit "bodies")) as [bodies|]; [|congruence].
    destruct (get_prop bodies (lit "length")) as [len|]; [|congruence].
    destruct (counter_lt i len) as [[|]|]; try congruence.
    cbn [andb negb].
    destruct (get_index bodies i) as [b|]; [|congruence].
    destruct (qualifies b); congruence.
  - destruct (Hprev k ltac:(lia)) as (b & Hb).
    apply probe_inv in Hb as (bodies & len & H1 & H2 & H3 & H4 & H5).
    cbn [scan]. unfold bind, eval.
    repeat ((rewrite H1 || rewrite H2 || rewrite H3 || rewrite H4
             || rewrite H5); cbn [andb negb]; cbv beta iota).
    apply IH; [lia|lia|]. intros j Hj. apply Hprev. lia.
Qed.

(** X5. A decoded record that passes the three first-level tests and
    whose body list has, before any body that qualifies, an entry on
    which the tests throw (a [null], say) writes no row, whatever follows
    that entry: the exception is caught at line 113 with the buffer
    already emptied, so the record is counted as checked, nothing else
    changes, and the run goes on with the next line. *)
Theorem untestable_entry_ends_the_scan :
  forall (line : jstring) (st : state) (obj : value) (i : nat) (e : exn),
    insideArray st = true ->
    trim line <> lit "[" ->
    trim line <> lit "]" ->
    JSON.parse (buffer st ++ strip_comma (trim line)) = Some obj ->
    first_level obj = Ok true ->
    (forall j, (j < i)%nat -> exists b, probe obj j = Ok (Some (b, false))) ->
    probe obj i = Throw e ->
    loop_body line st
    = (Done Continue,
       with_totalChecked (totalChecked st + 1) (with_buffer [] st)).
Proof.
  intros line st obj i e Hin Hopen Hclose Hparse Hfl Hprev Hthrow.
  unfold loop_body.
  apply str_eqb_neq in Hopen, Hclose. rewrite Hopen, Hclose, Hin.
  cbn [negb].
  set (st2 := with_totalChecked (totalChecked st + 1) (with_buffer [] st)).
  assert (Hscan : scan (scan_fuel obj) obj 0 false st2 = (Raised e, st2)).
  { apply (scan_raises obj i e st2 Hthrow); [lia| |intros j Hj; apply Hprev; lia].
    assert (i + 2 <= scan_fuel obj)%nat; [|lia].
    apply probed_bound. intros j Hj.
    destruct (Hprev j Hj) as (b & Hb). eauto. }
  apply first_level_iff in Hfl
    as (bodies & population & coords & H1 & H2 & H3 & H4 & H5 & H6).
  unfold try_block, bind at 1, read.
  cbn [buffer with_buffer]. rewrite Hparse.
  unfold bind, update, eval, ret.
  cbn [buffer with_buffer totalChecked with_totalChecked].
  rewrite H1, H2. cbn [negb]. rewrite H3, H4. cbn [negb].
  rewrite H5, H6. cbn [negb].
  change (with_totalChecked _ (with_buffer [] (with_buffer _ st))) with st2.
  rewrite Hscan. reflexivity.
Qed.

Lemma untestable_entry_ends_the_scan_witness :
  loop_body null_entry_text (with_insideArray true (initial []))
  = (Done Continue,
     with_totalChecked
       (totalChecked (with_insideArray true (initial [])) + 1)
       (with_buffer [] (with_insideArray true (initial [])))).
Proof.
  apply (untestable_entry_ends_the_scan null_entry_text
           (with_insideArray true (initial [])) null_entry_record 0
           TypeError).
  - reflexivity.
  - vm_compute; discriminate.
  - vm_compute; discriminate.
  - vm_compute; reflexivity.
  - vm_compute; reflexivity.
  - intros j Hj; lia.
  - vm_compute; reflexivity.
Defined.

(** ** A buffer that can no longer be completed *)

(** X6. The buffer is emptied only by a successful parse.  Once it holds
    a text that no continuation turns into a JSON value, no later line is
    decoded: whatever the rest of the file holds, the loop ends normally
    with the table, the counters and the console as they were, and the
    buffer still beyond repair. *)
Theorem stuck_buffer_blocks_ingestion :
  forall (lines : list jstring) (st : state),
    insideArray st = true ->
    (forall rest, JSON.parse (buffer st ++ rest) = None) ->
    exists st',
      for_lines lines st = (Done tt, st')
      /\ db st' = db st
      /\ processed st' = processed st
      /\ batchCount st' = batchCount st
      /\ totalChecked st' = totalChecked st
      /\ console st' = console st
      /\ (forall rest, JSON.parse (buffer st' ++ rest) = None).
Proof.
  induction lines as [|line rest IH]; intros st Hin Hstuck.
  - exists st. repeat split; assumption || reflexivity.
  - cbn [for_lines]. unfold bind, loop_body.
    destruct (str_eqb (trim line) (lit "[")) eqn:Hopen.
    { destruct (IH (with_insideArray true st)) as (st' & H1 & H2);
        [reflexivity|exact Hstuck|].
      exists st'. split; [exact H1|exact H2]. }
    destruct (str_eqb (trim line) (lit "]")) eqn:Hclose.
    { exists st. repeat split; assumption || reflexivity. }
    rewrite Hin. cbn [negb].
    set (text := buffer st ++ strip_comma (trim line)).
    rewrite try_block_unparsed
      by (cbn [buffer with_buffer]; apply Hstuck).
    rewrite (keep_spec (b := text)) by reflexivity.
    assert (Hne : text <> []).
    { intros Hnil. pose proof (Hstuck (strip_comma (trim line) ++ lit "0")) as H.
      rewrite app_assoc in H. fold text in H. rewrite Hnil in H.
      vm_compute in H. discriminate. }
    assert (Hkeep : keep text = text ++ lit " ")
      by (unfold keep; destruct text; [congruence|reflexivity]).
    rewrite Hkeep.
    destruct (IH (with_buffer (text ++ lit " ") st)) as (st' & H1 & H2).
    + exact Hin.
    + intros more. cbn [buffer with_buffer]. subst text.
      rewrite <- !app_assoc. apply Hstuck.
    + exists st'. split; [exact H1|exact H2].
Qed.

(** The record of [split_file], broken after a comma: with its two
    halves in the buffer, a whole record after it is read without
    effect. *)
Lemma stuck_buffer_blocks_ingestion_witness :
  exists st',
    for_lines [sol_text; sol_text; lit "]"] split_state = (Done tt, st')
    /\ db st' = db split_state
    /\ processed st' = processed split_state
    /\ batchCount st' = batchCount split_state
    /\ totalChecked st' = totalChecked split_state
    /\ console st' = console split_state
    /\ (forall rest, JSON.parse (buffer st' ++ rest) = None).
Proof.
  apply (stuck_buffer_blocks_ingestion [sol_text; sol_text; lit "]"]
           split_state).
  - reflexivity.
  - intros rest. vm_compute. reflexivity.
Defined.

(** ** One element on each line *)

Lemma closing_brace_last (a b c m : jstring) :
  a ++ b ++ 58%N :: c ++ m ++ [125%N]
  = (a ++ b ++ 58%N :: c ++ m) ++ [125%N].
Proof.
  rewrite <- !app_assoc. cbn [app]. rewrite <- !app_assoc. reflexivity.
Qed.

Lemma members_text_last (ps : list (jstring * value)) :
  forall first, exists m, members_text ps first = m ++ [125%N].
Proof.
  induction ps as [|[k x] r IH]; intros first.
  - exists []. reflexivity.
  - cbn [members_text].
    destruct (IH false) as (m & Hm). destruct (IH first) as (m' & Hm').
    destruct x; try (exists m'; exact Hm');
      rewrite Hm, closing_brace_last; eexists; reflexivity.
Qed.

(** What the loop sees of an element line: neither bracket, and, the
    comma gone, the text of the element. *)
Lemma element_line_text (line : jstring) (v : value) :
  element_line line v ->
  str_eqb (trim line) (lit "[") = false
  /\ str_eqb (trim line) (lit "]") = false
  /\ strip_comma (trim line) = JSON.serialize v
  /\ well_formed v /\ plain v = true.
Proof.
  intros (props & pre & post & comma & -> & Hwf & Hfin & Hpre & Hpost & -> & _).
  destruct (members_text_last props true) as (m & Hm).
  assert (Hser : JSON.serialize (VObj props) = 123%N :: m ++ [125%N])
    by (rewrite serialize_obj, Hm; reflexivity).
  set (core := JSON.serialize (VObj props) ++ (if comma then [44%N] else [])).
  assert (Hpad : padded core
                   (pre ++ JSON.serialize (VObj props)
                    ++ (if comma then [44%N] else []) ++ post)).
  { exists pre, post. subst core. rewrite <- app_assoc. auto. }
  rewrite (trim_padded _ _ Hpad).
  assert (Hcore : exists mid b,
            core = 123%N :: mid ++ [b] /\ is_space b = false
            /\ strip_comma core = JSON.serialize (VObj props)).
  { subst core. destruct comma.
    - exists (m ++ [125%N]), 44%N. rewrite Hser at 1.
      split; [reflexivity|]. split; [reflexivity|].
      unfold strip_comma. rewrite rev_unit. cbn [N.eqb Pos.eqb].
      apply rev_involutive.
    - exists m, 125%N. rewrite app_nil_r, Hser.
      split; [reflexivity|]. split; [reflexivity|].
      unfold strip_comma.
      change (123%N :: m ++ [125%N]) with ((123%N :: m) ++ [125%N]).
      rewrite rev_unit. reflexivity. }
  destruct Hcore as (mid & b & Hc & Hb & Hstrip).
  assert (Htrim : trim core = core)
    by (rewrite Hc; apply trim_clean; [reflexivity|exact Hb]).
  rewrite Htrim.
  split; [|split; [|split; [assumption|split; assumption]]].
  - rewrite Hc. reflexivity.
  - rewrite Hc. reflexivity.
Qed.

Lemma records_from_elements (close : jstring) :
  trim close = lit "]" ->
  forall (lines : list jstring) (vs : list value),
    Forall2 element_line lines vs ->
    records_from true [] (lines ++ [close]) = vs.
Proof.
  intros Hclose. induction 1 as [|line v lines vs Hline _ IH].
  - cbn [app records_from]. rewrite Hclose. reflexivity.
  - apply element_line_text in Hline as (Hopen & Hnot & Htext & Hwf & Hfin).
    cbn [app records_from]. rewrite Hopen, Hnot. cbn [negb].
    unfold grow. cbn [app]. rewrite Htext, (parse_serialize v Hwf Hfin), IH.
    reflexivity.
Qed.

(** X7. A dump in the layout the program is written for, the array-open
    token on a line, then one element on each line (an object as
    [JSON.stringify] writes it, indented or not, with or without a comma
    after it), then the array-close token, is decoded into exactly its
    elements, in order: each is counted as checked, and at most one row
    is added for each element that matches. *)
Theorem one_element_per_line :
  forall (existing : list Row) (lines : list jstring) (vs : list value),
    Forall2 element_line lines vs ->
    records (lit "[" :: lines ++ [lit "]"]) = vs
    /\ totalChecked (at_end existing (lit "[" :: lines ++ [lit "]"]))
       = Z.of_nat (length vs)
    /\ (length (added existing (lit "[" :: lines ++ [lit "]"]))
        <= length (filter is_matched vs))%nat.
Proof.
  intros existing lines vs H.
  assert (Hrec : records (lit "[" :: lines ++ [lit "]"]) = vs)
    by (apply (records_from_elements (lit "]")); [reflexivity|exact H]).
  destruct (processFile_spec existing (lit "[" :: lines ++ [lit "]"]))
    as (_ & _ & _ & _ & Htc & _).
  split; [exact Hrec|]. split.
  - rewrite Htc, Hrec. reflexivity.
  - rewrite added_rows. unfold persisted_rows. rewrite Hrec.
    apply persisted_count.
Qed.

Lemma one_element_per_line_witness :
  records (lit "[" :: two_line_file ++ [lit "]"])
  = [first_record; second_record]
  /\ totalChecked (at_end [] (lit "[" :: two_line_file ++ [lit "]"]))
     = Z.of_nat (length [first_record; second_record])
  /\ (length (added [] (lit "[" :: two_line_file ++ [lit "]"]))
      <= length (filter is_matched [first_record; second_record]))%nat.
Proof.
  apply (one_element_per_line [] two_line_file [first_record; second_record]).
  constructor; [|constructor; [|constructor]].
  - exists [(lit "name", VStr (lit "A")); (lit "population", VNum zero)],
      (lit "  "), [], true.
    split; [reflexivity|]. split.
    { apply (parse_well_formed (json_text "{'name':'A','population':0}")).
      vm_compute. reflexivity. }
    split; [reflexivity|].
    split; [repeat constructor|]. split; [constructor|].
    split; vm_compute; reflexivity.
  - exists [(lit "name", VStr (lit "B")); (lit "bodies", VArr [])],
      (lit "  "), [9%N], false.
    split; [reflexivity|]. split.
    { apply (parse_well_formed (json_text "{'name':'B','bodies':[]}")).
      vm_compute. reflexivity. }
    split; [reflexivity|].
    split; [repeat constructor|]. split; [repeat constructor|].
    split; vm_compute; reflexivity.
Defined.

(** ** A file and its first lines *)

Lemma records_from_app (later_lines : list jstring) :
  forall (lines : list jstring) (inside : bool) (buf : jstring),
    exists later,
      records_from inside buf (lines ++ later_lines)
      = records_from inside buf lines ++ later.
Proof.
  induction lines as [|line rest IH]; intros inside buf.
  - exists (records_from inside buf later_lines). reflexivity.
  - cbn [app records_from].
    destruct (str_eqb (trim line) (lit "[")); [apply IH|].
    destruct (str_eqb (trim line) (lit "]")); [exists []; reflexivity|].
    destruct (negb inside); [apply IH|].
    destruct (JSON.parse (grow buf line)) as [obj|]; [|apply IH].
    destruct (IH inside []) as (later & ->).
    exists later. reflexivity.
Qed.

(** X8. Ingestion goes forward only: the records decoded from the
    first lines of a file, and the rows added for them, do not depend on
    the lines that follow.  The run on a file cut after any line decodes
    a prefix of the records, and adds a prefix of the rows, of the run on
    the whole file; the rows that follow are at most one for each
    further record that matches. *)
Theorem first_lines_give_first_rows :
  forall (existing : list Row) (lines later_lines : list jstring),
    exists later more,
      records (lines ++ later_lines) = records lines ++ later
      /\ added existing (lines ++ later_lines)
         = added existing lines ++ more
      /\ (length more <= length (filter is_matched later))%nat.
Proof.
  intros existing lines later_lines.
  destruct (records_from_app later_lines lines false []) as (later & H).
  exists later, (flat_map row_for later). split; [exact H|].
  split; [|apply persisted_count].
  rewrite !added_rows. unfold persisted_rows, records.
  rewrite H. apply flat_map_app.
Qed.

(** ** A second run *)

(** X9. The table has no key and the run does not look at what it
    holds: a second run on the same file adds the same rows once more,
    after the rows of the first run. *)
Theorem second_run_adds_the_rows_again :
  forall (existing : list Row) (lines : list jstring),
    durable (db (at_end (durable (db (at_end existing lines))) lines))
    = existing ++ added existing lines ++ added existing lines.
Proof.
  intros existing lines.
  destruct (processFile_spec existing lines) as (_ & Hd & _).
  destruct (processFile_spec (durable (db (at_end existing lines))) lines)
    as (_ & Hd' & _).
  rewrite Hd', Hd, added_rows, <- app_assoc. reflexivity.
Qed.



(* ================================================================== *)
(** * Part IV: the report of [sort_by_distance.ts] *)
(* ================================================================== *)

(** [toFixed] at three digits is the [toFixed3] of the progress lines. *)
Lemma toFixed_3 (v : float) : SortByDistance.toFixed 3 v = toFixed3 v.
Proof.
  unfold SortByDistance.toFixed, toFixed3.
  destruct (Prim2SF v) as [| | |negative m e]; reflexivity.
Qed.

(** A line of a listing, as it is printed. *)
Lemma entry_text_example :
  SortByDistance.entry_text 7 (SortByDistance.numbered 12)
  = Some (lit "   7 | 12                        |      12.00 | (12.0, 0.0, 0.0) | B").
Proof. vm_compute. reflexivity. Qed.

(** ** Slices *)

Lemma slice_first (A : Type) (a : list A) :
  SortByDistance.slice 0 (Some 20) a = firstn 20 a.
Proof.
  unfold SortByDistance.slice, SortByDistance.clamp.
  cbn [Z.ltb Z.compare]. rewrite (Z.min_l 0) by lia. cbn [Z.to_nat skipn].
  rewrite Nat.sub_0_r.
  destruct (Z.min_spec 20 (Z.of_nat (length a))) as [[H ->]|[H ->]].
  - reflexivity.
  - rewrite Nat2Z.id, firstn_all. symmetry. apply firstn_all2. lia.
Qed.

Lemma slice_last (A : Type) (a : list A) :
  (10 <= length a)%nat ->
  SortByDistance.slice (-10) None a = skipn (length a - 10) a.
Proof.
  intros H. unfold SortByDistance.slice, SortByDistance.clamp.
  cbn [Z.ltb Z.compare]. rewrite Z.max_l by lia.
  replace (Z.to_nat (Z.of_nat (length a) + -10)) with (length a - 10)%nat
    by lia.
  apply firstn_all2. rewrite length_skipn. lia.
Qed.

(** ** One listing *)

Lemma forEach_ok (rank_of : nat -> Z) :
  forall (a : list SortByDistance.system) (index : nat)
         (console : list SortByDistance.output),
    forallb SortByDistance.printable a = true ->
    SortByDistance.forEach rank_of a index console
    = (Ok tt, console ++ SortByDistance.ranked rank_of index a).
Proof.
  induction a as [|s rest IH]; intros index console H.
  - cbn. rewrite app_nil_r. reflexivity.
  - cbn [forallb] in H. apply andb_true_iff in H as (Hs & Hrest).
    cbn [SortByDistance.forEach]. rewrite Hs, (IH _ _ Hrest).
    rewrite <- app_assoc. reflexivity.
Qed.

Lemma forEach_throws (rank_of : nat -> Z) :
  forall (a : list SortByDistance.system) (index : nat)
         (console : list SortByDistance.output),
    forallb SortByDistance.printable a = false ->
    exists shown,
      SortByDistance.forEach rank_of a index console
      = (Throw TypeError, console ++ shown)
      /\ forall o, In o shown -> exists r s, o = SortByDistance.Entry r s.
Proof.
  induction a as [|s rest IH]; intros index console H; [discriminate|].
  cbn [forallb] in H. cbn [SortByDistance.forEach].
  destruct (SortByDistance.printable s).
  - cbn [andb] in H.
    destruct (IH (S index) (console ++ [SortByDistance.Entry (rank_of index) s]) H)
      as (shown & -> & Hshown).
    exists (SortByDistance.Entry (rank_of index) s :: shown).
    rewrite <- app_assoc. split; [reflexivity|].
    intros o [<-|Ho]; [eauto|auto].
  - exists []. rewrite app_nil_r. split; [reflexivity|intros o []].
Qed.

(** Every line printed by a listing shows a rank and the entry of the
    listed array that the rank was computed for. *)
Lemma forEach_entries (rank_of : nat -> Z) :
  forall (a : list SortByDistance.system) (index : nat)
         (console : list SortByDistance.output) (r : Z)
         (s : SortByDistance.system),
    In (r, s) (SortByDistance.entries
                 (snd (SortByDistance.forEach rank_of a index console))) ->
    In (r, s) (SortByDistance.entries console)
    \/ exists j, nth_error a j = Some s /\ r = rank_of (index + j)%nat.
Proof.
  assert (Happ : forall c r s,
             In (r, s) (SortByDistance.entries c) <->
             In (SortByDistance.Entry r s) c).
  { induction c as [|[t|r' s'] c IH]; intros r s; cbn; [tauto| |].
    - rewrite IH. split; [auto|intros [H|H]; [discriminate|exact H]].
    - rewrite IH. split; intros [H|H]; auto; left; congruence. }
  induction a as [|s0 rest IH]; intros index console r s H.
  - left. exact H.
  - cbn [SortByDistance.forEach] in H.
    destruct (SortByDistance.printable s0); [|left; exact H].
    apply IH in H as [H|(j & Hj & ->)].
    + apply Happ in H. apply in_app_or in H as [H|[H|[]]].
      * left. apply Happ. exact H.
      * right. exists 0%nat. injection H as <- <-.
        split; [reflexivity|]. rewrite Nat.add_0_r. reflexivity.
    + right. exists (S j). split; [exact Hj|]. f_equal. lia.
Qed.

(** X10. Every line of the two listings shows a system next to its true
    rank: the rank printed is between 1 and the number of systems, and
    the system shown is the one at that place in the order of the query.
    This holds for the lines printed before an exception too. *)
Theorem ranks_are_positions :
  forall (systems : list SortByDistance.system) (r : Z)
         (s : SortByDistance.system),
    In (r, s) (SortByDistance.entries (snd (SortByDistance.main systems))) ->
    1 <= r <= Z.of_nat (length systems)
    /\ nth_error systems (Z.to_nat (r - 1)) = Some s.
Proof.
  intros systems r s. unfold SortByDistance.main.
  set (top := [_; _; _] ++ SortByDistance.heading).
  set (first := SortByDistance.forEach _ (SortByDistance.slice 0 (Some 20) systems) 0 top).
  assert (Hfirst : In (r, s) (SortByDistance.entries (snd first)) ->
            1 <= r <= Z.of_nat (length systems)
            /\ nth_error systems (Z.to_nat (r - 1)) = Some s).
  { intros H. apply forEach_entries in H as [[]|(j & Hj & ->)].
    rewrite slice_first, nth_error_firstn in Hj.
    destruct (j <? 20)%nat; [|discriminate].
    assert (j < length systems)%nat
      by (apply nth_error_Some; congruence).
    cbn [Nat.add]. split; [lia|].
    replace (Z.to_nat (Z.of_nat j + 1 - 1)) with j by lia. exact Hj. }
  assert (Hout : forall (c : list SortByDistance.output) (extra : list SortByDistance.output),
            (forall o, In o extra -> exists t, o = SortByDistance.Text t) ->
            In (r, s) (SortByDistance.entries (c ++ extra)) ->
            In (r, s) (SortByDistance.entries c)).
  { intros c extra Hextra. induction c as [|[t|r' s'] c IH]; cbn [app SortByDistance.entries].
    - induction extra as [|o extra IHe]; [intros []|].
      destruct (Hextra o (or_introl eq_refl)) as (t & ->).
      cbn [SortByDistance.entries]. apply IHe.
      intros o' Ho'. apply Hextra. right. exact Ho'.
    - exact IH.
    - intros [H|H]; [left; exact H|right; apply IH; exact H]. }
  assert (Htexts : forall o, In o SortByDistance.heading ->
                     exists t, o = SortByDistance.Text t).
  { intros o [<-|[<-|[]]]; eauto. }
  destruct first as [[[]|e] c1] eqn:E1; cbn [snd] in Hfirst; [|exact Hfirst].
  destruct (20 <? Z.of_nat (length systems)) eqn:Hlen.
  - apply Z.ltb_lt in Hlen.
    set (second := SortByDistance.forEach _ _ 0 _).
    assert (Hsecond : In (r, s) (SortByDistance.entries (snd second)) ->
              1 <= r <= Z.of_nat (length systems)
              /\ nth_error systems (Z.to_nat (r - 1)) = Some s).
    { intros H. apply forEach_entries in H as [H|(j & Hj & ->)].
      - apply Hfirst. eapply Hout; [|exact H].
        intros o [<-|Ho]; [eauto|apply Htexts; exact Ho].
      - rewrite slice_last, nth_error_skipn in Hj by lia.
        assert (length systems - 10 + j < length systems)%nat
          by (apply nth_error_Some; congruence).
        cbn [Nat.add]. split; [lia|].
        replace (Z.to_nat (Z.of_nat (length systems) - 9 + Z.of_nat j - 1))
          with (length systems - 10 + j)%nat by lia.
        exact Hj. }
    destruct second as [[[]|e] c2]; cbn [snd] in *; [|exact Hsecond].
    intros H. apply Hsecond. eapply Hout; [|exact H].
    intros o [<-|[<-|[]]]; eauto.
  - cbn [snd]. intros H. apply Hfirst. eapply Hout; [|exact H].
    intros o [<-|[<-|[]]]; eauto.
Qed.

Lemma ranks_are_positions_witness :
  1 <= 23 <= Z.of_nat (length (SortByDistance.sample 23))
  /\ nth_error (SortByDistance.sample 23) (Z.to_nat (23 - 1))
     = Some (SortByDistance.numbered 23).
Proof.
  apply (ranks_are_positions (SortByDistance.sample 23) 23
           (SortByDistance.numbered 23)).
  vm_compute. repeat (first [left; reflexivity | right]).
Defined.

(** ** The ranks of a report *)

Lemma entries_app (a b : list SortByDistance.output) :
  SortByDistance.entries (a ++ b)
  = SortByDistance.entries a ++ SortByDistance.entries b.
Proof.
  induction a as [|[t|r s] a IH]; cbn [app SortByDistance.entries];
    [reflexivity|exact IH|rewrite IH; reflexivity].
Qed.

Lemma ranked_ranks (rank_of : nat -> Z) :
  forall (a : list SortByDistance.system) (index : nat),
    map fst (SortByDistance.entries (SortByDistance.ranked rank_of index a))
    = map rank_of (seq index (length a)).
Proof.
  unfold SortByDistance.ranked.
  induction a as [|s a IH]; intros index; [reflexivity|].
  cbn [length seq combine map SortByDistance.entries fst snd].
  rewrite IH. reflexivity.
Qed.

Lemma map_seq_from (f : nat -> Z) (start : nat) :
  (forall i, f i = Z.of_nat (start + i)) ->
  forall len k, map f (seq k len) = map Z.of_nat (seq (start + k) len).
Proof.
  intros Hf. induction len as [|len IH]; intros k; [reflexivity|].
  cbn [seq map]. rewrite Hf, IH. repeat f_equal. lia.
Qed.

Lemma NoDup_shared (A : Type) (a : A) (l1 l2 : list A) :
  In a l1 -> In a l2 -> ~ NoDup (l1 ++ l2).
Proof.
  intros H1 H2 Hnd. apply in_split in H2 as (p & q & ->).
  rewrite app_assoc in Hnd.
  apply NoDup_remove_2 in Hnd. apply Hnd.
  apply in_or_app. left. apply in_or_app. left. exact H1.
Qed.

Lemma forEach_status (rank_of : nat -> Z)
      (a : list SortByDistance.system) (index : nat)
      (console : list SortByDistance.output) :
  fst (SortByDistance.forEach rank_of a index console) = Ok tt ->
  SortByDistance.forEach rank_of a index console
  = (Ok tt, console ++ SortByDistance.ranked rank_of index a).
Proof.
  destruct (forallb SortByDistance.printable a) eqn:E.
  - intros _. apply forEach_ok. exact E.
  - destruct (forEach_throws rank_of a index console E) as (shown & -> & _).
    discriminate.
Qed.

(** X11. When the script completes, the ranks printed are 1, 2, ...
    for the first twenty systems (all of them when there are fewer), and
    for more than twenty systems the ranks of the last ten after them.
    No rank is printed twice unless there are between 21 and 29 systems:
    then the second listing repeats lines of the first. *)
Theorem printed_ranks :
  forall systems : list SortByDistance.system,
    fst (SortByDistance.main systems) = Ok tt ->
    let n := length systems in
    let ranks :=
      map fst (SortByDistance.entries (snd (SortByDistance.main systems))) in
    ranks
    = map Z.of_nat (seq 1 (Nat.min 20 n))
      ++ (if (20 <? n)%nat then map Z.of_nat (seq (n - 9) 10) else [])
    /\ (NoDup ranks <-> (n <= 20 \/ 30 <= n)%nat).
Proof.
  intros systems Hok n ranks.
  assert (Hranks : ranks
            = map Z.of_nat
                (seq 1 (Nat.min 20 n)
                 ++ (if (20 <? n)%nat then seq (n - 9) 10 else []))).
  { subst ranks. revert Hok. unfold SortByDistance.main.
    set (top := [_; _; _] ++ SortByDistance.heading).
    assert (Htop : SortByDistance.entries top = []) by reflexivity.
    clearbody top.
    destruct (SortByDistance.forEach _ (SortByDistance.slice 0 (Some 20) systems) 0 top)
      as [[[]|e] c1] eqn:E1; [|discriminate].
    rewrite forEach_status in E1 by (rewrite E1; reflexivity).
    injection E1 as <-.
    assert (Hfirst : map fst (SortByDistance.entries
                       (SortByDistance.ranked
                          (fun index => Z.of_nat index + 1) 0
                          (SortByDistance.slice 0 (Some 20) systems)))
                     = map Z.of_nat (seq 1 (Nat.min 20 n))).
    { rewrite ranked_ranks, slice_first, length_firstn. fold n.
      rewrite (map_seq_from _ 1); [reflexivity|]. intros i. lia. }
    destruct (20 <? Z.of_nat (length systems)) eqn:Hlen.
    - apply Z.ltb_lt in Hlen.
      assert (Hn : (20 <? n)%nat = true) by (apply Nat.ltb_lt; lia).
      rewrite Hn.
      destruct (SortByDistance.forEach _ _ 0 _) as [[[]|e] c2] eqn:E2;
        [|discriminate].
      intros _. cbn [snd].
      rewrite forEach_status in E2 by (rewrite E2; reflexivity).
      injection E2 as <-.
      rewrite !entries_app, Htop, !map_app, Hfirst, ranked_ranks.
      cbn [app map SortByDistance.entries SortByDistance.heading].
      rewrite !app_nil_r. f_equal.
      rewrite slice_last, length_skipn by lia. fold n.
      replace (n - (n - 10))%nat with 10%nat by lia.
      rewrite (map_seq_from _ (n - 9)); [rewrite Nat.add_0_r; reflexivity|].
      intros i. lia.
    - apply Z.ltb_ge in Hlen.
      assert (Hn : (20 <? n)%nat = false) by (apply Nat.ltb_ge; lia).
      rewrite Hn. intros _. cbn [snd].
      rewrite !entries_app, Htop, !map_app, Hfirst.
      cbn [app map SortByDistance.entries].
      rewrite !app_nil_r. reflexivity. }
  split.
  - rewrite Hranks, map_app.
    destruct (20 <? n)%nat; reflexivity.
  - rewrite Hranks. split.
    + intros Hnd. apply NoDup_map_inv in Hnd.
      destruct (20 <? n)%nat eqn:Hn; [|apply Nat.ltb_ge in Hn; lia].
      apply Nat.ltb_lt in Hn.
      destruct (le_lt_dec 30 n) as [|Hlt]; [lia|]. exfalso.
      revert Hnd. apply (NoDup_shared nat 20%nat); apply in_seq; lia.
    + intros Hn. apply Injective_map_NoDup; [intros a b; apply Nat2Z.inj|].
      destruct (20 <? n)%nat eqn:Hlt.
      * apply Nat.ltb_lt in Hlt.
        apply NoDup_app; try apply seq_NoDup.
        intros a Ha Hb. apply in_seq in Ha, Hb. lia.
      * rewrite app_nil_r. apply seq_NoDup.
Qed.

Lemma printed_ranks_witness :
  let n := length (SortByDistance.sample 23) in
  let ranks :=
    map fst (SortByDistance.entries
               (snd (SortByDistance.main (SortByDistance.sample 23)))) in
  ranks
  = map Z.of_nat (seq 1 (Nat.min 20 n))
    ++ (if (20 <? n)%nat then map Z.of_nat (seq (n - 9) 10) else [])
  /\ (NoDup ranks <-> (n <= 20 \/ 30 <= n)%nat).
Proof.
  apply (printed_ranks (SortByDistance.sample 23)).
  vm_compute. reflexivity.
Defined.

(** ** Whether the script completes *)

Lemma ranked_entry (rank_of : nat -> Z) (index : nat)
      (a : list SortByDistance.system) (o : SortByDistance.output) :
  In o (SortByDistance.ranked rank_of index a) ->
  exists r s, o = SortByDistance.Entry r s.
Proof.
  unfold SortByDistance.ranked. intros H.
  apply in_map_iff in H as (p & <- & _). eauto.
Qed.

(** X12. The script gets to line 45, where the building of the table
    starts, exactly when the template can be evaluated on every system
    it lists, that is when each has a name and three numbers as
    coordinates.  A single listed system with a NULL name ends the script
    on a TypeError before that line. *)
Theorem report_completes_iff :
  forall systems : list SortByDistance.system,
    if forallb SortByDistance.printable (SortByDistance.listed systems) then
      fst (SortByDistance.main systems) = Ok tt
      /\ In SortByDistance.creating (snd (SortByDistance.main systems))
    else
      fst (SortByDistance.main systems) = Throw TypeError
      /\ ~ In SortByDistance.creating (snd (SortByDistance.main systems)).
Proof.
  intros systems. unfold SortByDistance.listed, SortByDistance.main.
  rewrite forallb_app.
  set (top := [_; _; _] ++ SortByDistance.heading).
  assert (Htop : ~ In SortByDistance.creating top).
  { intros H. repeat (destruct H as [H|H]; [discriminate H|]). exact H. }
  assert (Hhead :
            ~ In SortByDistance.creating
                (SortByDistance.Text (10%N :: lit "Farthest systems from Sol:")
                 :: SortByDistance.heading)).
  { intros H. repeat (destruct H as [H|H]; [discriminate H|]). exact H. }
  assert (Hentry : forall l,
            (forall o, In o l -> exists r s, o = SortByDistance.Entry r s) ->
            ~ In SortByDistance.creating l).
  { intros l Hl H. destruct (Hl _ H) as (r & s & Hc). discriminate Hc. }
  clearbody top.
  destruct (forallb SortByDistance.printable
              (SortByDistance.slice 0 (Some 20) systems)) eqn:E1.
  - rewrite (forEach_ok _ _ _ _ E1). cbn [andb].
    destruct (20 <? Z.of_nat (length systems)).
    + destruct (forallb SortByDistance.printable
                  (SortByDistance.slice (-10) None systems)) eqn:E2.
      * rewrite (forEach_ok _ _ _ _ E2). cbn [fst snd].
        split; [reflexivity|]. apply in_or_app. right. left. reflexivity.
      * destruct (forEach_throws
                    (fun index => Z.of_nat (length systems) - 9 + Z.of_nat index)
                    _ 0
                    ((top ++ SortByDistance.ranked
                               (fun index => Z.of_nat index + 1) 0
                               (SortByDistance.slice 0 (Some 20) systems))
                     ++ SortByDistance.Text
                          (10%N :: lit "Farthest systems from Sol:")
                        :: SortByDistance.heading) E2)
          as (shown & -> & Hshown).
        cbn [fst snd]. split; [reflexivity|].
        intros H. repeat (apply in_app_or in H as [H|H]).
        -- exact (Htop H).
        -- exact (Hentry _ (ranked_entry _ _ _) H).
        -- exact (Hhead H).
        -- exact (Hentry _ Hshown H).
    + cbn [forallb fst snd]. split; [reflexivity|].
      apply in_or_app. right. left. reflexivity.
  - destruct (forEach_throws (fun index => Z.of_nat index + 1) _ 0 top E1)
      as (shown & -> & Hshown).
    cbn [andb fst snd]. split; [reflexivity|].
    intros H. apply in_app_or in H as [H|H].
    + exact (Htop H).
    + exact (Hentry _ Hshown H).
Qed.

(** Five systems and then one without a name: the five are listed, and
    the script ends there. *)
Lemma nameless_scenario :
  let run := SortByDistance.main
               (SortByDistance.sample 5 ++ [SortByDistance.nameless]) in
  fst run = Throw TypeError
  /\ map fst (SortByDistance.entries (snd run)) = [1; 2; 3; 4; 5].
Proof. vm_compute. split; reflexivity. Qed.



(* ================================================================== *)
(** * Part V: the analysis of the stored systems *)
(* ================================================================== *)

(** ** Filters *)

Lemma filter_items_kept (test : value -> result bool) :
  forall (items kept : list value),
    Analysis.filter_items test items = Ok kept ->
    Forall (fun body => test body = Ok true) kept
    /\ (length kept <= length items)%nat.
Proof.
  induction items as [|body rest IH]; intros kept H.
  - injection H as <-. split; [constructor|reflexivity].
  - cbn [Analysis.filter_items] in H. unfold rbind in H.
    destruct (test body) as [k|] eqn:Hk; [|discriminate].
    destruct (Analysis.filter_items test rest) as [others|]; [|discriminate].
    destruct (IH others eq_refl) as (Hall & Hlen).
    injection H as <-. destruct k; cbn [length].
    + split; [constructor; assumption|lia].
    + split; [assumption|lia].
Qed.

(** A weaker test keeps at least as many bodies. *)
Lemma filter_items_weaker (strong weak : value -> result bool) :
  (forall body, strong body = Ok true -> weak body = Ok true) ->
  forall (items kept kept' : list value),
    Analysis.filter_items strong items = Ok kept ->
    Analysis.filter_items weak items = Ok kept' ->
    (length kept <= length kept')%nat.
Proof.
  intros Himp. induction items as [|body rest IH]; intros kept kept' H H'.
  - injection H as <-. cbn. lia.
  - cbn [Analysis.filter_items] in H, H'. unfold rbind in H, H'.
    destruct (strong body) as [k|] eqn:Hk; [|discriminate].
    destruct (weak body) as [k'|] eqn:Hk'; [|discriminate].
    destruct (Analysis.filter_items strong rest) as [others|]; [|discriminate].
    destruct (Analysis.filter_items weak rest) as [others'|]; [|discriminate].
    pose proof (IH others others' eq_refl eq_refl) as Hle.
    injection H as <-. injection H' as <-.
    destruct k, k'; cbn [length]; try lia.
    rewrite (Himp body Hk) in Hk'. discriminate.
Qed.

(** Three tests of which no two hold of one body keep, together, at
    most as many bodies as there are. *)
Lemma filter_items_apart (t1 t2 t3 : value -> result bool) :
  (forall body, t1 body = Ok true -> t2 body = Ok false /\ t3 body = Ok false) ->
  (forall body, t2 body = Ok true -> t3 body = Ok false) ->
  forall (items k1 k2 k3 : list value),
    Analysis.filter_items t1 items = Ok k1 ->
    Analysis.filter_items t2 items = Ok k2 ->
    Analysis.filter_items t3 items = Ok k3 ->
    (length k1 + length k2 + length k3 <= length items)%nat.
Proof.
  intros H12 H23.
  induction items as [|body rest IH]; intros k1 k2 k3 H1 H2 H3.
  - injection H1 as <-. injection H2 as <-. injection H3 as <-. cbn. lia.
  - cbn [Analysis.filter_items] in H1, H2, H3. unfold rbind in H1, H2, H3.
    destruct (t1 body) as [b1|] eqn:E1; [|discriminate].
    destruct (t2 body) as [b2|] eqn:E2; [|discriminate].
    destruct (t3 body) as [b3|] eqn:E3; [|discriminate].
    destruct (Analysis.filter_items t1 rest) as [o1|]; [|discriminate].
    destruct (Analysis.filter_items t2 rest) as [o2|]; [|discriminate].
    destruct (Analysis.filter_items t3 rest) as [o3|]; [|discriminate].
    pose proof (IH o1 o2 o3 eq_refl eq_refl eq_refl) as Hle.
    injection H1 as <-. injection H2 as <-. injection H3 as <-.
    destruct b1.
    + destruct (H12 body E1) as (F2 & F3).
      rewrite F2 in E2. rewrite F3 in E3.
      injection E2 as <-. injection E3 as <-. cbn [length]. lia.
    + destruct b2.
      * rewrite (H23 body E2) in E3. injection E3 as <-. cbn [length]. lia.
      * destruct b3; cbn [length]; lia.
Qed.

(** The first body a filter keeps. *)
Lemma filter_items_first (test : value -> result bool) (body : value) :
  test body = Ok true ->
  forall (items kept : list value) (i : nat),
    nth_error items i = Some body ->
    (forall j, (j < i)%nat ->
       exists b, nth_error items j = Some b /\ test b = Ok false) ->
    Analysis.filter_items test items = Ok kept ->
    hd_error kept = Some body.
Proof.
  intros Hbody. induction items as [|b rest IH]; intros kept i Hi Hprev H.
  - destruct i; discriminate.
  - cbn [Analysis.filter_items] in H. unfold rbind in H.
    destruct i as [|i].
    + injection Hi as ->. rewrite Hbody in H.
      destruct (Analysis.filter_items test rest); [|discriminate].
      injection H as <-. reflexivity.
    + destruct (Hprev 0%nat ltac:(lia)) as (b0 & Hb0 & Hfalse).
      injection Hb0 as <-. rewrite Hfalse in H.
      destruct (Analysis.filter_items test rest) as [others|] eqn:E;
        [|discriminate].
      injection H as <-.
      apply (IH others i); [exact Hi| |reflexivity].
      intros j Hj. apply (Hprev (S j)). lia.
Qed.

(** ** The tests of the analysis against the test of the ingestion *)

Lemma planet_test_qualifies (body : value) :
  Analysis.ringed_landable_atmospheric body = Ok true ->
  qualifies body = Ok true.
Proof.
  unfold Analysis.ringed_landable_atmospheric, rbind.
  destruct (get_prop body (lit "type")) as [t|]; [|discriminate].
  destruct (Analysis.is_text t (lit "Planet")); [trivial|discriminate].
Qed.

Lemma qualifies_ringed (body : value) :
  qualifies body = Ok true -> Analysis.ringed body = Ok true.
Proof.
  intros H. apply qualifies_true_iff in H
    as ((rings & len & H1 & H2 & H3 & H4) & _).
  unfold Analysis.ringed, rbind. rewrite H1, H2. cbn [negb].
  rewrite H3. exact H4.
Qed.

Lemma qualifies_landable (body : value) :
  qualifies body = Ok true -> Analysis.is_landable body = Ok true.
Proof.
  intros H. apply qualifies_true_iff in H as (_ & H & _).
  unfold Analysis.is_landable, rbind. rewrite H. reflexivity.
Qed.

Lemma qualifies_atmospheric (body : value) :
  qualifies body = Ok true -> Analysis.atmospheric body = Ok true.
Proof.
  intros H. apply qualifies_true_iff in H as (_ & _ & (a & H1 & H2)).
  unfold Analysis.atmospheric, rbind. rewrite H1, H2. cbn [negb].
  rewrite (truthy_not_null _ H2). reflexivity.
Qed.

Lemma subType_apart (s t : jstring) (body : value) :
  s <> t ->
  Analysis.has_subType s body = Ok true ->
  Analysis.has_subType t body = Ok false.
Proof.
  intros Hne. unfold Analysis.has_subType, rbind.
  destruct (get_prop body (lit "subType")) as [v|]; [|discriminate].
  destruct v; cbn [Analysis.is_text]; try discriminate.
  intros H. injection H as H. apply str_eqb_eq in H. subst s.
  f_equal. apply str_eqb_neq. exact Hne.
Qed.

(** ** The systems that are kept *)

(** X13. Every system the analysis keeps comes with counts that agree
    with each other: at least one Earth-like world and at least one
    ringed, landable planet with an atmosphere, each of these planets a
    body that passes the test of the ingestion; the numbers of ringed, of
    landable and of atmospheric bodies are each at least the number of
    these planets and at most the number of bodies, and the Earth-like,
    water and ammonia worlds, no two of which are the same body, are
    together at most the number of bodies. *)
Theorem kept_systems_counts :
  forall (system : Type) (system_data : system -> option jstring)
         (systems : list system) (s : system) (found : Analysis.analysis),
    In (s, found) (Analysis.matchingSystems system_data systems) ->
    In s systems
    /\ (1 <= length (Analysis.earthLikeWorlds found))%nat
    /\ (1 <= length (Analysis.ringedLandableAtmospheric found))%nat
    /\ Forall (fun body => qualifies body = Ok true)
         (Analysis.ringedLandableAtmospheric found)
    /\ (length (Analysis.ringedLandableAtmospheric found)
        <= Analysis.ringedBodies found <= Analysis.totalBodies found)%nat
    /\ (length (Analysis.ringedLandableAtmospheric found)
        <= Analysis.landableBodies found <= Analysis.totalBodies found)%nat
    /\ (length (Analysis.ringedLandableAtmospheric found)
        <= Analysis.atmosphericBodies found <= Analysis.totalBodies found)%nat
    /\ (length (Analysis.earthLikeWorlds found) + Analysis.waterWorlds found
        + Analysis.ammoniaWorlds found <= Analysis.totalBodies found)%nat.
Proof.
  intros system system_data systems s found Hin.
  unfold Analysis.matchingSystems in Hin.
  apply in_flat_map in Hin as (s' & Hs & Hin).
  destruct (Analysis.analyse (system_data s')) as [[a|]|] eqn:Ha;
    try contradiction.
  destruct Hin as [Heq|[]]. injection Heq as -> ->.
  split; [exact Hs|]. clear Hs.
  unfold Analysis.analyse, rbind in Ha.
  destruct (Analysis.bodies_of (system_data s)) as [bodies|]; [|discriminate].
  unfold Analysis.filter, rbind in Ha.
  destruct (Analysis.items_of bodies) as [items|]; [|discriminate].
  destruct (Analysis.filter_items
              (Analysis.has_subType (lit "Earth-like world")) items)
    as [earth|] eqn:Hearth; [|discriminate].
  destruct (Analysis.filter_items Analysis.ringed_landable_atmospheric items)
    as [planets|] eqn:Hplanets; [|discriminate].
  destruct ((0 <? length earth)%nat && (0 <? length planets)%nat) eqn:Hboth;
    [|discriminate].
  apply andb_true_iff in Hboth as (He & Hp).
  apply Nat.ltb_lt in He, Hp.
  destruct (Analysis.filter_items
              (Analysis.has_subType (lit "Water world")) items)
    as [water|] eqn:Hwater; [|discriminate].
  destruct (Analysis.filter_items
              (Analysis.has_subType (lit "Ammonia world")) items)
    as [ammonia|] eqn:Hammonia; [|discriminate].
  destruct (Analysis.filter_items Analysis.ringed items) as [rings|] eqn:Hrings;
    [|discriminate].
  destruct (Analysis.filter_items Analysis.is_landable items)
    as [landable|] eqn:Hlandable; [|discriminate].
  destruct (Analysis.filter_items Analysis.atmospheric items)
    as [atmosphere|] eqn:Hatmosphere; [|discriminate].
  injection Ha as <-.
  cbn [Analysis.earthLikeWorlds Analysis.ringedLandableAtmospheric
       Analysis.totalBodies Analysis.waterWorlds Analysis.ammoniaWorlds
       Analysis.ringedBodies Analysis.landableBodies
       Analysis.atmosphericBodies].
  destruct (filter_items_kept _ _ _ Hplanets) as (Hall & _).
  destruct (filter_items_kept _ _ _ Hrings) as (_ & Hr).
  destruct (filter_items_kept _ _ _ Hlandable) as (_ & Hl).
  destruct (filter_items_kept _ _ _ Hatmosphere) as (_ & Hat).
  split; [lia|]. split; [lia|].
  split.
  { eapply Forall_impl; [|exact Hall]. apply planet_test_qualifies. }
  split.
  { split; [|exact Hr].
    apply (filter_items_weaker Analysis.ringed_landable_atmospheric
             Analysis.ringed) with (items := items); try assumption.
    intros b Hb. apply qualifies_ringed, planet_test_qualifies, Hb. }
  split.
  { split; [|exact Hl].
    apply (filter_items_weaker Analysis.ringed_landable_atmospheric
             Analysis.is_landable) with (items := items); try assumption.
    intros b Hb. apply qualifies_landable, planet_test_qualifies, Hb. }
  split.
  { split; [|exact Hat].
    apply (filter_items_weaker Analysis.ringed_landable_atmospheric
             Analysis.atmospheric) with (items := items); try assumption.
    intros b Hb. apply qualifies_atmospheric, planet_test_qualifies, Hb. }
  apply (filter_items_apart
           (Analysis.has_subType (lit "Earth-like world"))
           (Analysis.has_subType (lit "Water world"))
           (Analysis.has_subType (lit "Ammonia world")));
    try assumption.
  - intros b Hb. split; apply (subType_apart (lit "Earth-like world"));
      try exact Hb; vm_compute; discriminate.
  - intros b Hb. apply (subType_apart (lit "Water world"));
      try exact Hb; vm_compute; discriminate.
Qed.

Lemma kept_systems_counts_witness :
  exists found,
    In (JSON.serialize Analysis.planets_record) [JSON.serialize Analysis.planets_record]
    /\ (1 <= length (Analysis.earthLikeWorlds found))%nat
    /\ (1 <= length (Analysis.ringedLandableAtmospheric found))%nat
    /\ Forall (fun body => qualifies body = Ok true)
         (Analysis.ringedLandableAtmospheric found)
    /\ (length (Analysis.ringedLandableAtmospheric found)
        <= Analysis.ringedBodies found <= Analysis.totalBodies found)%nat
    /\ (length (Analysis.ringedLandableAtmospheric found)
        <= Analysis.landableBodies found <= Analysis.totalBodies found)%nat
    /\ (length (Analysis.ringedLandableAtmospheric found)
        <= Analysis.atmosphericBodies found <= Analysis.totalBodies found)%nat
    /\ (length (Analysis.earthLikeWorlds found) + Analysis.waterWorlds found
        + Analysis.ammoniaWorlds found <= Analysis.totalBodies found)%nat.
Proof.
  eexists.
  apply (kept_systems_counts jstring (@Some jstring)
           [JSON.serialize Analysis.planets_record]).
  vm_compute. left. reflexivity.
Defined.

(** ** The body recorded by the ingestion *)

(** An entry of a body list that is an array, as the loop of the
    ingestion reads it. *)
Lemma probed_item (obj : value) (items : list value) (i : nat)
      (body : value) (hit : bool) :
  get_prop obj (lit "bodies") = Ok (VArr items) ->
  probe obj i = Ok (Some (body, hit)) ->
  nth_error items i = Some body /\ qualifies body = Ok hit.
Proof.
  intros Hb Hp.
  apply probe_inv in Hp as (bodies & len & H1 & _ & _ & H4 & H5).
  rewrite Hb in H1. injection H1 as <-.
  split; [|exact H5].
  apply qualifies_defined in H5 as (Hu & _).
  cbn [get_index] in H4.
  destruct (nth_error items i) as [b|]; injection H4 as <-; congruence.
Qed.

Lemma planet_test_false (body : value) :
  qualifies body = Ok false ->
  Analysis.ringed_landable_atmospheric body = Ok false.
Proof.
  intros H. unfold Analysis.ringed_landable_atmospheric, rbind.
  destruct (qualifies_defined body H) as (Hu & Hn).
  destruct (get_prop_defined (lit "type") Hu Hn) as (t & ->).
  destruct (Analysis.is_text t (lit "Planet")); [exact H|reflexivity].
Qed.

(** X14. The analysis finds what the ingestion recorded.  For a record
    that the ingestion decoded and matched, with no number beyond the
    range of the doubles and a [name] that is neither an array nor an
    object, read back from the [system_data] column of the row stored
    for it: when the body recorded as matched has the type [Planet] and
    the filter of the analysis does not throw, that body is the first of
    the ringed, landable planets with an atmosphere that the analysis
    finds in the system. *)
Theorem recorded_planet_is_found_first :
  forall (lines : list jstring) (obj body : value) (args row : Row)
         (text : jstring) (planets : list value),
    In obj (records lines) ->
    match_predicate obj = Some body ->
    plain obj = true ->
    row_of obj body = Ok args ->
    bindable (system_name args) = true ->
    bound args = Ok row ->
    system_data row = VStr text ->
    get_prop body (lit "type") = Ok (VStr (lit "Planet")) ->
    Analysis.ringed_planets (Some text) = Ok planets ->
    hd_error planets = Some body.
Proof.
  intros lines obj body args row text planets
         Hin Hm Hfin Hargs Hname Hbound Htext Htype Hfound.
  destruct (records_parsed obj lines false [] Hin) as (source & Hsource).
  pose proof (parse_serialize obj (parse_well_formed source obj Hsource) Hfin)
    as Hback.
  apply match_predicate_first in Hm as (Hfl & i & Hhit & Hprev).
  apply first_level_iff in Hfl
    as (bodies & population & coords & H1 & H2 & _).
  assert (Hdef : obj <> VUndefined)
    by (apply get_prop_Ok_defined in H1; tauto).
  assert (text = JSON.serialize obj) as ->.
  { rewrite (@bound_in_place args row Hname Hbound) in Htext.
    apply row_of_inv in Hargs as (c & _ & _ & _ & _ & _ & _ & _ & Hsd).
    rewrite Hsd, (stringify_defined obj Hdef) in Htext. congruence. }
  unfold Analysis.ringed_planets, Analysis.bodies_of, rbind in Hfound.
  rewrite Hback, H1, H2 in Hfound.
  unfold Analysis.filter, rbind in Hfound.
  destruct bodies as [| | | | | | |items|]; try discriminate.
  cbn [Analysis.items_of] in Hfound.
  destruct (probed_item obj items i body true H1 Hhit) as (Hi & Hq).
  apply (filter_items_first Analysis.ringed_landable_atmospheric body)
    with (items := items) (i := i); try assumption.
  - unfold Analysis.ringed_landable_atmospheric, rbind.
    rewrite Htype. cbn [Analysis.is_text].
    rewrite str_eqb_refl. exact Hq.
  - intros j Hj. destruct (Hprev j Hj) as (b & Hb).
    destruct (probed_item obj items j b false H1 Hb) as (Hn & Hf).
    exists b. split; [exact Hn|]. apply planet_test_false. exact Hf.
Qed.

Lemma recorded_planet_is_found_first_witness :
  hd_error [Analysis.first_planet; Analysis.second_planet]
  = Some Analysis.first_planet.
Proof.
  assert (Hrow : exists row,
            row_of Analysis.planets_record Analysis.first_planet = Ok row
            /\ bindable (system_name row) = true
            /\ bound row = Ok row
            /\ system_data row
               = VStr (JSON.serialize Analysis.planets_record))
    by (eexists; repeat split; reflexivity).
  destruct Hrow as (row & Hrow & Hname & Hbound & Htext).
  apply (recorded_planet_is_found_first Analysis.planets_file
           Analysis.planets_record Analysis.first_planet row row
           (JSON.serialize Analysis.planets_record)
           [Analysis.first_planet; Analysis.second_planet]).
  - vm_compute. left. reflexivity.
  - vm_compute. reflexivity.
  - reflexivity.
  - exact Hrow.
  - exact Hname.
  - exact Hbound.
  - exact Htext.
  - reflexivity.
  - vm_compute. reflexivity.
Defined.

